(** * NumberInput: the value engine of [@mantine/core]'s numeric field

    A shallow embedding of the parsing, stepping and clamping logic of
    [NumberInput] (the component whose source is carried by
    [apps/mantine.dev/src/pages/core/anchor.mdx]), together with the
    properties its specification states about it.

    Layout of the development:
    - [JSNumber]   : IEEE 754 binary64 values and the operations the
                     component uses on them ([*], [+], [-], [/], [<],
                     [Math.round], [Math.min], [Math.max], [10 ** p]);
    - [JSString]   : decimal printing and parsing ([toString], [toFixed],
                     [parseFloat], [Number(...)]) and the regular
                     expressions of the component, as matchers;
    - [NumberInput]: the functions of the component, in source order;
    - the theorems. *)

From Stdlib Require Import ZArith List String Ascii Bool Lia.
Import ListNotations.

Local Open Scope Z_scope.

(* ------------------------------------------------------------------ *)
(** ** JavaScript numbers *)
(* ------------------------------------------------------------------ *)

Module JSNumber.

(** Every finite binary64 value is an integer multiple of [2^-1074], the
    smallest subnormal.  [Fin k] stands for [k * 2^-1074]; the values that
    a double can hold are those [k] with at most 53 significant bits and
    [|k| < 2^2098].  The two zeros are identified: the component only
    observes numbers through [===], [<], [<=], [>], [>=], arithmetic with
    a non-zero divisor, and decimal printing, none of which tells them
    apart in a way that reaches the stored value. *)
Inductive number : Type :=
| NaN
| Inf (negative : bool)
| Fin (k : Z).

(** Number of units in [1]. *)
Definition U : Z := 2 ^ 1074.

(** First magnitude (in units) that is too large for a finite double. *)
Definition OVF : Z := 2 ^ 2098.

(** Binary exponent of the last place for a magnitude of [a] units:
    below [2^53] units every integer is a double (subnormals and the first
    normal binade), above the spacing doubles with every binade. *)
Definition ulp_shift (a : Z) : Z := Z.max 0 (Z.log2 a + 1 - 53).

(** Where [n / d] lies between the two multiples of [2^sh] that enclose
    it: [Lt] below the midpoint, [Eq] on it, [Gt] above.  [a] and [r0]
    are the quotient and the remainder of [n] by [d], [ra] is what the
    last [sh] bits of [a] are worth. *)
Definition midpoint_cmp (sh ra r0 d : Z) : comparison :=
  if sh =? 0 then 2 * r0 ?= d
  else
    match ra ?= Z.shiftl 1 (sh - 1) with
    | Eq => if r0 =? 0 then Eq else Gt
    | c => c
    end.

(** Round-to-nearest, ties-to-even, of the magnitude [n / d] units
    ([0 <= n], [0 < d]): the result keeps 53 significant bits. *)
Definition round_pos (n d : Z) : Z :=
  let a := n / d in
  let r0 := n mod d in
  let sh := ulp_shift a in
  let q := Z.shiftr a sh in
  let ra := a - Z.shiftl q sh in
  let q' :=
    match midpoint_cmp sh ra r0 d with
    | Lt => q
    | Gt => q + 1
    | Eq => if Z.even q then q else q + 1
    end in
  Z.shiftl q' sh.

(** The double nearest to [n / d] units ([0 < d]); overflow gives an
    infinity, as IEEE 754 round-to-nearest prescribes. *)
Definition round_units (n d : Z) : number :=
  let m := round_pos (Z.abs n) d in
  if OVF <=? m then Inf (n <? 0) else Fin (Z.sgn n * m).

(** The double nearest to the rational [n / d] ([0 < d]). *)
Definition of_ratio (n d : Z) : number := round_units (n * U) d.

(** [Number(z)] for a mathematical integer (also [Number(bigint)]). *)
Definition of_Z (z : Z) : number := of_ratio z 1.

(** A magnitude that a double can hold. *)
Definition is_double (x : number) : bool :=
  match x with
  | Fin k => (round_pos (Z.abs k) 1 =? Z.abs k) && (Z.abs k <? OVF)
  | _ => true
  end.

Definition isNaN (x : number) : bool :=
  match x with NaN => true | _ => false end.

Definition isFinite (x : number) : bool :=
  match x with Fin _ => true | _ => false end.

(** [Number.isInteger] *)
Definition isInteger (x : number) : bool :=
  match x with Fin k => k mod U =? 0 | _ => false end.

(** Mathematical value of an integral double ([BigInt(x)]). *)
Definition to_Z (x : number) : Z :=
  match x with Fin k => k / U | _ => 0 end.

Definition neg (x : number) : number :=
  match x with
  | NaN => NaN
  | Inf s => Inf (negb s)
  | Fin k => Fin (- k)
  end.

(** [x + y] *)
Definition add (x y : number) : number :=
  match x, y with
  | NaN, _ | _, NaN => NaN
  | Inf s, Inf t => if Bool.eqb s t then Inf s else NaN
  | Inf s, Fin _ | Fin _, Inf s => Inf s
  | Fin a, Fin b => round_units (a + b) 1
  end.

(** [x - y] *)
Definition sub (x y : number) : number := add x (neg y).

(** [x * y] *)
Definition mul (x y : number) : number :=
  match x, y with
  | NaN, _ | _, NaN => NaN
  | Inf s, Inf t => Inf (xorb s t)
  | Inf s, Fin k | Fin k, Inf s =>
      if k =? 0 then NaN else Inf (xorb s (k <? 0))
  | Fin a, Fin b => round_units (a * b) U
  end.

(** [x / y] *)
Definition div (x y : number) : number :=
  match x, y with
  | NaN, _ | _, NaN => NaN
  | Inf _, Inf _ => NaN
  | Inf s, Fin k => Inf (xorb s (k <? 0))
  | Fin _, Inf _ => Fin 0
  | Fin a, Fin b =>
      if b =? 0 then (if a =? 0 then NaN else Inf (a <? 0))
      else round_units (Z.sgn b * a * U) (Z.abs b)
  end.

(** [x < y] *)
Definition ltb (x y : number) : bool :=
  match x, y with
  | NaN, _ | _, NaN => false
  | Inf s, Inf t => s && negb t
  | Inf s, Fin _ => s
  | Fin _, Inf t => negb t
  | Fin a, Fin b => a <? b
  end.

(** [x === y] on two numbers *)
Definition eqb (x y : number) : bool :=
  match x, y with
  | NaN, _ | _, NaN => false
  | Inf s, Inf t => Bool.eqb s t
  | Fin a, Fin b => a =? b
  | _, _ => false
  end.

(** [x <= y] *)
Definition leb (x y : number) : bool := ltb x y || eqb x y.
(** [x > y] *)
Definition gtb (x y : number) : bool := ltb y x.
(** [x >= y] *)
Definition geb (x y : number) : bool := leb y x.

(** [Math.max(x, y)] *)
Definition max (x y : number) : number :=
  match x, y with
  | NaN, _ | _, NaN => NaN
  | _, _ => if ltb x y then y else x
  end.

(** [Math.min(x, y)] *)
Definition min (x y : number) : number :=
  match x, y with
  | NaN, _ | _, NaN => NaN
  | _, _ => if ltb y x then y else x
  end.

(** [Math.round(x)]: the integer nearest to [x], halves towards [+∞]. *)
Definition round (x : number) : number :=
  match x with
  | Fin k => Fin ((2 * k + U) / (2 * U) * U)
  | _ => x
  end.

(** [10 ** p] for the exponents the component forms: [p] is the result of
    [Math.max(0, ...)] over integers, or [+∞].  Powers up to [10^22] are
    doubles and every engine returns them exactly; beyond that the
    language leaves [**] implementation-approximated and the nearest
    double is taken here. *)
Definition pow10 (p : number) : number :=
  match p with
  | NaN => NaN
  | Inf true => Fin 0
  | Inf false => Inf false
  | Fin k =>
      let n := k / U in
      if 309 <=? n then Inf false
      else if n <? 0 then of_ratio 1 (10 ^ (- n))
      else of_ratio (10 ^ n) 1
  end.

Definition MAX_SAFE_INTEGER : number := of_Z (2 ^ 53 - 1).
Definition MIN_SAFE_INTEGER : number := of_Z (- (2 ^ 53 - 1)).

(** [Number.isSafeInteger] *)
Definition isSafeInteger (x : number) : bool :=
  isInteger x && (Z.abs (to_Z x) <=? 2 ^ 53 - 1).

End JSNumber.

(* ------------------------------------------------------------------ *)
(** ** Strings: decimal printing and parsing *)
(* ------------------------------------------------------------------ *)

(** Strings are sequences of ASCII characters, which is what the text of a
    numeric field holds (digits, sign, separator, exponent letter). *)
Module JSString.
Import JSNumber.

Local Open Scope string_scope.
Local Open Scope Z_scope.

Definition is_digit (c : ascii) : bool :=
  (48 <=? nat_of_ascii c)%nat && (nat_of_ascii c <=? 57)%nat.

Definition digit_val (c : ascii) : Z := Z.of_nat (nat_of_ascii c) - 48.

Definition digit_char (d : Z) : ascii := ascii_of_nat (Z.to_nat (48 + d)).

(** WhiteSpace and LineTerminator code points below 128. *)
Definition is_space (c : ascii) : bool :=
  let n := nat_of_ascii c in
  ((9 <=? n)%nat && (n <=? 13)%nat) || (n =? 32)%nat.

Fixpoint all_digits (s : string) : bool :=
  match s with
  | "" => true
  | String c r => is_digit c && all_digits r
  end.

(** Longest prefix of decimal digits, and what follows it. *)
Fixpoint span_digits (s : string) : string * string :=
  match s with
  | "" => ("", "")
  | String c r =>
      if is_digit c
      then let (d, t) := span_digits r in (String c d, t)
      else ("", s)
  end.

(** Value of a run of digits read after the digits worth [acc]. *)
Fixpoint digits_value (acc : Z) (s : string) : Z :=
  match s with
  | "" => acc
  | String c r => digits_value (10 * acc + digit_val c) r
  end.

Fixpoint digits_fuel (fuel : nat) (n : Z) (acc : string) : string :=
  match fuel with
  | O => acc
  | S f =>
      let acc' := String (digit_char (n mod 10)) acc in
      if n <? 10 then acc' else digits_fuel f (n / 10) acc'
  end.

(** Decimal digits of a natural number, most significant first, without
    leading zeros (["0"] for zero). *)
Definition Z_to_digits (n : Z) : string :=
  digits_fuel (S (Z.to_nat (Z.log2 n))) n "".

(** [z.toString()] for a bigint, [String(z)] for an integer. *)
Definition Z_to_string (z : Z) : string :=
  if z <? 0 then String "-" (Z_to_digits (- z)) else Z_to_digits z.

Fixpoint zeros (n : nat) : string :=
  match n with O => "" | S m => String "0" (zeros m) end.

(** [s.length] as an integer *)
Definition slen (s : string) : Z := Z.of_nat (String.length s).

Fixpoint skip_spaces (s : string) : string :=
  match s with
  | String c r => if is_space c then skip_spaces r else s
  | "" => ""
  end.

Fixpoint rev_acc (s acc : string) : string :=
  match s with
  | "" => acc
  | String c r => rev_acc r (String c acc)
  end.

Definition rev (s : string) : string := rev_acc s "".

(** [s.trim()] *)
Definition trim (s : string) : string :=
  rev (skip_spaces (rev (skip_spaces s))).

Definition starts_with (p s : string) : bool := String.prefix p s.

(** [s.slice(n)] *)
Fixpoint drop (n : nat) (s : string) : string :=
  match n, s with
  | S k, String _ r => drop k r
  | _, _ => s
  end.

(** [s.slice(0, n)] *)
Fixpoint take (n : nat) (s : string) : string :=
  match n, s with
  | S k, String c r => String c (take k r)
  | _, _ => ""
  end.

(** The double nearest to [m * 10^e].  The two guards only keep the
    powers of ten small: past them the result is already decided
    ([len] bounds the number of digits of [m]). *)
Definition of_decimal (m e : Z) (len : nat) : number :=
  if m =? 0 then Fin 0
  else if 400 <? e then Inf false
  else if e + Z.of_nat len <? -400 then Fin 0
  else if e <? 0 then of_ratio m (10 ^ (- e))
  else of_ratio (m * 10 ^ e) 1.

(** Optional exponent part [[eE][+-]?digits+] at the head of [s]. *)
Definition parse_exponent (s : string) : Z * string :=
  match s with
  | String c r =>
      if (Ascii.eqb c "e" || Ascii.eqb c "E")%bool then
        let '(sg, r') :=
          match r with
          | String "+" t => (1, t)
          | String "-" t => (-1, t)
          | _ => (1, r)
          end in
        let (ds, rest) := span_digits r' in
        match ds with
        | "" => (0, s)
        | _ => (sg * digits_value 0 ds, rest)
        end
      else (0, s)
  | "" => (0, s)
  end.

(** Longest prefix of [s] that is an unsigned StrDecimalLiteral: its value
    and the rest of the string. *)
Definition parse_unsigned_decimal (s : string) : option (number * string) :=
  if starts_with "Infinity" s then Some (Inf false, drop 8 s)
  else
    let (ip, r1) := span_digits s in
    let '(fp, r2, dot) :=
      match r1 with
      | String "." t => let (f, r) := span_digits t in (f, r, true)
      | _ => ("", r1, false)
      end in
    match ip, fp with
    | "", "" => None
    | _, _ =>
        let (ex, r3) := parse_exponent r2 in
        let m := digits_value (digits_value 0 ip) fp in
        let e := ex - Z.of_nat (String.length fp) in
        Some (of_decimal m e (String.length ip + String.length fp), r3)
    end.

(** Longest prefix of [s] that is a StrDecimalLiteral (with its sign). *)
Definition parse_decimal (s : string) : option (number * string) :=
  match s with
  | String "-" r =>
      match parse_unsigned_decimal r with
      | Some (x, t) => Some (neg x, t)
      | None => None
      end
  | String "+" r => parse_unsigned_decimal r
  | _ => parse_unsigned_decimal s
  end.

(** [parseFloat(s)] *)
Definition parseFloat (s : string) : number :=
  match parse_decimal (skip_spaces s) with
  | Some (x, _) => x
  | None => NaN
  end.

Definition radix_digit (radix : Z) (c : ascii) : option Z :=
  let n := Z.of_nat (nat_of_ascii c) in
  let v := if (48 <=? n) && (n <=? 57) then n - 48
           else if (97 <=? n) && (n <=? 102) then n - 87
           else if (65 <=? n) && (n <=? 70) then n - 55
           else 99 in
  if v <? radix then Some v else None.

Fixpoint radix_value (radix acc : Z) (s : string) : option Z :=
  match s with
  | "" => Some acc
  | String c r =>
      match radix_digit radix c with
      | Some v => radix_value radix (radix * acc + v) r
      | None => None
      end
  end.

(** NonDecimalIntegerLiteral: [0x..], [0o..], [0b..] *)
Definition parse_radix_literal (s : string) : option number :=
  match s with
  | String "0" (String c (String d r)) =>
      let body := String d r in
      let radix :=
        if (Ascii.eqb c "x" || Ascii.eqb c "X")%bool then 16
        else if (Ascii.eqb c "o" || Ascii.eqb c "O")%bool then 8
        else if (Ascii.eqb c "b" || Ascii.eqb c "B")%bool then 2
        else 0 in
      if radix =? 0 then None
      else option_map of_Z (radix_value radix 0 body)
  | _ => None
  end.

(** [Number(s)] for a string *)
Definition Number_of_string (s : string) : number :=
  let t := trim s in
  match t with
  | "" => Fin 0
  | _ =>
      match parse_radix_literal t with
      | Some x => x
      | None =>
          match parse_decimal t with
          | Some (x, "") => x
          | _ => NaN
          end
      end
  end.

(** *** [Number::toString] *)

(** Does the decimal [s * 10^e] read back as the double of [k] units? *)
Definition reads_back (k s e : Z) : bool :=
  match (if e <? 0 then of_ratio s (10 ^ (- e)) else of_ratio (s * 10 ^ e) 1) with
  | Fin k' => k' =? k
  | _ => false
  end.

(** The significand [s] for which [s * 10^e] reads back as [k] units and
    is nearest to it (the even one of two equally near), if there is one.
    When some integer reads back, so does one of the two that enclose
    [k / 10^e]. *)
Definition shortest_at (k e : Z) : option Z :=
  let num := if e <? 0 then k * 10 ^ (- e) else k in
  let den := if e <? 0 then U else U * 10 ^ e in
  let lo := num / den in
  let hi := if num mod den =? 0 then lo else lo + 1 in
  let dl := num - lo * den in
  let dh := hi * den - num in
  match reads_back k lo e, reads_back k hi e with
  | true, true =>
      if dl <? dh then Some lo
      else if dh <? dl then Some hi
      else if Z.even lo then Some lo else Some hi
  | true, false => Some lo
  | false, true => Some hi
  | false, false => None
  end.

(** Largest decimal exponent, from [e] downwards, at which a significand
    reads back: the significand then has as few digits as possible. *)
Fixpoint shortest_from (fuel : nat) (k e : Z) : option (Z * Z) :=
  match fuel with
  | O => None
  | S f =>
      match shortest_at k e with
      | Some s => Some (s, e)
      | None => shortest_from f k (e - 1)
      end
  end.

(** An exponent no significand of [k] units can exceed: [k] units lie
    below [2^(l+1)] for [l = log2 k - 1074], hence below [10^e] for the
    [e] taken here ([30103 / 100000] is just above [log10 2] for a
    positive argument and the quotient rounds down for a negative one). *)
Definition first_exponent (k : Z) : Z :=
  let l := Z.log2 k - 1074 + 1 in
  (if l <? 0 then l * 30102 else l * 30103) / 100000 + 1.

Definition shortest (k : Z) : option (Z * Z) :=
  shortest_from 40 k (first_exponent k).

(** The four layouts of [Number::toString] for the digits of [s] and the
    position [n] of the decimal point. *)
Definition format_shortest (s e : Z) : string :=
  let ds := Z_to_digits s in
  let kk := Z.of_nat (String.length ds) in
  let n := kk + e in
  if (kk <=? n) && (n <=? 21) then ds ++ zeros (Z.to_nat (n - kk))
  else if (0 <? n) && (n <=? 21)
       then take (Z.to_nat n) ds ++ "." ++ drop (Z.to_nat n) ds
  else if (-6 <? n) && (n <=? 0)
       then "0." ++ zeros (Z.to_nat (- n)) ++ ds
  else
    let ex := (if n - 1 <? 0 then "-" else "+") ++ Z_to_digits (Z.abs (n - 1)) in
    match ds with
    | "" => ""
    | String d "" => String d ("e" ++ ex)
    | String d r => String d ("." ++ r ++ "e" ++ ex)
    end.

(** [String(x)], [x.toString()] *)
Definition to_string (x : number) : string :=
  match x with
  | NaN => "NaN"
  | Inf false => "Infinity"
  | Inf true => "-Infinity"
  | Fin k =>
      if k =? 0 then "0"
      else
        let body :=
          match shortest (Z.abs k) with
          | Some (s, e) => format_shortest s e
          | None => ""
          end in
        if k <? 0 then "-" ++ body else body
  end.

(** [x.toFixed(f)]; [None] is the RangeError raised for a number of
    fraction digits outside [0 .. 100]. *)
Definition toFixed (x f : number) : option string :=
  match f with
  | Inf _ => None
  | _ =>
      let fd := match f with Fin k => Z.quot k U | _ => 0 end in
      if (fd <? 0) || (100 <? fd) then None
      else
        match x with
        | Fin k =>
            let a := Z.abs k in
            if 10 ^ 21 * U <=? a then Some (to_string x)
            else
              let n := (2 * a * 10 ^ fd + U) / (2 * U) in
              let m := Z_to_digits n in
              let m' :=
                if fd =? 0 then m
                else
                  let padded := zeros (Z.to_nat (fd + 1) - String.length m) ++ m in
                  let cut := (String.length padded - Z.to_nat fd)%nat in
                  take cut padded ++ "." ++ drop cut padded in
              Some (if k <? 0 then "-" ++ m' else m')
        | _ => Some (to_string x)
        end
  end.

End JSString.

(* ------------------------------------------------------------------ *)
(** ** The component *)
(* ------------------------------------------------------------------ *)

Module NumberInput.
Import JSNumber JSString.

Local Open Scope string_scope.
Local Open Scope Z_scope.

(** *** Patterns *)

(** [/^-?\d+$/] *)
Definition integerPattern (s : string) : bool :=
  let body := match s with String "-" r => r | _ => s end in
  match body with
  | "" => false
  | _ => all_digits body
  end.

Fixpoint all_zeros (t : string) : bool :=
  match t with
  | "" => true
  | String c r => Ascii.eqb c "0" && all_zeros r
  end.

(** [leadingDecimalZeroPattern]: [0.], [0.0], [0.00] ... and [-0], [-0.],
    [-0.0], [-0.00] ..., that is a zero, the separator and zeros only, or
    a minus sign, a zero and optionally such a tail. *)
Definition leadingDecimalZeroPattern (s : string) : bool :=
  match s with
  | String "0" (String "." r) => all_zeros r
  | String "-" (String "0" "") => true
  | String "-" (String "0" (String "." r)) => all_zeros r
  | _ => false
  end.

(** [/^-?0\d+(\.\d+)?\.?$/]: [01], [006], [00.02], [-0010], [-000.293] ... *)
Definition leadingZerosPattern (s : string) : bool :=
  let body := match s with String "-" r => r | _ => s end in
  match body with
  | String "0" r =>
      let (ds, t) := span_digits r in
      match ds with
      | "" => false
      | _ =>
          match t with
          | "" => true
          | String "." "" => true
          | String "." u =>
              let (fs, v) := span_digits u in
              match fs with
              | "" => false
              | _ => match v with "" | String "." "" => true | _ => false end
              end
          | _ => false
          end
      end
  | _ => false
  end.

(** What follows the last ['.'] of [s], if there is one. *)
Fixpoint after_last_dot (s : string) : option string :=
  match s with
  | "" => None
  | String c r =>
      match after_last_dot r with
      | Some t => Some t
      | None => if Ascii.eqb c "." then Some r else None
      end
  end.

Fixpoint last_char (s : string) : option ascii :=
  match s with
  | "" => None
  | String c "" => Some c
  | String _ r => last_char r
  end.

(** [/\.\d*0$/]: [13.0], [13.00], [5.10] ... *)
Definition trailingZerosPattern (s : string) : bool :=
  match after_last_dot s with
  | Some t =>
      all_digits t &&
      match last_char t with Some c => Ascii.eqb c "0" | None => false end
  | None => false
  end.

(** [/^-?\d+\.$/]: [10.], [-3.] *)
Definition trailingDecimalSeparatorPattern (s : string) : bool :=
  let body := match s with String "-" r => r | _ => s end in
  let (ds, t) := span_digits body in
  match ds, t with
  | String _ _, String "." "" => true
  | _, _ => false
  end.

Fixpoint count_zeros (t : string) : nat * string :=
  match t with
  | String "0" r => let (n, u) := count_zeros r in (S n, u)
  | _ => (O, t)
  end.

(** [s.replace(/^0+(?=\d)/, '')]: the zeros at the head that a digit
    follows are dropped (the last zero is such a digit for those before
    it). *)
Definition stripLeadingZeros (s : string) : string :=
  let (z, rest) := count_zeros s in
  match rest with
  | String c _ =>
      if is_digit c then rest
      else match z with
           | S (S _) => String "0" rest
           | _ => s
           end
  | "" => match z with
          | S (S _) => "0"
          | _ => s
          end
  end.

(** *** Types *)

Inductive NumberInputMode : Type := ModeNumber | ModeBigint.

(** [NumberInputNumericType = number | bigint] *)
Inductive NumberInputNumericType : Type :=
| PNumber (x : number)
| PBigint (z : Z).

(** [InternalNumberInputValue = string | number | bigint] *)
Inductive InternalNumberInputValue : Type :=
| VString (s : string)
| VNumber (x : number)
| VBigint (z : Z).

Inductive ClampBehavior : Type := Strict | Blur | NoClamp.

(** [NumberFormatValues] of [react-number-format] *)
Record NumberFormatValues : Type := {
  floatValue : option number;
  formattedValue : string;
  value : string
}.

(** The [source] of a value change. *)
Inductive Source : Type := SrcEvent | SrcProp | SrcIncrement | SrcDecrement.

(** The props the value logic reads, after [useProps] has filled in
    [defaultProps]. *)
Record NumberInputProps : Type := {
  min : option NumberInputNumericType;
  max : option NumberInputNumericType;
  step : NumberInputNumericType;
  startValue : NumberInputNumericType;
  clampBehavior : ClampBehavior;
  allowNegative : bool;
  allowLeadingZeros : bool;
  trimLeadingZeroesOnBlur : bool;
  isAllowedProp : option (NumberFormatValues -> bool)
}.

Definition defaultProps : NumberInputProps := {|
  min := None;
  max := None;
  step := PNumber (of_Z 1);
  startValue := PNumber (of_Z 0);
  clampBehavior := Blur;
  allowNegative := true;
  allowLeadingZeros := true;
  trimLeadingZeroesOnBlur := true;
  isAllowedProp := None
|}.

(** What a call does to the outside, in order. *)
Inductive effect : Type :=
| SetValue (v : InternalNumberInputValue)
| OnValueChange (payload : NumberFormatValues) (source : Source)
| OnMinReached
| OnMaxReached
| AdjustCursor
| OnBlur.

Inductive exception : Type := RangeError | TypeError.

(** The effects of a call, and the exception that ended it, if any. *)
Definition outcome : Type := list effect * option exception.

Definition done (l : list effect) : outcome := (l, None).
Definition throws (l : list effect) (e : exception) : outcome := (l, Some e).

(** *** Helpers, in source order *)

Definition isNumberString (v : InternalNumberInputValue) : bool :=
  match v with
  | VString s => negb (String.eqb s "") && negb (isNaN (Number_of_string s))
  | _ => false
  end.


(** [Number(_value)] for a stored string or number *)
Definition Number_of_value (v : InternalNumberInputValue) : number :=
  match v with
  | VString s => Number_of_string s
  | VNumber x => x
  | VBigint z => of_Z z
  end.

(** [String(_value)] *)
Definition String_of_value (v : InternalNumberInputValue) : string :=
  match v with
  | VString s => s
  | VNumber x => to_string x
  | VBigint z => Z_to_string z
  end.

Definition canStep (v : InternalNumberInputValue) : bool :=
  match v with
  | VNumber x => ltb x MAX_SAFE_INTEGER
  | _ =>
      match v with VString "" => true | _ => false end
      || (isNumberString v && ltb (Number_of_value v) MAX_SAFE_INTEGER)
  end.

Definition isValidBigIntString (s : string) (allowNeg : bool) : bool :=
  if String.eqb s "" then false
  else if String.eqb s "-" then false
  else if negb allowNeg && starts_with "-" s then false
  else integerPattern s.

(** [canStepBigInt] is declared on [bigint | string] and called on the
    stored value; on a number [startsWith] is missing, which is a
    TypeError when it comes to be called, and the pattern is tested on the
    number's text otherwise. *)
Definition canStepBigInt (v : InternalNumberInputValue) (allowNeg : bool)
  : exception + bool :=
  match v with
  | VBigint _ => inr true
  | VString s => inr (String.eqb s "" || isValidBigIntString s allowNeg)
  | VNumber x => if negb allowNeg then inl TypeError
                 else inr (integerPattern (to_string x))
  end.

Definition parseBigIntFromString (s : string) : option Z :=
  if negb (integerPattern s) then None
  else
    match s with
    | String "-" r => Some (- digits_value 0 r)
    | _ => Some (digits_value 0 s)
    end.

Definition toBigIntOrUndefined (v : option NumberInputNumericType) : option Z :=
  match v with
  | Some (PBigint z) => Some z
  | Some (PNumber x) =>
      if isFinite x && isInteger x then Some (to_Z x) else None
  | None => None
  end.

Definition clampBigInt (v : Z) (lo hi : option Z) : Z :=
  match lo with
  | Some l => if v <? l then l else
      match hi with Some h => if h <? v then h else v | None => v end
  | None =>
      match hi with Some h => if h <? v then h else v | None => v end
  end.

(** [inputValue.toString().replace('.', '').length] *)
Definition getTotalDigits (s : string) : Z :=
  match after_last_dot s with
  | Some _ => Z.of_nat (String.length s) - 1
  | None => Z.of_nat (String.length s)
  end.

Definition isValidNumber (fv : option number) (s : string) : bool :=
  match fv with
  | Some x => ltb x MAX_SAFE_INTEGER && negb (isNaN x)
              && (getTotalDigits s <? 14) && negb (String.eqb s "")
  | None => false
  end.

Definition isInRange (v lo hi : option number) : bool :=
  match v with
  | None => true
  | Some x =>
      let minValid := match lo with None => true | Some l => geb x l end in
      let maxValid := match hi with None => true | Some h => leb x h end in
      minValid && maxValid
  end.

(** Modelled from the spec: [clamp] of [@mantine/hooks], which the
    component imports and whose source is not at hand.  The glossary has
    it "constrain a value to lie within [min, max], leaving it unchanged
    if already in range", and either bound may be absent. *)
Definition clamp (v : number) (lo hi : option number) : number :=
  match lo, hi with
  | None, None => v
  | Some l, None => JSNumber.max v l
  | None, Some h => JSNumber.min v h
  | Some l, Some h => JSNumber.min (JSNumber.max v l) h
  end.

Definition clampAndSanitizeInput (sanitizedValue : InternalNumberInputValue)
    (hi lo : option number) : InternalNumberInputValue :=
  let stringValue := String_of_value sanitizedValue in
  let hasTrailingDecimalSeparator := trailingDecimalSeparatorPattern stringValue in
  let replaced := stripLeadingZeros stringValue in
  let parsedValue := parseFloat replaced in
  if isNaN parsedValue then VString replaced
  else if gtb parsedValue MAX_SAFE_INTEGER then
    match hi with Some h => VNumber h | None => VString replaced end
  else
    let clamped := clamp parsedValue lo hi in
    if hasTrailingDecimalSeparator then
      VString (stripLeadingZeros (to_string clamped) ++ ".")
    else VNumber clamped.

Definition clampAndSanitizeBigIntInput (sanitizedValue : string)
    (lo hi : option Z) (cb : ClampBehavior) : InternalNumberInputValue :=
  if String.eqb sanitizedValue "" || String.eqb sanitizedValue "-"
  then VString sanitizedValue
  else
    match parseBigIntFromString sanitizedValue with
    | None => VString sanitizedValue
    | Some parsed =>
        match cb with
        | Blur => VBigint (clampBigInt parsed lo hi)
        | _ => VBigint parsed
        end
    end.

(** *** The component body *)



Definition numberOrUndefined (v : option NumberInputNumericType) : option number :=
  match v with Some (PNumber x) => Some x | _ => None end.

Section Component.

Variable p : NumberInputProps.

Definition minNumber : option number := numberOrUndefined (min p).
Definition maxNumber : option number := numberOrUndefined (max p).
Definition stepNumber : number :=
  match step p with PNumber x => x | _ => of_Z 1 end.
Definition startValueNumber : number :=
  match startValue p with PNumber x => x | _ => of_Z 0 end.

Definition minBigInt : option Z := toBigIntOrUndefined (min p).
Definition maxBigInt : option Z := toBigIntOrUndefined (max p).
Definition stepBigInt : Z :=
  match toBigIntOrUndefined (Some (step p)) with Some z => z | None => 1 end.
Definition startValueBigInt : Z :=
  match toBigIntOrUndefined (Some (startValue p)) with Some z => z | None => 0 end.

Definition parseBigIntOrString (inputValue : string) : InternalNumberInputValue :=
  if negb (isValidBigIntString inputValue (allowNegative p))
     || (allowLeadingZeros p && leadingZerosPattern inputValue)
  then VString inputValue
  else
    match parseBigIntFromString inputValue with
    | Some parsed => VBigint parsed
    | None => VString inputValue
    end.

Definition getBigIntFloatValue (z : Z) : option number :=
  let numericValue := of_Z z in
  if isSafeInteger numericValue then Some numericValue else None.

Definition handleValueChange (mode : NumberInputMode)
    (payload : NumberFormatValues) (source : Source) : outcome :=
  let set :=
    match source with
    | SrcEvent =>
        match mode with
        | ModeBigint => [SetValue (parseBigIntOrString (value payload))]
        | ModeNumber =>
            if isValidNumber (floatValue payload) (value payload)
               && negb (leadingDecimalZeroPattern (value payload))
               && negb (if allowLeadingZeros p
                        then leadingZerosPattern (value payload) else false)
               && negb (trailingZerosPattern (value payload))
               && negb (trailingDecimalSeparatorPattern (value payload))
            then match floatValue payload with
                 | Some x => [SetValue (VNumber x)]
                 | None => [SetValue (VString (value payload))]
                 end
            else [SetValue (VString (value payload))]
        end
    | _ => []
    end in
  done (set ++ [OnValueChange payload source]).

(** [(?:[eE]([+-]?\d+))?$] when the exponent is there: the text of the
    exponent if [s] is an exponent part up to its end. *)
Definition exponentTail (s : string) : option string :=
  match s with
  | String c r =>
      if (Ascii.eqb c "e" || Ascii.eqb c "E")%bool then
        let body := match r with
                    | String "+" t => t
                    | String "-" t => t
                    | _ => r
                    end in
        match body with
        | "" => None
        | _ => if all_digits body then Some r else None
        end
      else None
  | "" => None
  end.

(** A match of [(?:\.(\d+))?(?:[eE]([+-]?\d+))?$] at the head of [s]: the
    two groups. *)
Definition decimalMatchHere (s : string) : option (option string * option string) :=
  let withFraction :=
    match s with
    | String "." t =>
        let (ds, r) := span_digits t in
        match ds, r with
        | "", _ => None
        | _, "" => Some (Some ds, None)
        | _, _ => match exponentTail r with
                  | Some e => Some (Some ds, Some e)
                  | None => None
                  end
        end
    | _ => None
    end in
  match withFraction with
  | Some m => Some m
  | None =>
      match exponentTail s with
      | Some e => Some (None, Some e)
      | None => match s with "" => Some (None, None) | _ => None end
      end
  end.

(** The leftmost match in [s]; there is always one, at the end. *)
Fixpoint decimalMatch (s : string) : option string * option string :=
  match decimalMatchHere s with
  | Some m => m
  | None => match s with
            | String _ r => decimalMatch r
            | "" => (None, None)
            end
  end.

Definition getDecimalPlaces (inputValue : InternalNumberInputValue) : number :=
  let (m1, m2) := decimalMatch (String_of_value inputValue) in
  JSNumber.max (of_Z 0)
    (sub (match m1 with
          | Some f => of_Z (Z.of_nat (String.length f))
          | None => of_Z 0
          end)
         (match m2 with
          | Some e => Number_of_string e
          | None => of_Z 0
          end)).

(** The tail shared by the two number-mode steps: format, parse back,
    store and notify. *)
Definition storeFixed (pre : list effect) (val maxPrecision : number)
    (source : Source) : outcome :=
  match toFixed val maxPrecision with
  | None => throws pre RangeError
  | Some formatted =>
      done (pre ++ [SetValue (VNumber (parseFloat formatted));
                    OnValueChange {| floatValue := Some (parseFloat formatted);
                                     formattedValue := formatted;
                                     value := formatted |} source;
                    AdjustCursor])
  end.

(** The tail shared by the two bigint-mode steps. *)
Definition storeBigInt (pre : list effect) (val : Z) (source : Source) : outcome :=
  let formatted := Z_to_string val in
  done (pre ++ [SetValue (VBigint val);
                OnValueChange {| floatValue := getBigIntFloatValue val;
                                 formattedValue := formatted;
                                 value := formatted |} source;
                AdjustCursor]).

Definition increment (mode : NumberInputMode) (_value : InternalNumberInputValue)
  : outcome :=
  match mode with
  | ModeBigint =>
      match canStepBigInt _value (allowNegative p) with
      | inl e => throws [] e
      | inr false => done []
      | inr true =>
          let bump (current : Z) : outcome :=
            let incrementedValue := current + stepBigInt in
            match maxBigInt with
            | Some mx =>
                if mx <? incrementedValue
                then storeBigInt [OnMaxReached] mx SrcIncrement
                else storeBigInt [] incrementedValue SrcIncrement
            | None => storeBigInt [] incrementedValue SrcIncrement
            end in
          match _value with
          | VBigint current => bump current
          | VString "" | VNumber _ =>
              storeBigInt [] (clampBigInt startValueBigInt minBigInt maxBigInt)
                SrcIncrement
          | VString s =>
              match parseBigIntFromString s with
              | None => done []
              | Some parsed => bump parsed
              end
          end
      end
  | ModeNumber =>
      if negb (canStep _value) then done []
      else
        let currentValuePrecision := getDecimalPlaces _value in
        let stepPrecision := getDecimalPlaces (VNumber stepNumber) in
        let maxPrecision := JSNumber.max currentValuePrecision stepPrecision in
        let factor := pow10 maxPrecision in
        let incrementedValue :=
          div (add (round (mul (Number_of_value _value) factor))
                   (round (mul stepNumber factor))) factor in
        if negb (isNumberString _value)
           && match _value with VNumber x => isNaN x | _ => true end
        then storeFixed [] (clamp startValueNumber minNumber maxNumber)
               maxPrecision SrcIncrement
        else
          match maxNumber with
          | Some mx =>
              storeFixed (if gtb incrementedValue mx then [OnMaxReached] else [])
                (if leb incrementedValue mx then incrementedValue else mx)
                maxPrecision SrcIncrement
          | None => storeFixed [] incrementedValue maxPrecision SrcIncrement
          end
  end.

(** The [minValue] of [decrement], in bigint mode and in number mode. *)
Definition minValueBigInt : option Z :=
  match minBigInt with
  | Some m => Some m
  | None => if negb (allowNegative p) then Some 0 else None
  end.

Definition minValueNumber : number :=
  match minNumber with
  | Some m => m
  | None => if negb (allowNegative p) then of_Z 0 else MIN_SAFE_INTEGER
  end.

Definition decrement (mode : NumberInputMode) (_value : InternalNumberInputValue)
  : outcome :=
  match mode with
  | ModeBigint =>
      match canStepBigInt _value (allowNegative p) with
      | inl e => throws [] e
      | inr false => done []
      | inr true =>
          let minValue := minValueBigInt in
          let bump (current : Z) : outcome :=
            let decrementedValue := current - stepBigInt in
            match minValue with
            | Some mn =>
                if decrementedValue <? mn
                then storeBigInt [OnMinReached] mn SrcDecrement
                else storeBigInt [] decrementedValue SrcDecrement
            | None => storeBigInt [] decrementedValue SrcDecrement
            end in
          match _value with
          | VBigint current => bump current
          | VString "" | VNumber _ =>
              storeBigInt [] (clampBigInt startValueBigInt minValue maxBigInt)
                SrcDecrement
          | VString s =>
              match parseBigIntFromString s with
              | None => done []
              | Some parsed => bump parsed
              end
          end
      end
  | ModeNumber =>
      if negb (canStep _value) then done []
      else
        let minValue := minValueNumber in
        let currentValuePrecision := getDecimalPlaces _value in
        let stepPrecision := getDecimalPlaces (VNumber stepNumber) in
        let maxPrecision := JSNumber.max currentValuePrecision stepPrecision in
        let factor := pow10 maxPrecision in
        if (negb (isNumberString _value)
            && match _value with VNumber _ => false | _ => true end)
           || match _value with VNumber x => isNaN x | _ => false end
        then storeFixed [] (clamp startValueNumber (Some minValue) maxNumber)
               maxPrecision SrcDecrement
        else
          let decrementedValue :=
            div (sub (round (mul (Number_of_value _value) factor))
                     (round (mul stepNumber factor))) factor in
          storeFixed (if ltb decrementedValue minValue then [OnMinReached] else [])
            (if ltb decrementedValue minValue then minValue else decrementedValue)
            maxPrecision SrcDecrement
  end.

(** [a !== b] on stored values *)
Definition strictNe (a b : InternalNumberInputValue) : bool :=
  match a, b with
  | VString s, VString t => negb (String.eqb s t)
  | VNumber x, VNumber y => negb (eqb x y)
  | VBigint x, VBigint y => negb (x =? y)
  | _, _ => true
  end.

(** What [handleBlur] makes of the stored value. *)
Definition blurValue (mode : NumberInputMode) (_value : InternalNumberInputValue)
  : InternalNumberInputValue :=
  match mode with
  | ModeBigint =>
      let sanitizedValue :=
        match clampBehavior p, _value with
        | Blur, VBigint z => VBigint (clampBigInt z minBigInt maxBigInt)
        | _, _ => _value
        end in
      match sanitizedValue with
      | VString s =>
          if trimLeadingZeroesOnBlur p
          then clampAndSanitizeBigIntInput s minBigInt maxBigInt (clampBehavior p)
          else sanitizedValue
      | _ => sanitizedValue
      end
  | ModeNumber =>
      let sanitizedValue :=
        match clampBehavior p, _value with
        | Blur, VNumber x => VNumber (clamp x minNumber maxNumber)
        | _, _ => _value
        end in
      match sanitizedValue with
      | VString _ =>
          if trimLeadingZeroesOnBlur p
             && ltb (getDecimalPlaces sanitizedValue) (of_Z 15)
          then clampAndSanitizeInput sanitizedValue maxNumber minNumber
          else sanitizedValue
      | _ => sanitizedValue
      end
  end.

Definition handleBlur (mode : NumberInputMode) (_value : InternalNumberInputValue)
  : outcome :=
  let sanitizedValue := blurValue mode _value in
  done ((if strictNe _value sanitizedValue then [SetValue sanitizedValue] else [])
        ++ [OnBlur]).

(** The [isAllowed] handed to [NumericFormat]. *)
Definition isAllowed (mode : NumberInputMode) (val : NumberFormatValues) : bool :=
  let userAllowed :=
    match isAllowedProp p with Some f => f val | None => true end in
  if negb userAllowed then false
  else
    match clampBehavior p with
    | Strict =>
        match mode with
        | ModeNumber => isInRange (floatValue val) minNumber maxNumber
        | ModeBigint =>
            if String.eqb (value val) "" || String.eqb (value val) "-" then true
            else
              match parseBigIntFromString (value val) with
              | None => true
              | Some parsed =>
                  match minBigInt with None => true | Some m => m <=? parsed end
                  && match maxBigInt with None => true | Some m => parsed <=? m end
              end
        end
    | _ => true
    end.

(** An edit of the text, as [NumericFormat] handles it: the candidate
    values are shown to [isAllowed] first and the edit is dropped when it
    says no; otherwise [onValueChange] runs with source ['event']. *)
Definition keystroke (mode : NumberInputMode) (val : NumberFormatValues) : outcome :=
  if isAllowed mode val then handleValueChange mode val SrcEvent else done [].

End Component.

(** *** The stored value *)

(** The value last handed to [setValue], if any. *)
Fixpoint lastSet (l : list effect) : option InternalNumberInputValue :=
  match l with
  | [] => None
  | e :: r =>
      match lastSet r with
      | Some v => Some v
      | None => match e with SetValue v => Some v | _ => None end
      end
  end.

(** The stored value after a call: [setValue] replaces it (for a
    controlled field, once the owner hands the value back, as in
    [onChange={setValue}]). *)
Definition storedAfter (_value : InternalNumberInputValue) (o : outcome)
  : InternalNumberInputValue :=
  match lastSet (fst o) with Some v => v | None => _value end.

Definition count_effect (f : effect -> bool) (o : outcome) : nat :=
  List.length (List.filter f (fst o)).

Definition isOnMaxReached (e : effect) : bool :=
  match e with OnMaxReached => true | _ => false end.
Definition isOnMinReached (e : effect) : bool :=
  match e with OnMinReached => true | _ => false end.
Definition isOnValueChange (e : effect) : bool :=
  match e with OnValueChange _ _ => true | _ => false end.
Definition isSetValue (e : effect) : bool :=
  match e with SetValue _ => true | _ => false end.

(** *** A component instance over time *)








Definition notNumber (v : InternalNumberInputValue) : Prop :=
  match v with VNumber _ => False | _ => True end.



Definition setsNoNumber (e : effect) : Prop :=
  match e with SetValue v => notNumber v | _ => True end.


End NumberInput.

(* ------------------------------------------------------------------ *)
(** ** The handlers of the keyboard and of the controls *)
(* ------------------------------------------------------------------ *)

Module NumberInputEvents.
Import JSNumber JSString NumberInput.

Local Open Scope string_scope.
Local Open Scope Z_scope.

(** The props that the handlers and the controls read, besides those of
    the value logic: [stepHoldInterval] is a number or a function of the
    step count. *)
Record HandlerProps : Type := {
  disabled : bool;
  readOnly : bool;
  withKeyboardEvents : bool;
  stepHoldDelay : option Z;
  stepHoldInterval : option (Z + (Z -> Z))
}.

(** [event.key], as far as the handlers tell keys apart. *)
Inductive Key : Type := ArrowUp | ArrowDown | OtherKey.

(** What a handler does, in order: a call of the user's handler of the
    same event, [event.preventDefault()], [inputRef.current?.focus()], a
    step with all it does. *)
Inductive handled : Type :=
| CallUser
| PreventDefault
| FocusInput
| Stepped (o : outcome).

Section Handlers.

Variable c : HandlerProps.
Variable p : NumberInputProps.

Definition handleKeyDown (mode : NumberInputMode)
    (_value : InternalNumberInputValue) (key : Key) : list handled :=
  CallUser ::
  (if readOnly c || negb (withKeyboardEvents c) then []
   else
     match key with
     | ArrowUp => [PreventDefault; Stepped (increment p mode _value)]
     | ArrowDown => [PreventDefault; Stepped (decrement p mode _value)]
     | _ => []
     end).

(** [disabled] of the control that steps up and of the one that steps
    down. *)
Definition upDisabled (_value : InternalNumberInputValue) : bool :=
  disabled c
  || match _value, maxNumber p with
     | VNumber x, Some mx => geb x mx
     | _, _ => false
     end
  || match _value, maxBigInt p with
     | VBigint z, Some mx => mx <=? z
     | _, _ => false
     end.

Definition downDisabled (_value : InternalNumberInputValue) : bool :=
  disabled c
  || match _value, minNumber p with
     | VNumber x, Some mn => leb x mn
     | _, _ => false
     end
  || match _value, minBigInt p with
     | VBigint z, Some mn => z <=? mn
     | _, _ => false
     end.

(** *** Holding a control down *)

(** The refs of the component and the timeouts of the window: a timeout
    is its handle, the direction of the step that it will make and its
    delay; [nextTimer] is the handle that [window.setTimeout] returns
    next.  [held] is the stored value, which a step replaces by what it
    hands to [setValue] before the next handler runs (as [storedAfter]
    has it). *)
Record holdState : Type := {
  held : InternalNumberInputValue;
  stepCount : Z;
  onStepTimeout : option Z;
  timers : list (Z * bool * Z);
  nextTimer : Z
}.

Definition shouldUseStepInterval : bool :=
  match stepHoldDelay c, stepHoldInterval c with
  | Some _, Some _ => true
  | _, _ => false
  end.

(** [onStepTimeoutRef.current = window.setTimeout(() => onStepLoop(isIncrement), delay)] *)
Definition setStepTimeout (isIncrement : bool) (delay : Z) (s : holdState)
  : holdState :=
  {| held := held s;
     stepCount := stepCount s;
     onStepTimeout := Some (nextTimer s);
     timers := (nextTimer s, isIncrement, delay) :: timers s;
     nextTimer := nextTimer s + 1 |}.

(** [incrementRef.current?.()] or [decrementRef.current?.()], then
    [stepCountRef.current += 1]: a step that raises leaves the count as it
    was. *)
Definition onStepHandleChange (mode : NumberInputMode) (isIncrement : bool)
    (s : holdState) : holdState * outcome :=
  let o := if isIncrement then increment p mode (held s)
           else decrement p mode (held s) in
  ({| held := storedAfter (held s) o;
      stepCount := match snd o with None => stepCount s + 1 | Some _ => stepCount s end;
      onStepTimeout := onStepTimeout s;
      timers := timers s;
      nextTimer := nextTimer s |}, o).

(** The two handlers below test [shouldUseStepInterval] by its two
    props, which they go on to read. *)
Definition onStepLoop (mode : NumberInputMode) (isIncrement : bool)
    (s : holdState) : holdState * outcome :=
  let (s1, o) := onStepHandleChange mode isIncrement s in
  match snd o with
  | Some _ => (s1, o)
  | None =>
      match stepHoldDelay c, stepHoldInterval c with
      | Some _, Some (inl interval) => (setStepTimeout isIncrement interval s1, o)
      | Some _, Some (inr f) => (setStepTimeout isIncrement (f (stepCount s1)) s1, o)
      | _, _ => (s1, o)
      end
  end.

Definition onStep (mode : NumberInputMode) (isIncrement : bool)
    (s : holdState) : holdState * list handled :=
  let (s1, o) := onStepHandleChange mode isIncrement s in
  let did := [PreventDefault; FocusInput; Stepped o] in
  match snd o with
  | Some _ => (s1, did)
  | None =>
      match stepHoldDelay c, stepHoldInterval c with
      | Some delay, Some _ => (setStepTimeout isIncrement delay s1, did)
      | _, _ => (s1, did)
      end
  end.

(** [window.clearTimeout(id)] *)
Definition clearTimeout (id : Z) (l : list (Z * bool * Z)) : list (Z * bool * Z) :=
  List.filter (fun t => negb (fst (fst t) =? id)) l.

(** A handle is cleared when it is truthy: neither [null] nor [0]. *)
Definition onStepDone (s : holdState) : holdState :=
  {| held := held s;
     stepCount := 0;
     onStepTimeout := None;
     timers := match onStepTimeout s with
               | Some id => if id =? 0 then timers s else clearTimeout id (timers s)
               | None => timers s
               end;
     nextTimer := nextTimer s |}.

(** The timeout [id] comes due: it leaves the list and its callback
    runs. *)
Definition timeout (mode : NumberInputMode) (id : Z) (s : holdState)
  : holdState * outcome :=
  match List.find (fun t => fst (fst t) =? id) (timers s) with
  | Some (_, isIncrement, _) =>
      onStepLoop mode isIncrement
        {| held := held s;
           stepCount := stepCount s;
           onStepTimeout := onStepTimeout s;
           timers := clearTimeout id (timers s);
           nextTimer := nextTimer s |}
  | None => (s, done [])
  end.

(** The timeout set last comes due, if there is one. *)
Definition tick (mode : NumberInputMode) (s : holdState) : holdState :=
  match timers s with
  | (id, _, _) :: _ => fst (timeout mode id s)
  | [] => s
  end.

End Handlers.

(** The refs and the window when a pointer goes down on a control of a
    field that holds [v], no timeout being set; [first] is the handle of
    the first timeout. *)
Definition pressed (v : InternalNumberInputValue) (first : Z) : holdState :=
  {| held := v; stepCount := 0; onStepTimeout := None; timers := [];
     nextTimer := first |}.

(** The stored value after what a handler did: each step hands its
    value to [setValue]. *)
Fixpoint valueAfter (v : InternalNumberInputValue) (l : list handled)
  : InternalNumberInputValue :=
  match l with
  | [] => v
  | Stepped o :: r => valueAfter (storedAfter v o) r
  | _ :: r => valueAfter v r
  end.

End NumberInputEvents.

(* ------------------------------------------------------------------ *)
(** ** Configurations used below *)
(* ------------------------------------------------------------------ *)

Module Scenarios.
Import JSNumber JSString NumberInput.

Local Open Scope string_scope.
Local Open Scope Z_scope.

(** [defaultProps] with the given bounds, step and clamp behaviour. *)
Definition numberProps (lo hi : option Z) (st : Z) (cb : ClampBehavior)
  : NumberInputProps :=
  {| min := option_map (fun z => PNumber (of_Z z)) lo;
     max := option_map (fun z => PNumber (of_Z z)) hi;
     step := PNumber (of_Z st);
     startValue := startValue defaultProps;
     clampBehavior := cb;
     allowNegative := allowNegative defaultProps;
     allowLeadingZeros := allowLeadingZeros defaultProps;
     trimLeadingZeroesOnBlur := trimLeadingZeroesOnBlur defaultProps;
     isAllowedProp := None |}.

Definition bigintProps (lo hi : option Z) (st : Z) : NumberInputProps :=
  {| min := option_map PBigint lo;
     max := option_map PBigint hi;
     step := PBigint st;
     startValue := startValue defaultProps;
     clampBehavior := clampBehavior defaultProps;
     allowNegative := allowNegative defaultProps;
     allowLeadingZeros := allowLeadingZeros defaultProps;
     trimLeadingZeroesOnBlur := trimLeadingZeroesOnBlur defaultProps;
     isAllowedProp := None |}.

(** Bounds and step written as decimals with [P] fraction digits, each
    given by its digits as an integer: [decimalProps 1 (Some 0) (Some 1000) 1]
    is [min={0} max={100} step={0.1}]. *)
Definition decimalProps (P : Z) (lo hi : option Z) (st : Z) : NumberInputProps :=
  {| min := option_map (fun z => PNumber (of_ratio z (10 ^ P))) lo;
     max := option_map (fun z => PNumber (of_ratio z (10 ^ P))) hi;
     step := PNumber (of_ratio st (10 ^ P));
     startValue := startValue defaultProps;
     clampBehavior := clampBehavior defaultProps;
     allowNegative := allowNegative defaultProps;
     allowLeadingZeros := allowLeadingZeros defaultProps;
     trimLeadingZeroesOnBlur := trimLeadingZeroesOnBlur defaultProps;
     isAllowedProp := None |}.

(** [defaultProps] with leading zeros allowed or not. *)
Definition leadingZerosProps (allowed : bool) : NumberInputProps :=
  {| min := None;
     max := None;
     step := step defaultProps;
     startValue := startValue defaultProps;
     clampBehavior := clampBehavior defaultProps;
     allowNegative := allowNegative defaultProps;
     allowLeadingZeros := allowed;
     trimLeadingZeroesOnBlur := trimLeadingZeroesOnBlur defaultProps;
     isAllowedProp := None |}.

(** What [NumericFormat] reports for a typed text and its value. *)
Definition typed (text : string) (fv : option number) : NumberFormatValues :=
  {| floatValue := fv; formattedValue := text; value := text |}.

(** The field of the bigint demo: [step={BigInt(10)}], [min={BigInt(0)}]. *)
Definition bigIntDemo : NumberInputProps := bigintProps (Some 0) None 10.

(** A tiny step under the default props: [step={1e-101}]. *)
Definition tinyStepProps : NumberInputProps :=
  {| min := None;
     max := None;
     step := PNumber (of_ratio 1 (10 ^ 101));
     startValue := startValue defaultProps;
     clampBehavior := clampBehavior defaultProps;
     allowNegative := allowNegative defaultProps;
     allowLeadingZeros := allowLeadingZeros defaultProps;
     trimLeadingZeroesOnBlur := trimLeadingZeroesOnBlur defaultProps;
     isAllowedProp := None |}.


End Scenarios.

(** Handler props and bounds used below. *)
Module EventScenarios.
Import JSNumber JSString NumberInput NumberInputEvents.

Local Open Scope string_scope.
Local Open Scope Z_scope.

(** [stepHoldDelay] and [stepHoldInterval] given, the rest as by
    default. *)
Definition holdProps (delay : Z) (interval : Z + (Z -> Z)) : HandlerProps :=
  {| disabled := false; readOnly := false; withKeyboardEvents := true;
     stepHoldDelay := Some delay; stepHoldInterval := Some interval |}.

(** The handler props by default. *)
Definition plainProps : HandlerProps :=
  {| disabled := false; readOnly := false; withKeyboardEvents := true;
     stepHoldDelay := None; stepHoldInterval := None |}.

(** The delay of the timeout that is pending once [k] timeouts have come
    due while a control is held: [stepHoldDelay] at first, then
    [stepHoldInterval], asked with the count of the steps made. *)
Definition pendingDelay (delay : Z) (interval : Z + (Z -> Z)) (k : nat) : Z :=
  match k with
  | O => delay
  | S _ => match interval with
           | inl i => i
           | inr f => f (Z.of_nat k + 1)
           end
  end.

(** [defaultProps] with [max] a half-integer and an integer step:
    [halfMaxProps 1 1] is [max={1.5} step={1}]. *)
Definition halfMaxProps (m st : Z) : NumberInputProps :=
  {| min := None;
     max := Some (PNumber (of_ratio (2 * m + 1) 2));
     step := PNumber (of_Z st);
     startValue := startValue defaultProps;
     clampBehavior := clampBehavior defaultProps;
     allowNegative := allowNegative defaultProps;
     allowLeadingZeros := allowLeadingZeros defaultProps;
     trimLeadingZeroesOnBlur := trimLeadingZeroesOnBlur defaultProps;
     isAllowedProp := None |}.

End EventScenarios.

(* ------------------------------------------------------------------ *)
(** ** Properties *)
(* ------------------------------------------------------------------ *)

Import JSNumber JSString NumberInput Scenarios.

Local Open Scope string_scope.
Local Open Scope Z_scope.

Create HintDb latch.

(** *** Exact arithmetic on integers *)

Section NumberFacts.

Lemma U_pos : 0 < U.
Proof. unfold U. apply Z.pow_pos_nonneg; lia. Qed.

Lemma ulp_shift_nonneg a : 0 <= ulp_shift a.
Proof. unfold ulp_shift. lia. Qed.

Lemma midpoint_cmp_exact sh d : 0 <= sh -> 0 < d -> midpoint_cmp sh 0 0 d = Lt.
Proof.
  intros Hsh Hd. unfold midpoint_cmp.
  destruct (Z.eqb_spec sh 0) as [E|E].
  - simpl. destruct d; try lia; reflexivity.
  - rewrite Z.shiftl_mul_pow2 by lia.
    assert (0 < 2 ^ (sh - 1)) by (apply Z.pow_pos_nonneg; lia).
    replace (0 ?= 1 * 2 ^ (sh - 1)) with Lt; [reflexivity|].
    symmetry. apply Z.compare_lt_iff. lia.
Qed.

(** A magnitude whose bits below the last place are all zero is kept. *)
Lemma round_pos_exact a d :
  0 <= a -> 0 < d -> a mod 2 ^ ulp_shift a = 0 -> round_pos (a * d) d = a.
Proof.
  intros Ha Hd Hm. unfold round_pos.
  rewrite Z.div_mul by lia. rewrite Z.mod_mul by lia.
  set (sh := ulp_shift a) in *.
  assert (Hsh : 0 <= sh) by apply ulp_shift_nonneg.
  assert (Hp : 0 < 2 ^ sh) by (apply Z.pow_pos_nonneg; lia).
  rewrite Z.shiftr_div_pow2 by lia. rewrite !Z.shiftl_mul_pow2 by lia.
  assert (Ha' : a / 2 ^ sh * 2 ^ sh = a).
  { pose proof (Z.div_mod a (2 ^ sh)). lia. }
  rewrite Ha'. rewrite Z.sub_diag.
  rewrite midpoint_cmp_exact by lia. exact Ha'.
Qed.

(** What has at most 53 significant bits has nothing below its last place. *)
Lemma ulp_shift_divides c t :
  0 <= c < 2 ^ 53 -> 0 <= t ->
  (c * 2 ^ t) mod 2 ^ ulp_shift (c * 2 ^ t) = 0.
Proof.
  intros Hc Ht.
  destruct (Z.eq_dec c 0) as [->|Hc0].
  { rewrite Z.mul_0_l. apply Z.mod_0_l.
    apply Z.pow_nonzero; [lia|apply ulp_shift_nonneg]. }
  unfold ulp_shift. rewrite Z.log2_mul_pow2 by lia.
  assert (Hl : Z.log2 c < 53) by (apply Z.log2_lt_pow2; lia).
  pose proof (Z.log2_nonneg c).
  destruct (Z.max_spec 0 (t + Z.log2 c + 1 - 53)) as [[Hlt ->]|[Hle ->]].
  - replace t with ((53 - Z.log2 c - 1) + (t + Z.log2 c + 1 - 53)) at 1 by lia.
    rewrite Z.pow_add_r by lia. rewrite Z.mul_assoc. apply Z.mod_mul.
    apply Z.pow_nonzero; lia.
  - simpl. apply Z.mod_1_r.
Qed.

(** Rounding keeps what a double can hold: [c * 2^t] with at most 53
    significant bits, below the overflow threshold. *)
Lemma round_units_repr c t d :
  Z.abs c < 2 ^ 53 -> 0 <= t -> Z.abs c * 2 ^ t < OVF -> 0 < d ->
  round_units (c * 2 ^ t * d) d = Fin (c * 2 ^ t).
Proof.
  intros Hc Ht Hovf Hd. unfold round_units.
  assert (Hp : 0 < 2 ^ t) by (apply Z.pow_pos_nonneg; lia).
  replace (Z.abs (c * 2 ^ t * d)) with (Z.abs c * 2 ^ t * d)
    by (rewrite !Z.abs_mul; lia).
  rewrite round_pos_exact.
  - destruct (Z.leb_spec OVF (Z.abs c * 2 ^ t)); [lia|].
    f_equal. rewrite !Z.sgn_mul. rewrite (Z.sgn_pos (2 ^ t)), (Z.sgn_pos d) by lia.
    rewrite !Z.mul_1_r. rewrite Z.mul_assoc.
    replace (Z.sgn c * Z.abs c) with c by (destruct c; simpl; lia). reflexivity.
  - lia.
  - exact Hd.
  - apply ulp_shift_divides; lia.
Qed.

(** The integers up to [2^53] in magnitude are doubles. *)
Lemma round_units_int n d :
  Z.abs n <= 2 ^ 53 -> 0 < d -> round_units (n * U * d) d = Fin (n * U).
Proof.
  intros Hn Hd.
  destruct (Z.eq_dec (Z.abs n) (2 ^ 53)) as [E|E].
  - assert (Hn' : n = Z.sgn n * 2 ^ 53) by (destruct n; simpl in *; lia).
    rewrite Hn'. unfold U.
    replace (Z.sgn n * 2 ^ 53 * 2 ^ 1074) with (Z.sgn n * 2 ^ 1127)
      by (rewrite <- Z.mul_assoc, <- Z.pow_add_r by lia; reflexivity).
    apply round_units_repr; try lia.
    unfold OVF. assert (2 ^ 1127 < 2 ^ 2098) by (apply Z.pow_lt_mono_r; lia).
    lia.
  - unfold U. apply round_units_repr; try lia.
    unfold OVF. replace 2098 with (1024 + 1074) by lia.
    rewrite (Z.pow_add_r 2 1024 1074) by lia.
    apply Z.mul_lt_mono_pos_r; [apply Z.pow_pos_nonneg; lia|].
    assert (2 ^ 53 < 2 ^ 1024) by (apply Z.pow_lt_mono_r; lia). lia.
Qed.

Lemma of_Z_exact n : Z.abs n <= 2 ^ 53 -> of_Z n = Fin (n * U).
Proof.
  intros Hn. unfold of_Z, of_ratio.
  rewrite <- (Z.mul_1_r (n * U)) at 1. apply round_units_int; lia.
Qed.

Lemma add_exact a b :
  Z.abs (a + b) <= 2 ^ 53 -> add (Fin (a * U)) (Fin (b * U)) = Fin ((a + b) * U).
Proof.
  intros H. unfold add. rewrite <- Z.mul_add_distr_r.
  rewrite <- (Z.mul_1_r ((a + b) * U)) at 1. apply round_units_int; lia.
Qed.

Lemma sub_exact a b :
  Z.abs (a - b) <= 2 ^ 53 -> sub (Fin (a * U)) (Fin (b * U)) = Fin ((a - b) * U).
Proof.
  intros H. unfold sub, neg. rewrite <- Z.mul_opp_l.
  rewrite add_exact by (replace (a + - b) with (a - b) by lia; exact H).
  reflexivity.
Qed.

Lemma mul_one_exact a :
  Z.abs a <= 2 ^ 53 -> mul (Fin (a * U)) (Fin (1 * U)) = Fin (a * U).
Proof.
  intros H. unfold mul. rewrite Z.mul_1_l. apply round_units_int; [exact H|apply U_pos].
Qed.

Lemma div_one_exact a :
  Z.abs a <= 2 ^ 53 -> div (Fin (a * U)) (Fin (1 * U)) = Fin (a * U).
Proof.
  intros H. unfold div. rewrite Z.mul_1_l. pose proof U_pos as HU.
  destruct (Z.eqb_spec U 0); [lia|].
  rewrite Z.sgn_pos, Z.abs_eq, Z.mul_1_l by lia.
  apply round_units_int; [exact H|exact HU].
Qed.

Lemma round_int a : round (Fin (a * U)) = Fin (a * U).
Proof.
  unfold round. f_equal. f_equal. pose proof U_pos.
  replace (2 * (a * U) + U) with (U + a * (2 * U)) by lia.
  rewrite Z.div_add by lia. rewrite Z.div_small by lia. lia.
Qed.

Lemma ltb_int a b : ltb (Fin (a * U)) (Fin (b * U)) = (a <? b).
Proof.
  simpl. pose proof U_pos.
  destruct (Z.ltb_spec (a * U) (b * U)), (Z.ltb_spec a b); try reflexivity; nia.
Qed.

Lemma eqb_int a b : eqb (Fin (a * U)) (Fin (b * U)) = (a =? b).
Proof.
  simpl. pose proof U_pos.
  destruct (Z.eqb_spec (a * U) (b * U)), (Z.eqb_spec a b); try reflexivity; nia.
Qed.

Lemma number_eqb_eq x y : eqb x y = true -> x = y.
Proof.
  destruct x as [|s|a], y as [|t|b]; simpl; try discriminate.
  - destruct s, t; simpl; try discriminate; reflexivity.
  - intros H. apply Z.eqb_eq in H. now subst.
Qed.

Lemma round_units_zero d : 0 < d -> round_units 0 d = Fin 0.
Proof.
  intros Hd.
  refine (round_units_repr 0 0 d _ _ _ Hd); [reflexivity|lia|reflexivity].
Qed.

End NumberFacts.

(** *** Rounding decimals *)

Section Rounding.


(** [midpoint_cmp] compares the remainder with half the spacing. *)
Lemma midpoint_cmp_spec sh ra r0 d :
  0 <= sh -> 0 <= ra < 2 ^ sh -> 0 <= r0 < d ->
  midpoint_cmp sh ra r0 d = (2 * (ra * d + r0) ?= d * 2 ^ sh).
Proof.
  intros Hsh Hra Hr0. unfold midpoint_cmp.
  destruct (Z.eqb_spec sh 0) as [->|Hne].
  - change (2 ^ 0) with 1 in *. replace ra with 0 by lia.
    f_equal; lia.
  - rewrite Z.shiftl_mul_pow2 by lia. rewrite Z.mul_1_l.
    assert (Hp : 2 ^ sh = 2 * 2 ^ (sh - 1)).
    { replace sh with (Z.succ (sh - 1)) at 1 by lia. apply Z.pow_succ_r. lia. }
    set (h := 2 ^ (sh - 1)) in *.
    symmetry.
    destruct (Z.compare_spec ra h) as [E|L|G].
    + subst ra. destruct (Z.eqb_spec r0 0) as [->|Hr].
      * apply Z.compare_eq_iff. lia.
      * apply Z.compare_gt_iff. nia.
    + apply Z.compare_lt_iff. nia.
    + apply Z.compare_gt_iff. nia.
Qed.

(** Rounding errs by at most half the spacing of the doubles around the
    result. *)
Lemma round_pos_error n d :
  0 <= n -> 0 < d ->
  2 * Z.abs (round_pos n d * d - n) <= d * 2 ^ ulp_shift (n / d).
Proof.
  intros Hn Hd. unfold round_pos.
  set (a := n / d). set (r0 := n mod d). set (sh := ulp_shift a).
  assert (Hsh : 0 <= sh) by apply ulp_shift_nonneg.
  assert (Hp : 0 < 2 ^ sh) by (apply Z.pow_pos_nonneg; lia).
  assert (Ha : 0 <= a) by (apply Z.div_pos; lia).
  assert (Hr0 : 0 <= r0 < d) by (apply Z.mod_pos_bound; lia).
  assert (Hnd : n = a * d + r0).
  { subst a r0. pose proof (Z.div_mod n d). lia. }
  rewrite Z.shiftr_div_pow2, !Z.shiftl_mul_pow2 by lia.
  set (q := a / 2 ^ sh).
  assert (Hra : 0 <= a - q * 2 ^ sh < 2 ^ sh).
  { subst q. pose proof (Z.div_mod a (2 ^ sh)).
    pose proof (Z.mod_pos_bound a (2 ^ sh) Hp). lia. }
  set (ra := a - q * 2 ^ sh) in *.
  rewrite midpoint_cmp_spec by assumption.
  assert (Hn' : n = q * (d * 2 ^ sh) + (ra * d + r0)) by (subst ra; lia).
  set (R := ra * d + r0) in *. set (D := d * 2 ^ sh) in *.
  destruct (Z.compare_spec (2 * R) D) as [E|L|G].
  - destruct (Z.even q); nia.
  - nia.
  - assert (R < D) by (subst R D; nia). nia.
Qed.

Lemma ulp_shift_small a : 0 <= a -> 2 ^ ulp_shift a * 2 ^ 52 <= Z.max a (2 ^ 52).
Proof.
  intros Ha. unfold ulp_shift.
  destruct (Z.max_spec 0 (Z.log2 a + 1 - 53)) as [[Hlt ->]|[Hle ->]].
  - assert (0 < a) by (destruct (Z.eq_dec a 0) as [->|]; [simpl in Hlt; lia|lia]).
    rewrite <- Z.pow_add_r by lia.
    replace (Z.log2 a + 1 - 53 + 52) with (Z.log2 a) by lia.
    pose proof (Z.log2_spec a ltac:(lia)). lia.
  - change (2 ^ 0) with 1. lia.
Qed.

(** In the normal range the error is at most [2^-53] of the value. *)
Lemma round_pos_relative n d :
  0 < d -> 2 ^ 52 * d <= n ->
  2 ^ 53 * Z.abs (round_pos n d * d - n) <= n.
Proof.
  intros Hd Hn.
  assert (Hn0 : 0 <= n) by nia.
  pose proof (round_pos_error n d Hn0 Hd) as He.
  assert (Ha : 2 ^ 52 <= n / d) by (apply Z.div_le_lower_bound; lia).
  pose proof (ulp_shift_small (n / d) ltac:(lia)) as Hu.
  rewrite Z.max_l in Hu by lia.
  assert (Hm : n / d * d <= n).
  { pose proof (Z.div_mod n d). pose proof (Z.mod_pos_bound n d Hd). lia. }
  set (E := Z.abs (round_pos n d * d - n)) in *.
  set (W := 2 ^ ulp_shift (n / d)) in *.
  assert (d * W * 2 ^ 52 <= n) by nia.
  change (2 ^ 53) with (2 * 2 ^ 52). nia.
Qed.

(** The same value, written with a common factor, rounds the same. *)
Lemma round_pos_scale n d c :
  0 <= n -> 0 < d -> 0 < c -> round_pos (n * c) (d * c) = round_pos n d.
Proof.
  intros Hn Hd Hc. unfold round_pos.
  rewrite Z.div_mul_cancel_r by lia.
  rewrite Zmult_mod_distr_r.
  set (a := n / d). set (sh := ulp_shift a).
  set (q := Z.shiftr a sh). set (ra := a - Z.shiftl q sh).
  replace (midpoint_cmp sh ra (n mod d * c) (d * c))
    with (midpoint_cmp sh ra (n mod d) d); [reflexivity|].
  unfold midpoint_cmp.
  destruct (sh =? 0).
  - rewrite (Zmult_compare_compat_r _ _ c) by lia. f_equal; lia.
  - destruct (ra ?= _); try reflexivity.
    destruct (Z.eqb_spec (n mod d) 0) as [->|Hne]; [reflexivity|].
    destruct (Z.eqb_spec (n mod d * c) 0); [nia|reflexivity].
Qed.

Lemma round_units_scale n d c :
  0 < d -> 0 < c -> round_units (n * c) (d * c) = round_units n d.
Proof.
  intros Hd Hc. unfold round_units.
  replace (Z.abs (n * c)) with (Z.abs n * c) by (rewrite Z.abs_mul; lia).
  rewrite round_pos_scale by lia.
  replace (n * c <? 0) with (n <? 0)
    by (destruct (Z.ltb_spec n 0), (Z.ltb_spec (n * c) 0); try reflexivity; nia).
  replace (Z.sgn (n * c)) with (Z.sgn n)
    by (rewrite Z.sgn_mul, (Z.sgn_pos c) by lia; lia).
  reflexivity.
Qed.

(** In the normal range and away from overflow, rounding gives a finite
    double within [2^-53] of the value, of the same sign. *)
Lemma round_units_near n d :
  0 < d -> 2 ^ 52 * d <= Z.abs n -> Z.abs n <= 2 ^ 2000 * d ->
  exists k, round_units n d = Fin k
            /\ 2 ^ 53 * Z.abs (k * d - n) <= Z.abs n
            /\ Z.sgn k = Z.sgn n.
Proof.
  intros Hd Hlo Hhi. unfold round_units.
  pose proof (round_pos_relative (Z.abs n) d Hd Hlo) as Hr.
  set (m := round_pos (Z.abs n) d) in *.
  set (E := Z.abs (m * d - Z.abs n)) in *.
  assert (HE : 0 <= E) by apply Z.abs_nonneg.
  assert (Hn : 0 < Z.abs n) by nia.
  assert (H53 : 0 < 2 ^ 53) by reflexivity.
  assert (Hmd : Z.abs n - E <= m * d <= Z.abs n + E) by (subst E; lia).
  assert (HEn : 2 * E <= Z.abs n).
  { change (2 ^ 53) with (2 * 2 ^ 52) in Hr. nia. }
  assert (Hm0 : 0 < m) by nia.
  assert (Hm : m < OVF).
  { assert (m * d <= 2 ^ 2001 * d).
    { change (2 ^ 2001) with (2 * 2 ^ 2000). lia. }
    assert (m <= 2 ^ 2001) by nia.
    assert (2 ^ 2001 < OVF) by reflexivity. lia. }
  destruct (Z.leb_spec OVF m) as [?|_]; [lia|].
  exists (Z.sgn n * m). split; [reflexivity|]. split.
  - replace (Z.abs (Z.sgn n * m * d - n)) with E; [exact Hr|].
    assert (Hsn : Z.sgn n * Z.abs n = n) by lia.
    assert (Hs1 : Z.abs (Z.sgn n) = 1) by lia.
    replace (Z.sgn n * m * d - n) with (Z.sgn n * (m * d - Z.abs n))
      by (rewrite Z.mul_sub_distr_l, Hsn; ring).
    rewrite Z.abs_mul, Hs1. subst E. lia.
  - rewrite Z.sgn_mul, (Z.sgn_pos m) by lia. destruct n; reflexivity.
Qed.

(** A decimal [N / T] of moderate size, as a double. *)
Lemma of_ratio_near N T :
  1 <= T <= 2 ^ 1000 -> Z.abs N <= 2 ^ 53 ->
  exists k, of_ratio N T = Fin k
            /\ 2 ^ 53 * Z.abs (k * T - N * U) <= Z.abs N * U
            /\ Z.sgn k = Z.sgn N.
Proof.
  intros HT HN. unfold of_ratio. pose proof U_pos as HU.
  destruct (Z.eq_dec N 0) as [->|Hne].
  - exists 0. rewrite Z.mul_0_l, round_units_zero by lia.
    repeat split; simpl; lia.
  - assert (Habs : Z.abs (N * U) = Z.abs N * U) by (rewrite Z.abs_mul; lia).
    assert (H1 : 2 ^ 52 * 2 ^ 1000 <= U) by (unfold U; vm_compute; discriminate).
    assert (H2 : U <= 2 ^ 1100) by (unfold U; vm_compute; discriminate).
    assert (H3 : 2 ^ 53 * 2 ^ 1100 <= 2 ^ 2000) by (vm_compute; discriminate).
    destruct (round_units_near (N * U) T) as (k & E & Hk & Hs).
    + lia.
    + rewrite Habs. nia.
    + rewrite Habs. nia.
    + exists k. rewrite Habs in Hk. repeat split; try assumption.
      rewrite Hs, Z.sgn_mul, (Z.sgn_pos U) by lia. lia.
Qed.

(** [Math.round] of what lies within half a unit of an integer. *)
Lemma round_near r N : 2 * Z.abs (r - N * U) < U -> round (Fin r) = Fin (N * U).
Proof.
  intros H. unfold round. f_equal. f_equal. pose proof U_pos as HU.
  symmetry. apply (Z.div_unique _ _ _ (2 * r + U - 2 * U * N)); lia.
Qed.

(** On decimals with a common denominator and moderate numerators,
    doubles are ordered as the numerators are. *)
Lemma of_ratio_lt A B T :
  1 <= T <= 2 ^ 1000 -> Z.abs A <= 2 ^ 51 -> Z.abs B <= 2 ^ 51 -> A < B ->
  exists ka kb, of_ratio A T = Fin ka /\ of_ratio B T = Fin kb /\ ka < kb.
Proof.
  intros HT HA HB Hlt. pose proof U_pos as HU.
  assert (H51 : 2 ^ 51 <= 2 ^ 53) by (vm_compute; discriminate).
  destruct (of_ratio_near A T HT ltac:(lia)) as (ka & Ea & Ha & _).
  destruct (of_ratio_near B T HT ltac:(lia)) as (kb & Eb & Hb & _).
  exists ka, kb. split; [exact Ea|]. split; [exact Eb|].
  assert (Hwa : Z.abs A * U <= 2 ^ 51 * U) by (apply Z.mul_le_mono_nonneg_r; lia).
  assert (Hwb : Z.abs B * U <= 2 ^ 51 * U) by (apply Z.mul_le_mono_nonneg_r; lia).
  assert (Hab : (A + 1) * U <= B * U) by (apply Z.mul_le_mono_nonneg_r; lia).
  rewrite Z.mul_add_distr_r, Z.mul_1_l in Hab.
  apply (Z.mul_lt_mono_pos_r T); [lia|].
  clear HT HA HB Hlt Ea Eb H51.
  set (x := ka * T) in *. set (y := kb * T) in *.
  set (a := A * U) in *. set (b := B * U) in *.
  set (wa := Z.abs A * U) in *. set (wb := Z.abs B * U) in *.
  lia.
Qed.

Lemma of_ratio_ltb A B T :
  1 <= T <= 2 ^ 1000 -> Z.abs A <= 2 ^ 51 -> Z.abs B <= 2 ^ 51 ->
  ltb (of_ratio A T) (of_ratio B T) = (A <? B).
Proof.
  intros HT HA HB.
  destruct (Z.ltb_spec A B) as [Hlt|Hge].
  - destruct (of_ratio_lt A B T HT HA HB Hlt) as (ka & kb & -> & -> & H).
    simpl. apply Z.ltb_lt. exact H.
  - destruct (Z.eq_dec A B) as [->|Hne].
    + assert (H53 : 2 ^ 51 <= 2 ^ 53) by (vm_compute; discriminate).
      destruct (of_ratio_near B T HT ltac:(lia)) as (k & -> & _).
      simpl. apply Z.ltb_irrefl.
    + destruct (of_ratio_lt B A T HT HB HA ltac:(lia)) as (kb & ka & -> & -> & H).
      simpl. apply Z.ltb_ge. lia.
Qed.

Lemma of_ratio_eqb A B T :
  1 <= T <= 2 ^ 1000 -> Z.abs A <= 2 ^ 51 -> Z.abs B <= 2 ^ 51 ->
  eqb (of_ratio A T) (of_ratio B T) = (A =? B).
Proof.
  intros HT HA HB.
  destruct (Z.lt_trichotomy A B) as [Hlt|[->|Hgt]].
  - destruct (of_ratio_lt A B T HT HA HB Hlt) as (ka & kb & -> & -> & H).
    simpl. destruct (Z.eqb_spec ka kb), (Z.eqb_spec A B); try reflexivity; lia.
  - assert (H53 : 2 ^ 51 <= 2 ^ 53) by (vm_compute; discriminate).
    destruct (of_ratio_near B T HT ltac:(lia)) as (k & -> & _).
    simpl. now rewrite !Z.eqb_refl.
  - destruct (of_ratio_lt B A T HT HB HA Hgt) as (kb & ka & -> & -> & H).
    simpl. destruct (Z.eqb_spec ka kb), (Z.eqb_spec A B); try reflexivity; lia.
Qed.

Lemma of_ratio_leb A B T :
  1 <= T <= 2 ^ 1000 -> Z.abs A <= 2 ^ 51 -> Z.abs B <= 2 ^ 51 ->
  leb (of_ratio A T) (of_ratio B T) = (A <=? B).
Proof.
  intros HT HA HB. unfold leb.
  rewrite of_ratio_ltb, of_ratio_eqb by assumption.
  destruct (Z.ltb_spec A B), (Z.eqb_spec A B), (Z.leb_spec A B); try reflexivity; lia.
Qed.

(** Doubles tell such decimals apart. *)
Lemma of_ratio_inj A B T :
  1 <= T <= 2 ^ 1000 -> Z.abs A <= 2 ^ 51 -> Z.abs B <= 2 ^ 51 ->
  of_ratio A T = of_ratio B T -> A = B.
Proof.
  intros HT HA HB E.
  pose proof (of_ratio_eqb A B T HT HA HB) as Hq. rewrite <- E in Hq.
  assert (H53 : 2 ^ 51 <= 2 ^ 53) by (vm_compute; discriminate).
  destruct (of_ratio_near A T HT ltac:(lia)) as (k & Ek & _).
  rewrite Ek in Hq. simpl in Hq. rewrite Z.eqb_refl in Hq.
  symmetry in Hq. now apply Z.eqb_eq in Hq.
Qed.

Lemma pow10_range P : 0 <= P <= 22 -> 1 <= 10 ^ P <= 2 ^ 1000.
Proof.
  intros HP. split.
  - pose proof (Z.pow_pos_nonneg 10 P ltac:(lia) ltac:(lia)). lia.
  - transitivity (10 ^ 22); [apply Z.pow_le_mono_r; lia|vm_compute; discriminate].
Qed.

(** The powers of ten up to [10^22] are doubles. *)
Lemma of_Z_pow10 P : 0 <= P <= 22 -> of_Z (10 ^ P) = Fin (10 ^ P * U).
Proof.
  intros HP. unfold of_Z, of_ratio.
  rewrite <- (Z.mul_1_r (10 ^ P * U)) at 1.
  replace (10 ^ P * U) with (5 ^ P * 2 ^ (P + 1074)).
  - apply round_units_repr; try lia.
    + rewrite Z.abs_eq by (apply Z.pow_nonneg; lia).
      apply Z.le_lt_trans with (5 ^ 22); [apply Z.pow_le_mono_r; lia|reflexivity].
    + rewrite Z.abs_eq by (apply Z.pow_nonneg; lia).
      apply Z.le_lt_trans with (5 ^ 22 * 2 ^ (22 + 1074)); [|reflexivity].
      apply Z.mul_le_mono_nonneg; try (apply Z.pow_nonneg; lia);
        apply Z.pow_le_mono_r; lia.
  - unfold U. rewrite Z.pow_add_r by lia.
    replace 10 with (5 * 2) by reflexivity. rewrite Z.pow_mul_l. ring.
Qed.

Lemma pow10_exact P : 0 <= P <= 22 -> pow10 (Fin (P * U)) = Fin (10 ^ P * U).
Proof.
  intros HP. unfold pow10. pose proof U_pos as HU.
  rewrite Z.div_mul by lia.
  destruct (Z.leb_spec 309 P); [lia|]. destruct (Z.ltb_spec P 0); [lia|].
  apply of_Z_pow10. exact HP.
Qed.

(** Scaling a short decimal by its power of ten and rounding gives its
    numerator back. *)
Lemma scale_round N P :
  0 <= P <= 22 -> Z.abs N <= 2 ^ 50 ->
  round (mul (of_ratio N (10 ^ P)) (Fin (10 ^ P * U))) = Fin (N * U).
Proof.
  intros HP HN. pose proof U_pos as HU.
  pose proof (pow10_range P HP) as HT. set (T := 10 ^ P) in *.
  assert (H50 : 2 ^ 50 <= 2 ^ 53) by (vm_compute; discriminate).
  destruct (of_ratio_near N T HT ltac:(lia)) as (k & -> & Hk & Hs).
  unfold mul.
  replace (k * (T * U)) with (k * T * U) by ring.
  rewrite <- (Z.mul_1_l U) at 2. rewrite round_units_scale by lia.
  destruct (Z.eq_dec N 0) as [->|Hne].
  - assert (k = 0) by (destruct k; simpl in Hs; congruence).
    subst k. rewrite Z.mul_0_l, round_units_zero by lia.
    apply round_near. simpl. lia.
  - assert (H1 : 2 ^ 52 * 2 ^ 1000 <= U) by (unfold U; vm_compute; discriminate).
    assert (H2 : U <= 2 ^ 1100) by (unfold U; vm_compute; discriminate).
    assert (H3 : 2 ^ 53 * 2 ^ 1100 <= 2 ^ 2000) by (vm_compute; discriminate).
    assert (Hw : 1 * U <= Z.abs N * U <= 2 ^ 50 * U).
    { split; apply Z.mul_le_mono_nonneg_r; lia. }
    rewrite Z.mul_1_l in Hw.
    assert (Habs : Z.abs (N * U) = Z.abs N * U) by (rewrite Z.abs_mul; lia).
    set (w := Z.abs N * U) in *. set (m := k * T) in *. set (a := N * U) in *.
    destruct (round_units_near m 1) as (k2 & -> & Hk2 & _); try lia.
    apply round_near. rewrite Z.mul_1_r in Hk2. fold a.
    clear H1 H2 H3 HT HP HN H50 Hs Hne. lia.
Qed.

Lemma div_scaled M T :
  0 < T -> div (Fin (M * U)) (Fin (T * U)) = of_ratio M T.
Proof.
  intros HT. unfold div, of_ratio. pose proof U_pos as HU.
  destruct (Z.eqb_spec (T * U) 0) as [?|_]; [nia|].
  rewrite Z.sgn_pos, Z.abs_eq, Z.mul_1_l by nia.
  apply round_units_scale; lia.
Qed.

End Rounding.

(** *** Digits, one by one *)

Lemma digit_cases c :
  is_digit c = true ->
  c = "0"%char \/ c = "1"%char \/ c = "2"%char \/ c = "3"%char \/ c = "4"%char
  \/ c = "5"%char \/ c = "6"%char \/ c = "7"%char \/ c = "8"%char \/ c = "9"%char.
Proof.
  destruct c as [[] [] [] [] [] [] [] []]; intros H; try discriminate H; tauto.
Qed.

Ltac digit_case c H :=
  destruct (digit_cases c H)
    as [->|[->|[->|[->|[->|[->|[->|[->|[->| ->]]]]]]]]].

(** *** Printing and reading integers *)

Section StringFacts.


Lemma digit_char_spec d :
  0 <= d < 10 -> is_digit (digit_char d) = true /\ digit_val (digit_char d) = d.
Proof.
  intros H.
  assert (C : d = 0 \/ d = 1 \/ d = 2 \/ d = 3 \/ d = 4 \/ d = 5 \/ d = 6
              \/ d = 7 \/ d = 8 \/ d = 9) by lia.
  repeat (destruct C as [->|C]; [split; reflexivity|]).
  subst. split; reflexivity.
Qed.

Lemma is_digit_val c : is_digit c = true -> 0 <= digit_val c < 10.
Proof.
  unfold is_digit, digit_val. intros H.
  apply andb_true_iff in H. destruct H as [H1 H2].
  apply Nat.leb_le in H1, H2. lia.
Qed.


Lemma slen_app s t : slen (s ++ t) = slen s + slen t.
Proof.
  unfold slen. induction s as [|c r IH]; cbn [String.append String.length].
  - lia.
  - rewrite !Nat2Z.inj_succ. lia.
Qed.

Lemma sapp_assoc (s t u : string) : (s ++ t) ++ u = s ++ (t ++ u).
Proof. induction s as [|c r IH]; cbn [String.append]; [reflexivity|now rewrite IH]. Qed.

Lemma sapp_nil_r (s : string) : s ++ "" = s.
Proof. induction s as [|c r IH]; cbn [String.append]; [reflexivity|now rewrite IH]. Qed.

Lemma digits_value_spec s : forall a,
  digits_value a s = a * 10 ^ slen s + digits_value 0 s.
Proof.
  unfold slen.
  induction s as [|c r IH]; intros a; cbn [digits_value String.length].
  - rewrite Z.pow_0_r. lia.
  - rewrite IH. rewrite (IH (10 * 0 + digit_val c)).
    rewrite Nat2Z.inj_succ. rewrite Z.pow_succ_r by lia. lia.
Qed.

Lemma digits_value_nonneg s : all_digits s = true -> forall a, 0 <= a -> 0 <= digits_value a s.
Proof.
  induction s as [|c r IH]; cbn [all_digits digits_value]; intros H a Ha; [exact Ha|].
  apply andb_true_iff in H. destruct H as [Hc Hr].
  apply IH; [exact Hr|]. pose proof (is_digit_val c Hc). lia.
Qed.

Lemma all_digits_app s t :
  all_digits (s ++ t) = all_digits s && all_digits t.
Proof.
  induction s as [|c r IH]; simpl; [reflexivity|].
  rewrite IH. now rewrite andb_assoc.
Qed.

Lemma all_digits_zeros n : all_digits (zeros n) = true.
Proof. induction n; simpl; auto. Qed.

(** What [digits_fuel] prepends is a run of digits worth [n], without a
    leading zero. *)
Lemma digits_fuel_spec f : forall n acc,
  1 <= n \/ (n = 0 /\ (0 < f)%nat) -> n < 10 ^ Z.of_nat f ->
  exists ds,
    digits_fuel f n acc = ds ++ acc
    /\ all_digits ds = true
    /\ digits_value 0 ds = n
    /\ (1 <= slen ds)
    /\ (1 <= n -> 10 ^ (slen ds - 1) <= n).
Proof.
  induction f as [|f IH]; intros n acc Hn Hlt.
  - simpl in Hlt. lia.
  - simpl digits_fuel.
    assert (Hn0 : 0 <= n) by lia.
    pose proof (Z.mod_pos_bound n 10 ltac:(lia)) as Hm.
    destruct (digit_char_spec (n mod 10) Hm) as [Hd Hv].
    destruct (Z.ltb_spec n 10) as [Hs|Hs].
    + exists (String (digit_char (n mod 10)) "").
      rewrite Z.mod_small in * by lia.
      repeat split.
      * simpl. now rewrite Hd.
      * simpl. rewrite Hv. lia.
      * unfold slen. simpl. lia.
      * unfold slen. simpl. lia.
    + assert (Hq : 1 <= n / 10) by (apply Z.div_le_lower_bound; lia).
      assert (Hq' : n / 10 < 10 ^ Z.of_nat f).
      { apply Z.div_lt_upper_bound; [lia|].
        rewrite Nat2Z.inj_succ, Z.pow_succ_r in Hlt by lia. exact Hlt. }
      destruct (IH (n / 10) (String (digit_char (n mod 10)) acc) (or_introl Hq) Hq')
        as (ds & E & Ha & Hv' & Hl & Hb).
      exists (ds ++ String (digit_char (n mod 10)) "").
      assert (Hlen : slen (ds ++ String (digit_char (n mod 10)) "") = slen ds + 1).
      { rewrite slen_app. reflexivity. }
      repeat split.
      * rewrite E. rewrite sapp_assoc. reflexivity.
      * rewrite all_digits_app, Ha. simpl. now rewrite Hd.
      * assert (G : forall s a, digits_value a (s ++ String (digit_char (n mod 10)) "")
                                = 10 * digits_value a s + n mod 10).
        { induction s as [|c r IHs]; intros a; cbn [String.append digits_value].
          - rewrite Hv. reflexivity.
          - apply IHs. }
        rewrite G, Hv'. pose proof (Z.div_mod n 10). lia.
      * rewrite Hlen. lia.
      * intros _. rewrite Hlen. replace (slen ds + 1 - 1) with (Z.succ (slen ds - 1)) by lia.
        rewrite Z.pow_succ_r by lia. specialize (Hb Hq).
        pose proof (Z.div_mod n 10). lia.
Qed.

Lemma Z_to_digits_spec n :
  0 <= n ->
  all_digits (Z_to_digits n) = true
  /\ digits_value 0 (Z_to_digits n) = n
  /\ 1 <= slen (Z_to_digits n)
  /\ (1 <= n -> 10 ^ (slen (Z_to_digits n) - 1) <= n).
Proof.
  intros Hn. unfold Z_to_digits.
  destruct (digits_fuel_spec (S (Z.to_nat (Z.log2 n))) n "") as (ds & E & H).
  - lia.
  - rewrite Nat2Z.inj_succ, Z2Nat.id by apply Z.log2_nonneg.
    destruct (Z.eq_dec n 0) as [->|Hn0]; [simpl; lia|].
    pose proof (Z.log2_spec n ltac:(lia)) as [_ Hl].
    eapply Z.lt_le_trans; [exact Hl|].
    apply Z.pow_le_mono_l. lia.
  - rewrite E. rewrite sapp_nil_r. exact H.
Qed.

Lemma span_digits_all s : all_digits s = true -> span_digits s = (s, "").
Proof.
  induction s as [|c r IH]; cbn [all_digits span_digits]; intros H; [reflexivity|].
  apply andb_true_iff in H. destruct H as [Hc Hr].
  rewrite Hc, (IH Hr). reflexivity.
Qed.

(** A run of digits parses as the integer it spells. *)
Lemma parse_unsigned_digits s :
  all_digits s = true -> s <> "" ->
  parse_unsigned_decimal s = Some (of_Z (digits_value 0 s), "").
Proof.
  intros Ha Hne. destruct s as [|c r]; [congruence|].
  unfold parse_unsigned_decimal.
  assert (Hc : is_digit c = true).
  { cbn [all_digits] in Ha. apply andb_true_iff in Ha. tauto. }
  replace (starts_with "Infinity" (String c r)) with false
    by (digit_case c Hc; reflexivity).
  rewrite (span_digits_all _ Ha).
  cbn [parse_exponent String.length]. cbn [digits_value].
  unfold of_decimal.
  destruct (Z.eqb_spec (digits_value (10 * 0 + digit_val c) r) 0) as [E|E].
  - rewrite E. reflexivity.
  - replace (400 <? 0 - Z.of_nat 0) with false by reflexivity.
    set (len := (S (String.length r) + 0)%nat).
    replace (0 - Z.of_nat 0 + Z.of_nat len <? -400) with false
      by (symmetry; apply Z.ltb_ge; lia).
    replace (0 - Z.of_nat 0 <? 0) with false by reflexivity.
    replace (0 - Z.of_nat 0) with 0 by reflexivity.
    rewrite Z.pow_0_r, Z.mul_1_r. reflexivity.
Qed.

Lemma Z_to_digits_head n :
  0 <= n -> exists c r, Z_to_digits n = String c r /\ is_digit c = true.
Proof.
  intros Hn. destruct (Z_to_digits_spec n Hn) as (Ha & _ & Hl & _).
  destruct (Z_to_digits n) as [|c r].
  - unfold slen in Hl. simpl in Hl. lia.
  - exists c, r. split; [reflexivity|].
    cbn [all_digits] in Ha. apply andb_true_iff in Ha. tauto.
Qed.

Lemma parseFloat_digits n :
  0 <= n -> parseFloat (Z_to_digits n) = of_Z n.
Proof.
  intros Hn. destruct (Z_to_digits_spec n Hn) as (Ha & Hv & Hl & _).
  destruct (Z_to_digits_head n Hn) as (c & r & E & Hc).
  unfold parseFloat.
  assert (Hs : skip_spaces (Z_to_digits n) = Z_to_digits n).
  { rewrite E. digit_case c Hc; reflexivity. }
  rewrite Hs.
  assert (Hp : parse_decimal (Z_to_digits n) = parse_unsigned_decimal (Z_to_digits n)).
  { rewrite E. digit_case c Hc; reflexivity. }
  rewrite Hp, parse_unsigned_digits, Hv; [reflexivity|exact Ha|].
  rewrite E. discriminate.
Qed.

(** Reading back the text of an integer a double holds. *)
Lemma parseFloat_Z_to_string n :
  Z.abs n <= 2 ^ 53 -> parseFloat (Z_to_string n) = of_Z n.
Proof.
  intros Hn. unfold Z_to_string.
  destruct (Z.ltb_spec n 0) as [Hneg|Hpos].
  - assert (H0 : 0 <= - n) by lia.
    destruct (Z_to_digits_spec (- n) H0) as (Ha & Hv & Hl & _).
    destruct (Z_to_digits_head (- n) H0) as (c & r & E & Hc).
    unfold parseFloat. cbn [skip_spaces].
    replace (is_space "-") with false by reflexivity.
    cbn [parse_decimal].
    rewrite parse_unsigned_digits, Hv; [|exact Ha|rewrite E; discriminate].
    rewrite !of_Z_exact by lia. cbn [neg]. f_equal. lia.
  - apply parseFloat_digits. exact Hpos.
Qed.

(** Formatting an integer with no fraction digits. *)
Lemma toFixed_int n :
  Z.abs n <= 2 ^ 53 -> toFixed (Fin (n * U)) (Fin 0) = Some (Z_to_string n).
Proof.
  intros Hn. unfold toFixed. pose proof U_pos as HU.
  replace (Z.quot 0 U) with 0 by (symmetry; apply Z.quot_0_l; lia).
  cbn [Z.ltb Z.compare orb Z.eqb].
  replace (Z.abs (n * U)) with (Z.abs n * U) by (rewrite Z.abs_mul; lia).
  assert (Hlt : Z.abs n * U < 10 ^ 21 * U).
  { apply Z.mul_lt_mono_pos_r; [exact HU|].
    eapply Z.le_lt_trans; [exact Hn|]. reflexivity. }
  destruct (Z.leb_spec (10 ^ 21 * U) (Z.abs n * U)) as [?|_]; [lia|].
  rewrite Z.pow_0_r, Z.mul_1_r.
  replace (2 * (Z.abs n * U) + U) with (U + Z.abs n * (2 * U)) by lia.
  rewrite Z.div_add, Z.div_small, Z.add_0_l by lia.
  unfold Z_to_string.
  destruct (Z.ltb_spec (n * U) 0), (Z.ltb_spec n 0); try nia.
  - replace (Z.abs n) with (- n) by lia. reflexivity.
  - replace (Z.abs n) with n by lia. reflexivity.
Qed.

(** *** The text of an integer has no decimal places *)

Lemma shortest_from_hit fuel : forall k e0 e',
  e0 - Z.of_nat fuel < e' <= e0 -> shortest_at k e' <> None ->
  exists s e, shortest_from fuel k e0 = Some (s, e)
              /\ e' <= e <= e0 /\ shortest_at k e = Some s.
Proof.
  induction fuel as [|f IH]; intros k e0 e' Hr Hhit.
  - simpl in Hr. lia.
  - cbn [shortest_from].
    destruct (shortest_at k e0) as [s|] eqn:E.
    + exists s, e0. repeat split; try lia. exact E.
    + assert (e' <> e0) by (intros ->; congruence).
      destruct (IH k (e0 - 1) e') as (s & e & H1 & H2 & H3); [lia|exact Hhit|].
      exists s, e. repeat split; try lia; assumption.
Qed.

Lemma reads_back_zero k e : 0 < k -> reads_back k 0 e = false.
Proof.
  intros Hk. unfold reads_back, of_ratio.
  rewrite !Z.mul_0_l.
  destruct (Z.ltb_spec e 0); rewrite round_units_zero;
    try (apply Z.eqb_neq; lia); try lia; apply Z.pow_pos_nonneg; lia.
Qed.

Lemma shortest_at_int n : Z.abs n <= 2 ^ 53 -> 1 <= n -> shortest_at (n * U) 0 <> None.
Proof.
  intros Hn H1. unfold shortest_at. pose proof U_pos as HU.
  replace (0 <? 0) with false by reflexivity. cbv iota.
  rewrite Z.pow_0_r, Z.mul_1_r.
  rewrite Z.div_mul, Z.mod_mul by lia. cbn [Z.eqb].
  assert (R : reads_back (n * U) n 0 = true).
  { unfold reads_back. replace (0 <? 0) with false by reflexivity. cbv iota.
    rewrite Z.pow_0_r, Z.mul_1_r. fold (of_Z n). rewrite of_Z_exact by exact Hn.
    apply Z.eqb_refl. }
  rewrite R.
  destruct (_ <? _); [discriminate|].
  destruct (Z.even n); discriminate.
Qed.

Lemma shortest_at_bound k e s :
  0 < k -> 0 <= e -> shortest_at k e = Some s ->
  1 <= s /\ s * (U * 10 ^ e) <= k + U * 10 ^ e.
Proof.
  intros Hk He. unfold shortest_at. pose proof U_pos as HU.
  destruct (Z.ltb_spec e 0) as [?|_]; [lia|].
  assert (Hd : 0 < U * 10 ^ e).
  { apply Z.mul_pos_pos; [exact HU|apply Z.pow_pos_nonneg; lia]. }
  set (den := U * 10 ^ e) in *.
  set (lo := k / den).
  assert (Hlo : 0 <= lo) by (apply Z.div_pos; lia).
  assert (Hlo' : lo * den <= k).
  { pose proof (Z.div_mod k den). pose proof (Z.mod_pos_bound k den Hd).
    subst lo. lia. }
  set (hi := if k mod den =? 0 then lo else lo + 1).
  assert (Hhi : lo <= hi <= lo + 1) by (subst hi; destruct (_ =? _); lia).
  assert (G : forall t, lo <= t <= lo + 1 -> reads_back k t e = true ->
                        1 <= t /\ t * den <= k + den).
  { intros t Ht Hrb. split; [|nia].
    destruct (Z.eq_dec t 0) as [->|]; [|lia].
    rewrite reads_back_zero in Hrb by exact Hk. discriminate. }
  destruct (reads_back k lo e) eqn:Rlo, (reads_back k hi e) eqn:Rhi; intros E.
  - destruct (_ <? _); [|destruct (_ <? _); [|destruct (Z.even lo)]];
      inversion E; subst s; apply G; auto; lia.
  - inversion E; subst s; apply G; auto; lia.
  - inversion E; subst s; apply G; auto; lia.
  - discriminate.
Qed.

Lemma first_exponent_int n :
  1 <= n <= 2 ^ 53 -> 1 <= first_exponent (n * U) <= 17.
Proof.
  intros Hn. unfold first_exponent, U.
  rewrite Z.log2_mul_pow2 by lia.
  assert (Hl : 0 <= Z.log2 n <= 53).
  { split; [apply Z.log2_nonneg|].
    replace 53 with (Z.log2 (2 ^ 53)) by reflexivity. apply Z.log2_le_mono. lia. }
  set (l := 1074 + Z.log2 n - 1074 + 1).
  assert (1 <= l <= 54) by (subst l; lia).
  destruct (Z.ltb_spec l 0); [lia|].
  assert (0 <= l * 30103 / 100000) by (apply Z.div_pos; lia).
  assert (l * 30103 / 100000 < 17).
  { apply Z.div_lt_upper_bound; lia. }
  lia.
Qed.

(** The text of a positive integer that a double holds is a run of
    digits. *)
Lemma to_string_int_pos n :
  1 <= n <= 2 ^ 53 ->
  exists ds, to_string (Fin (n * U)) = ds /\ all_digits ds = true.
Proof.
  intros Hn. pose proof U_pos as HU.
  assert (Hk : 0 < n * U) by nia.
  unfold to_string.
  destruct (Z.eqb_spec (n * U) 0) as [?|_]; [lia|].
  destruct (Z.ltb_spec (n * U) 0) as [?|_]; [lia|].
  rewrite Z.abs_eq by lia. unfold shortest.
  pose proof (first_exponent_int n Hn) as Hf.
  destruct (shortest_from_hit 40 (n * U) (first_exponent (n * U)) 0)
    as (s & e & -> & He & Hat).
  { simpl Z.of_nat. lia. }
  { apply shortest_at_int; lia. }
  destruct (shortest_at_bound _ _ _ Hk (proj1 He) Hat) as [Hs Hb].
  unfold format_shortest.
  destruct (Z_to_digits_spec s ltac:(lia)) as (Ha & _ & Hl & Hp).
  specialize (Hp Hs). fold (slen (Z_to_digits s)).
  set (kk := slen (Z_to_digits s)) in *.
  assert (Hpe : 0 < 10 ^ e) by (apply Z.pow_pos_nonneg; lia).
  assert (Hsb : s * 10 ^ e <= n + 10 ^ e) by nia.
  assert (H17 : 10 ^ e <= 10 ^ 17) by (apply Z.pow_le_mono_r; lia).
  assert (Hlt : 10 ^ (kk - 1 + e) < 10 ^ 19).
  { rewrite Z.pow_add_r by lia.
    assert (10 ^ (kk - 1) * 10 ^ e <= s * 10 ^ e) by nia.
    assert (2 ^ 53 + 10 ^ 17 < 10 ^ 19) by reflexivity. lia. }
  apply Z.pow_lt_mono_r_iff in Hlt; [|lia|lia].
  destruct (Z.leb_spec kk (kk + e)); [|lia].
  destruct (Z.leb_spec (kk + e) 21); [|lia].
  cbn [andb]. eexists. split; [reflexivity|].
  rewrite all_digits_app, Ha, all_digits_zeros. reflexivity.
Qed.

Lemma decimalMatch_digits s : all_digits s = true -> decimalMatch s = (None, None).
Proof.
  induction s as [|c r IH]; intros H; [reflexivity|].
  cbn [all_digits] in H. apply andb_true_iff in H. destruct H as [Hc Hr].
  cbn [decimalMatch].
  replace (decimalMatchHere (String c r)) with (@None (option string * option string))
    by (digit_case c Hc; reflexivity).
  apply IH. exact Hr.
Qed.

Lemma getDecimalPlaces_plain v :
  decimalMatch (String_of_value v) = (None, None) -> getDecimalPlaces v = Fin 0.
Proof.
  intros H. unfold getDecimalPlaces. rewrite H. vm_compute. reflexivity.
Qed.

(** [getDecimalPlaces] of an integer that a double holds is [0]. *)
Lemma getDecimalPlaces_int n :
  Z.abs n <= 2 ^ 53 -> getDecimalPlaces (VNumber (Fin (n * U))) = Fin 0.
Proof.
  intros Hn. apply getDecimalPlaces_plain. cbn [String_of_value].
  pose proof U_pos as HU.
  destruct (Z.lt_trichotomy n 0) as [Hneg|[->|Hpos]].
  - destruct (to_string_int_pos (- n) ltac:(lia)) as (ds & E & Ha).
    assert (Hs : to_string (Fin (n * U)) = "-" ++ ds).
    { rewrite <- E. unfold to_string.
      destruct (Z.eqb_spec (n * U) 0) as [?|_]; [nia|].
      destruct (Z.eqb_spec (- n * U) 0) as [?|_]; [nia|].
      destruct (Z.ltb_spec (n * U) 0) as [_|?]; [|nia].
      destruct (Z.ltb_spec (- n * U) 0) as [?|_]; [nia|].
      replace (Z.abs (n * U)) with (Z.abs (- n * U)); [reflexivity|].
      rewrite !Z.abs_mul, Z.abs_opp. reflexivity. }
    rewrite Hs. cbn [String.append decimalMatch].
    replace (decimalMatchHere (String "-" ds)) with (@None (option string * option string))
      by reflexivity.
    now apply decimalMatch_digits.
  - reflexivity.
  - destruct (to_string_int_pos n ltac:(lia)) as (ds & E & Ha).
    rewrite E. now apply decimalMatch_digits.
Qed.

End StringFacts.

(** *** The shortest digits of a double *)

Section ShortestFacts.

(** Whatever rounds to a finite double in the normal range lies within
    [2^-53] of it. *)
Lemma round_units_fin_near n d k :
  0 < d -> 2 ^ 52 * d <= Z.abs n -> round_units n d = Fin k ->
  2 ^ 53 * Z.abs (k * d - n) <= Z.abs n /\ Z.sgn k = Z.sgn n.
Proof.
  intros Hd Hlo. unfold round_units.
  pose proof (round_pos_relative (Z.abs n) d Hd Hlo) as Hr.
  set (m := round_pos (Z.abs n) d) in *.
  destruct (OVF <=? m); [discriminate|]. intros E. inversion E; subst k; clear E.
  assert (Hn : 0 < Z.abs n) by nia.
  assert (Hsn : Z.sgn n * Z.abs n = n) by lia.
  assert (Hs1 : Z.abs (Z.sgn n) = 1) by lia.
  assert (Hm0 : 0 < m).
  { change (2 ^ 53) with (2 * 2 ^ 52) in Hr.
    assert (2 * Z.abs (m * d - Z.abs n) <= Z.abs n) by nia. nia. }
  split.
  - replace (Z.sgn n * m * d - n) with (Z.sgn n * (m * d - Z.abs n))
      by (rewrite Z.mul_sub_distr_l, Hsn; ring).
    rewrite Z.abs_mul, Hs1. lia.
  - rewrite Z.sgn_mul, (Z.sgn_pos m) by lia. lia.
Qed.

(** A fraction names the same double however it is written. *)
Lemma of_ratio_scale n d c : 0 < d -> 0 < c -> of_ratio (n * c) (d * c) = of_ratio n d.
Proof.
  intros Hd Hc. unfold of_ratio.
  replace (n * c * U) with (n * U * c) by ring.
  now apply round_units_scale.
Qed.

(** Rounding is symmetric about zero. *)
Lemma of_ratio_neg n d : 0 < d -> of_ratio (- n) d = neg (of_ratio n d).
Proof.
  intros Hd. unfold of_ratio. pose proof U_pos as HU.
  destruct (Z.eq_dec n 0) as [->|Hne].
  { change (- 0) with 0. rewrite Z.mul_0_l, round_units_zero by lia. reflexivity. }
  unfold round_units. rewrite Z.mul_opp_l, Z.abs_opp.
  destruct (OVF <=? _).
  - cbn [neg]. f_equal.
    destruct (Z.ltb_spec (- (n * U)) 0), (Z.ltb_spec (n * U) 0); try reflexivity; nia.
  - cbn [neg]. f_equal. rewrite Z.sgn_opp. ring.
Qed.

(** What [shortest_at] returns reads back, and is positive. *)
Lemma shortest_at_reads k e s :
  0 < k -> shortest_at k e = Some s -> reads_back k s e = true /\ 1 <= s.
Proof.
  intros Hk. unfold shortest_at. pose proof U_pos as HU.
  set (num := if e <? 0 then k * 10 ^ (- e) else k).
  set (den := if e <? 0 then U else U * 10 ^ e).
  assert (Hden : 0 < den).
  { subst den. destruct (Z.ltb_spec e 0); [lia|].
    apply Z.mul_pos_pos; [lia|apply Z.pow_pos_nonneg; lia]. }
  assert (Hnum : 0 <= num).
  { subst num. destruct (Z.ltb_spec e 0); [|lia].
    apply Z.mul_nonneg_nonneg; [lia|apply Z.pow_nonneg; lia]. }
  set (lo := num / den).
  assert (Hlo : 0 <= lo) by (apply Z.div_pos; lia).
  set (hi := if num mod den =? 0 then lo else lo + 1).
  assert (Hhi : 0 <= hi) by (subst hi; destruct (_ =? _); lia).
  assert (G : forall t, 0 <= t -> reads_back k t e = true -> reads_back k t e = true /\ 1 <= t).
  { intros t Ht Hrb. split; [exact Hrb|].
    destruct (Z.eq_dec t 0) as [->|]; [|lia].
    rewrite reads_back_zero in Hrb by exact Hk. discriminate. }
  destruct (reads_back k lo e) eqn:Rlo, (reads_back k hi e) eqn:Rhi; intros E.
  - destruct (_ <? _) in E; [|destruct (_ <? _) in E; [|destruct (Z.even lo) in E]];
      injection E as <-; auto.
  - injection E as <-; auto.
  - injection E as <-; auto.
  - discriminate.
Qed.

(** A significand that reads back and lies within half a unit of the
    exact quotient is found. *)
Lemma shortest_at_hit k e s :
  0 < k ->
  reads_back k s e = true ->
  (let num := if e <? 0 then k * 10 ^ (- e) else k in
   let den := if e <? 0 then U else U * 10 ^ e in
   2 * Z.abs (num - s * den) < den) ->
  shortest_at k e <> None.
Proof.
  intros Hk Hrb Hnear. cbv zeta in Hnear. unfold shortest_at. pose proof U_pos as HU.
  set (num := if e <? 0 then k * 10 ^ (- e) else k) in *.
  set (den := if e <? 0 then U else U * 10 ^ e) in *.
  assert (Hden : 0 < den).
  { subst den. destruct (Z.ltb_spec e 0); [lia|].
    apply Z.mul_pos_pos; [lia|apply Z.pow_pos_nonneg; lia]. }
  set (lo := num / den).
  pose proof (Z.div_mod num den ltac:(lia)) as Hdm.
  pose proof (Z.mod_pos_bound num den Hden) as Hmb.
  fold lo in Hdm.
  assert (Hs : s = lo \/ (s = lo + 1 /\ num mod den <> 0)).
  { assert (lo <= s <= lo + 1) by nia.
    destruct (Z.eq_dec s lo); [now left|right].
    split; [lia|]. intros Hz. rewrite Hz in Hdm. nia. }
  destruct Hs as [Hs|[Hs Hmod]]; rewrite Hs in Hrb.
  - rewrite Hrb.
    repeat match goal with
           | |- context [if ?b then _ else _] => destruct b
           end; discriminate.
  - destruct (Z.eqb_spec (num mod den) 0) as [?|_]; [contradiction|].
    rewrite Hrb.
    repeat match goal with
           | |- context [if ?b then _ else _] => destruct b
           end; discriminate.
Qed.

(** The exponent at which the search starts grows with the double. *)
Lemma first_exponent_mono k1 k2 :
  0 < k1 <= k2 -> first_exponent k1 <= first_exponent k2.
Proof.
  intros H. unfold first_exponent.
  pose proof (Z.log2_le_mono k1 k2 ltac:(lia)) as Hl.
  set (l1 := Z.log2 k1 - 1074 + 1). set (l2 := Z.log2 k2 - 1074 + 1).
  assert (Hle : l1 <= l2) by (subst l1 l2; lia).
  apply Z.add_le_mono_r. apply Z.div_le_mono; [lia|].
  destruct (Z.ltb_spec l1 0), (Z.ltb_spec l2 0); lia.
Qed.

End ShortestFacts.

(** *** [toFixed] read back *)

Section FixedFacts.

Lemma take_drop n : forall s, take n s ++ drop n s = s.
Proof.
  induction n as [|n IH]; intros [|c r]; cbn [take drop String.append]; try reflexivity.
  now rewrite IH.
Qed.

Lemma slen_drop n : forall s, (n <= String.length s)%nat ->
  slen (drop n s) = slen s - Z.of_nat n.
Proof.
  unfold slen.
  induction n as [|n IH]; intros [|c r] H; cbn [drop String.length] in *; try lia.
  rewrite IH by lia. lia.
Qed.

Lemma slen_take n : forall s, (n <= String.length s)%nat -> slen (take n s) = Z.of_nat n.
Proof.
  unfold slen.
  induction n as [|n IH]; intros [|c r] H; cbn [take String.length] in *; try lia.
  rewrite Nat2Z.inj_succ, IH by lia. lia.
Qed.

Lemma all_digits_take n : forall s, all_digits s = true -> all_digits (take n s) = true.
Proof.
  induction n as [|n IH]; intros [|c r] H; cbn [take all_digits] in *; try reflexivity.
  apply andb_true_iff in H. destruct H as [Hc Hr]. now rewrite Hc, IH.
Qed.

Lemma all_digits_drop n : forall s, all_digits s = true -> all_digits (drop n s) = true.
Proof.
  induction n as [|n IH]; intros [|c r] H; cbn [drop all_digits] in *; try assumption.
  apply andb_true_iff in H. destruct H as [Hc Hr]. now apply IH.
Qed.

Lemma slen_zeros n : slen (zeros n) = Z.of_nat n.
Proof.
  unfold slen. induction n as [|n IH]; cbn [zeros String.length]; [reflexivity|].
  rewrite !Nat2Z.inj_succ. lia.
Qed.

Lemma slen_nonneg s : 0 <= slen s.
Proof. unfold slen. lia. Qed.

Lemma digits_value_app s : forall t a,
  digits_value a (s ++ t) = digits_value (digits_value a s) t.
Proof.
  induction s as [|c r IH]; intros t a; cbn [String.append digits_value]; [reflexivity|].
  apply IH.
Qed.

Lemma digits_value_zeros n : digits_value 0 (zeros n) = 0.
Proof.
  induction n as [|n IH]; cbn [zeros digits_value]; [reflexivity|].
  exact IH.
Qed.

Lemma span_digits_dot ip t :
  all_digits ip = true -> span_digits (ip ++ String "." t) = (ip, String "." t).
Proof.
  induction ip as [|c r IH]; cbn [String.append all_digits span_digits]; intros H.
  - reflexivity.
  - apply andb_true_iff in H. destruct H as [Hc Hr].
    rewrite Hc, (IH Hr). reflexivity.
Qed.

Lemma of_ratio_zero d : 0 < d -> of_ratio 0 d = Fin 0.
Proof. intros H. unfold of_ratio. rewrite Z.mul_0_l. now apply round_units_zero. Qed.

(** Digits, a separator and digits parse as the decimal they spell. *)
Lemma parse_unsigned_fixed ip fp :
  all_digits ip = true -> ip <> "" -> all_digits fp = true -> slen fp <= 400 ->
  parse_unsigned_decimal (ip ++ String "." fp)
  = Some (of_ratio (digits_value 0 (ip ++ fp)) (10 ^ slen fp), "").
Proof.
  intros Hi Hne Hf Hlen.
  destruct ip as [|c r]; [congruence|].
  assert (Hc : is_digit c = true).
  { cbn [all_digits] in Hi. apply andb_true_iff in Hi. tauto. }
  unfold parse_unsigned_decimal.
  replace (starts_with "Infinity" (String c r ++ String "." fp)) with false
    by (digit_case c Hc; reflexivity).
  rewrite (span_digits_dot _ _ Hi), (span_digits_all _ Hf).
  cbn [parse_exponent]. rewrite <- digits_value_app.
  set (m := digits_value 0 (String c r ++ fp)).
  fold (slen fp).
  assert (Hm : 0 <= m) by (apply digits_value_nonneg; [|lia];
                           rewrite all_digits_app; now rewrite Hi, Hf).
  pose proof (slen_nonneg fp) as Hfp.
  unfold of_decimal.
  destruct (Z.eqb_spec m 0) as [->|Hm0].
  { rewrite of_ratio_zero; [reflexivity|apply Z.pow_pos_nonneg; lia]. }
  destruct (Z.ltb_spec 400 (0 - slen fp)) as [?|_]; [lia|].
  destruct (Z.ltb_spec (0 - slen fp + Z.of_nat (String.length (String c r) + String.length fp)) (-400))
    as [?|_]; [unfold slen in *; lia|].
  destruct (Z.ltb_spec (0 - slen fp) 0) as [Hneg|Hz].
  - replace (- (0 - slen fp)) with (slen fp) by lia. reflexivity.
  - replace (slen fp) with 0 by lia. replace (0 - 0) with 0 by lia.
    rewrite Z.pow_0_r, Z.mul_1_r. reflexivity.
Qed.

(** A text that starts with a digit is read as an unsigned literal, and
    with a minus sign before it as its opposite. *)
Lemma parseFloat_unsigned s x rest :
  (exists c r, s = String c r /\ is_digit c = true) ->
  parse_unsigned_decimal s = Some (x, rest) ->
  parseFloat s = x /\ parseFloat (String "-" s) = neg x.
Proof.
  intros (c & r & -> & Hc) Hp. split.
  - unfold parseFloat.
    replace (skip_spaces (String c r)) with (String c r)
      by (digit_case c Hc; reflexivity).
    replace (parse_decimal (String c r)) with (parse_unsigned_decimal (String c r))
      by (digit_case c Hc; reflexivity).
    now rewrite Hp.
  - unfold parseFloat. cbn [skip_spaces].
    replace (is_space "-") with false by reflexivity.
    cbn [parse_decimal]. now rewrite Hp.
Qed.

Lemma take_head n s :
  (1 <= n)%nat -> s <> "" -> all_digits s = true ->
  exists c r, take n s = String c r /\ is_digit c = true.
Proof.
  intros Hn Hs Ha. destruct n as [|n]; [lia|]. destruct s as [|c r]; [congruence|].
  cbn [take]. exists c, (take n r). split; [reflexivity|].
  cbn [all_digits] in Ha. apply andb_true_iff in Ha. tauto.
Qed.

(** What [toFixed] prints reads back as the decimal it rounded to. *)
Lemma toFixed_reads_back k P :
  0 <= P <= 100 -> Z.abs k < 10 ^ 21 * U ->
  exists str,
    toFixed (Fin k) (Fin (P * U)) = Some str
    /\ parseFloat str
       = (if k <? 0
          then neg (of_ratio ((2 * Z.abs k * 10 ^ P + U) / (2 * U)) (10 ^ P))
          else of_ratio ((2 * Z.abs k * 10 ^ P + U) / (2 * U)) (10 ^ P)).
Proof.
  intros HP Hk. pose proof U_pos as HU. unfold toFixed.
  rewrite Z.quot_mul by lia.
  destruct (Z.ltb_spec P 0) as [?|_]; [lia|].
  destruct (Z.ltb_spec 100 P) as [?|_]; [lia|]. cbn [orb].
  destruct (Z.leb_spec (10 ^ 21 * U) (Z.abs k)) as [?|_]; [lia|].
  set (n := (2 * Z.abs k * 10 ^ P + U) / (2 * U)).
  assert (Hn : 0 <= n).
  { subst n. apply Z.div_pos; [|lia].
    assert (0 < 10 ^ P) by (apply Z.pow_pos_nonneg; lia). nia. }
  destruct (Z_to_digits_spec n Hn) as (Ha & Hv & Hl & _).
  destruct (Z_to_digits_head n Hn) as (c & r & E & Hc).
  set (m := Z_to_digits n) in *.
  assert (G : exists body, (if P =? 0 then m
                else let padded := zeros (Z.to_nat (P + 1) - String.length m) ++ m in
                     let cut := (String.length padded - Z.to_nat P)%nat in
                     take cut padded ++ "." ++ drop cut padded) = body
              /\ parseFloat body = of_ratio n (10 ^ P)
              /\ parseFloat (String "-" body) = neg (of_ratio n (10 ^ P))).
  { destruct (Z.eqb_spec P 0) as [->|HP0].
    - exists m. split; [reflexivity|].
      apply (parseFloat_unsigned m _ "").
      + exists c, r. tauto.
      + subst m. rewrite parse_unsigned_digits, Hv; [reflexivity|exact Ha|].
        rewrite E. discriminate.
    - cbv zeta.
      set (padded := zeros (Z.to_nat (P + 1) - String.length m) ++ m).
      set (cut := (String.length padded - Z.to_nat P)%nat).
      assert (Hpl : slen padded = slen m + Z.of_nat (Z.to_nat (P + 1) - String.length m)).
      { subst padded. rewrite slen_app, slen_zeros. lia. }
      assert (Hpl' : P + 1 <= slen padded) by (unfold slen in *; lia).
      assert (Hpa : all_digits padded = true).
      { subst padded. now rewrite all_digits_app, all_digits_zeros, Ha. }
      assert (Hcut : (1 <= cut <= String.length padded)%nat)
        by (subst cut; unfold slen in *; lia).
      assert (Hpne : padded <> "").
      { intros Hp. rewrite Hp in Hpl'. unfold slen in Hpl'. simpl in Hpl'. lia. }
      destruct (take_head cut padded (proj1 Hcut) Hpne Hpa) as (c' & r' & Et & Hc').
      assert (Hfp : slen (drop cut padded) = P).
      { rewrite slen_drop by lia. subst cut. unfold slen in *. lia. }
      exists (take cut padded ++ "." ++ drop cut padded).
      split; [reflexivity|].
      apply (parseFloat_unsigned _ _ "").
      + exists c', (r' ++ "." ++ drop cut padded). rewrite Et. tauto.
      + change ("." ++ drop cut padded) with (String "." (drop cut padded)).
        rewrite parse_unsigned_fixed.
        * rewrite take_drop, Hfp. subst padded.
          rewrite digits_value_app, digits_value_zeros, Hv. reflexivity.
        * now apply all_digits_take.
        * rewrite Et. discriminate.
        * now apply all_digits_drop.
        * lia. }
  cbv zeta in G. destruct G as (body & Hb & G1 & G2). rewrite Hb.
  destruct (k <? 0).
  - exists ("-" ++ body). split; [reflexivity|]. exact G2.
  - exists body. split; [reflexivity|]. exact G1.
Qed.

End FixedFacts.

(** *** Counting fraction digits *)

Section PlacesFacts.

Lemma decimalMatchHere_digit c r :
  is_digit c = true -> decimalMatchHere (String c r) = None.
Proof. intros H. digit_case c H; reflexivity. Qed.

(** Digits, the separator, digits: the fraction is found. *)
Lemma decimalMatch_fraction A B :
  all_digits A = true -> all_digits B = true -> B <> "" ->
  decimalMatch (A ++ String "." B) = (Some B, None).
Proof.
  intros HA HB HBne.
  induction A as [|c r IH]; cbn [String.append decimalMatch].
  - unfold decimalMatchHere. rewrite (span_digits_all _ HB).
    destruct B; [congruence|reflexivity].
  - cbn [all_digits] in HA. apply andb_true_iff in HA. destruct HA as [Hc Hr].
    rewrite decimalMatchHere_digit by exact Hc. now apply IH.
Qed.

Lemma exponentTail_signed (neg : bool) ds :
  all_digits ds = true -> ds <> "" ->
  exponentTail (String "e" ((if neg then "-" else "+") ++ ds))
  = Some ((if neg then "-" else "+") ++ ds).
Proof.
  intros Ha Hne. unfold exponentTail.
  replace (Ascii.eqb "e" "e" || Ascii.eqb "e" "E")%bool with true by reflexivity.
  destruct neg; cbn [String.append]; destruct ds; try congruence; now rewrite Ha.
Qed.

Lemma span_digits_e A t :
  all_digits A = true -> span_digits (A ++ String "e" t) = (A, String "e" t).
Proof.
  induction A as [|c r IH]; cbn [String.append all_digits span_digits]; intros H.
  - reflexivity.
  - apply andb_true_iff in H. destruct H as [Hc Hr].
    rewrite Hc, (IH Hr). reflexivity.
Qed.

(** One digit and an exponent. *)
Lemma decimalMatch_exp1 d (neg : bool) ds :
  is_digit d = true -> all_digits ds = true -> ds <> "" ->
  decimalMatch (String d ("e" ++ (if neg then "-" else "+") ++ ds))
  = (None, Some ((if neg then "-" else "+") ++ ds)).
Proof.
  intros Hd Ha Hne. cbn [decimalMatch].
  rewrite decimalMatchHere_digit by exact Hd.
  change ("e" ++ (if neg then "-" else "+") ++ ds)
    with (String "e" ((if neg then "-" else "+") ++ ds)).
  cbn [decimalMatch]. unfold decimalMatchHere.
  rewrite exponentTail_signed by assumption. reflexivity.
Qed.

(** A digit, the separator, digits and an exponent. *)
Lemma decimalMatch_exp d r (neg : bool) ds :
  is_digit d = true -> all_digits r = true -> r <> "" ->
  all_digits ds = true -> ds <> "" ->
  decimalMatch (String d ("." ++ r ++ "e" ++ (if neg then "-" else "+") ++ ds))
  = (Some r, Some ((if neg then "-" else "+") ++ ds)).
Proof.
  intros Hd Hr Hrne Ha Hne. cbn [decimalMatch].
  rewrite decimalMatchHere_digit by exact Hd.
  change ("." ++ r ++ "e" ++ (if neg then "-" else "+") ++ ds)
    with (String "." (r ++ String "e" ((if neg then "-" else "+") ++ ds))).
  cbn [decimalMatch]. unfold decimalMatchHere.
  rewrite span_digits_e by exact Hr.
  rewrite exponentTail_signed by assumption.
  destruct r; [congruence|reflexivity].
Qed.

(** A sign is skipped by the search for the match. *)
Lemma decimalMatch_minus s : decimalMatch (String "-" s) = decimalMatch s.
Proof. reflexivity. Qed.

(** *** [trim] on a text without blanks at its ends *)

Lemma rev_acc_app s : forall acc, rev_acc s acc = rev_acc s "" ++ acc.
Proof.
  induction s as [|c r IH]; intros acc; cbn [rev_acc]; [reflexivity|].
  rewrite IH, (IH (String c "")). rewrite sapp_assoc. reflexivity.
Qed.

Lemma srev_app s t : rev (s ++ t) = rev t ++ rev s.
Proof.
  unfold rev. induction s as [|c r IH]; cbn [String.append rev_acc].
  - now rewrite sapp_nil_r.
  - rewrite (rev_acc_app (r ++ t)), IH, (rev_acc_app r (String c "")).
    now rewrite sapp_assoc.
Qed.

Lemma srev_involutive s : rev (rev s) = s.
Proof.
  induction s as [|c r IH]; [reflexivity|].
  change (String c r) with (String c "" ++ r) at 1.
  rewrite srev_app, srev_app, IH. reflexivity.
Qed.

Lemma all_digits_last s :
  all_digits s = true -> s <> "" ->
  exists init c, s = init ++ String c "" /\ is_digit c = true.
Proof.
  induction s as [|c r IH]; intros Ha Hne; [congruence|].
  cbn [all_digits] in Ha. apply andb_true_iff in Ha. destruct Ha as [Hc Hr].
  destruct r as [|c' r'].
  - exists "", c. split; [reflexivity|exact Hc].
  - destruct (IH Hr ltac:(discriminate)) as (init & l & E & Hl).
    exists (String c init), l. rewrite E. split; [reflexivity|exact Hl].
Qed.

Lemma skip_spaces_digit c r : is_digit c = true -> skip_spaces (String c r) = String c r.
Proof. intros H. digit_case c H; reflexivity. Qed.

(** A signed run of digits has no white space to trim. *)
Lemma trim_signed (neg : bool) ds :
  all_digits ds = true -> ds <> "" ->
  trim ((if neg then "-" else "+") ++ ds) = (if neg then "-" else "+") ++ ds.
Proof.
  intros Ha Hne. unfold trim.
  destruct (all_digits_last ds Ha Hne) as (init & c & E & Hc).
  assert (Hs : skip_spaces ((if neg then "-" else "+") ++ ds)
               = (if neg then "-" else "+") ++ ds) by (destruct neg; reflexivity).
  rewrite Hs. rewrite E at 1. rewrite <- sapp_assoc, srev_app.
  change (rev (String c "")) with (String c "").
  cbn [String.append]. rewrite skip_spaces_digit by exact Hc.
  change (String c (rev ((if neg then "-" else "+") ++ init)))
    with (rev (String c "") ++ rev ((if neg then "-" else "+") ++ init)).
  rewrite <- srev_app, srev_involutive, sapp_assoc, <- E. reflexivity.
Qed.

(** [Number] of a signed run of digits. *)
Lemma Number_of_signed (neg : bool) m :
  0 <= m <= 2 ^ 53 ->
  Number_of_string ((if neg then "-" else "+") ++ Z_to_digits m)
  = Fin ((if neg then - m else m) * U).
Proof.
  intros Hm.
  destruct (Z_to_digits_spec m (proj1 Hm)) as (Ha & Hv & Hl & _).
  destruct (Z_to_digits_head m (proj1 Hm)) as (c & r & E & Hc).
  assert (Hne : Z_to_digits m <> "") by (rewrite E; discriminate).
  unfold Number_of_string. rewrite trim_signed by assumption.
  assert (Hp : parse_unsigned_decimal (Z_to_digits m) = Some (of_Z m, ""))
    by (rewrite parse_unsigned_digits, Hv; auto).
  destruct neg; cbn [String.append parse_radix_literal parse_decimal];
    rewrite Hp, of_Z_exact by lia; cbn [JSNumber.neg]; f_equal; lia.
Qed.

(** *** The decimal places of a number's text *)

Lemma places_arith a b :
  Z.abs a <= 2 ^ 52 -> Z.abs b <= 2 ^ 52 ->
  JSNumber.max (Fin (0 * U)) (sub (Fin (a * U)) (Fin (b * U)))
  = Fin (Z.max 0 (a - b) * U).
Proof.
  intros Ha Hb. rewrite sub_exact by lia. unfold JSNumber.max. rewrite ltb_int.
  destruct (Z.ltb_spec 0 (a - b)); f_equal; lia.
Qed.

Lemma Z_to_digits_length s : 1 <= s < 2 ^ 4000 -> 1 <= slen (Z_to_digits s) <= 4000.
Proof.
  intros Hs. destruct (Z_to_digits_spec s ltac:(lia)) as (_ & _ & Hl & Hp).
  specialize (Hp ltac:(lia)). split; [exact Hl|].
  set (kk := slen (Z_to_digits s)) in *.
  assert (H2 : 2 ^ (kk - 1) <= 10 ^ (kk - 1)) by (apply Z.pow_le_mono_l; lia).
  assert (Hlt : 2 ^ (kk - 1) < 2 ^ 4000) by lia.
  apply Z.pow_lt_mono_r_iff in Hlt; lia.
Qed.

(** [getDecimalPlaces] on the text of a number with significand [s] and
    exponent [e]: the number of places is [max 0 (- e)], in each of the
    four layouts. *)
Lemma places_format s e :
  1 <= s < 2 ^ 4000 -> - 4000 <= e <= 4000 ->
  getDecimalPlaces (VString (format_shortest s e)) = Fin (Z.max 0 (- e) * U)
  /\ getDecimalPlaces (VString ("-" ++ format_shortest s e)) = Fin (Z.max 0 (- e) * U).
Proof.
  intros Hs He.
  assert (G : exists m1 m2,
             decimalMatch (format_shortest s e) = (m1, m2)
             /\ JSNumber.max (of_Z 0)
                  (sub (match m1 with
                        | Some f => of_Z (Z.of_nat (String.length f))
                        | None => of_Z 0
                        end)
                       (match m2 with
                        | Some x => Number_of_string x
                        | None => of_Z 0
                        end)) = Fin (Z.max 0 (- e) * U)).
  { unfold format_shortest.
    destruct (Z_to_digits_spec s ltac:(lia)) as (Ha & _ & _ & _).
    destruct (Z_to_digits_head s ltac:(lia)) as (d & rest & E & Hd).
    pose proof (Z_to_digits_length s Hs) as Hl.
    fold (slen (Z_to_digits s)).
    set (ds := Z_to_digits s) in *. set (kk := slen ds) in *.
    assert (H52 : 8002 <= 2 ^ 52) by (vm_compute; discriminate).
    set (ex := (if kk + e - 1 <? 0 then "-" else "+")
               ++ Z_to_digits (Z.abs (kk + e - 1))).
    assert (Hexp : exists m1 m2,
               decimalMatch
                 match ds with
                 | "" => ""
                 | String d0 "" => String d0 ("e" ++ ex)
                 | String d0 r => String d0 ("." ++ r ++ "e" ++ ex)
                 end = (m1, m2)
               /\ JSNumber.max (of_Z 0)
                    (sub (match m1 with
                          | Some f => of_Z (Z.of_nat (String.length f))
                          | None => of_Z 0
                          end)
                         (match m2 with
                          | Some x => Number_of_string x
                          | None => of_Z 0
                          end)) = Fin (Z.max 0 (- e) * U)).
    { assert (Hx : Number_of_string ex = Fin ((kk + e - 1) * U)).
      { subst ex. rewrite Number_of_signed by lia.
        destruct (Z.ltb_spec (kk + e - 1) 0); f_equal; lia. }
      destruct (Z_to_digits_spec (Z.abs (kk + e - 1)) ltac:(lia)) as (Hxa & _ & _ & _).
      destruct (Z_to_digits_head (Z.abs (kk + e - 1)) ltac:(lia)) as (xc & xr & Ex & _).
      assert (Hxne : Z_to_digits (Z.abs (kk + e - 1)) <> "") by (rewrite Ex; discriminate).
      rewrite E. destruct rest as [|c2 r2].
      - exists None, (Some ex).
        split; [now apply decimalMatch_exp1|].
        rewrite Hx, (of_Z_exact 0) by lia. rewrite places_arith by lia.
        f_equal. subst kk. rewrite E. unfold slen. simpl String.length. lia.
      - exists (Some (String c2 r2)), (Some ex).
        assert (Hr : all_digits (String c2 r2) = true).
        { rewrite E in Ha. cbn [all_digits] in Ha. apply andb_true_iff in Ha. tauto. }
        split; [apply decimalMatch_exp; try assumption; discriminate|].
        assert (Hk : kk = Z.of_nat (String.length (String c2 r2)) + 1).
        { subst kk. rewrite E. unfold slen. cbn [String.length]. lia. }
        rewrite Hx, !of_Z_exact by lia. rewrite places_arith by lia.
        f_equal. lia. }
    destruct ((kk <=? kk + e) && (kk + e <=? 21)) eqn:C1.
    - (* digits and zeros *)
      apply andb_true_iff in C1. destruct C1 as [C1 _]. apply Z.leb_le in C1.
      exists None, None. split.
      + apply decimalMatch_digits. now rewrite all_digits_app, Ha, all_digits_zeros.
      + rewrite (of_Z_exact 0) by lia. rewrite (places_arith 0 0) by lia.
        f_equal. lia.
    - destruct ((0 <? kk + e) && (kk + e <=? 21)) eqn:C2.
      + (* digits, separator, digits *)
        apply andb_true_iff in C2. destruct C2 as [C2 C2'].
        rewrite C2', andb_true_r in C1. apply Z.leb_gt in C1.
        apply Z.ltb_lt in C2. apply Z.leb_le in C2'.
        set (n := Z.to_nat (kk + e)).
        assert (Hn : (n <= String.length ds)%nat) by (subst n kk; unfold slen in *; lia).
        assert (Hb : slen (drop n ds) = - e).
        { rewrite slen_drop by exact Hn. subst n. fold kk. lia. }
        exists (Some (drop n ds)), None. split.
        * change ("." ++ drop n ds) with (String "." (drop n ds)).
          apply decimalMatch_fraction;
            [now apply all_digits_take|now apply all_digits_drop|].
          intros Hz. rewrite Hz in Hb. unfold slen in Hb. simpl in Hb. lia.
        * fold (slen (drop n ds)). rewrite Hb.
          rewrite (of_Z_exact (- e)), (of_Z_exact 0) by lia.
          rewrite places_arith by lia. f_equal. lia.
      + destruct ((-6 <? kk + e) && (kk + e <=? 0)) eqn:C3; [|exact Hexp].
        (* zero, separator, zeros, digits *)
        apply andb_true_iff in C3. destruct C3 as [C3 C3'].
        apply Z.ltb_lt in C3. apply Z.leb_le in C3'.
        set (z := Z.to_nat (- (kk + e))).
        exists (Some (zeros z ++ ds)), None. split.
        * change ("0." ++ zeros z ++ ds) with ("0" ++ String "." (zeros z ++ ds)).
          apply decimalMatch_fraction; [reflexivity| |].
          -- now rewrite all_digits_app, all_digits_zeros, Ha.
          -- rewrite E. destruct (zeros z); discriminate.
        * fold (slen (zeros z ++ ds)). rewrite slen_app, slen_zeros. fold kk.
          replace (Z.of_nat z + kk) with (- e) by (subst z; lia).
          rewrite (of_Z_exact (- e)), (of_Z_exact 0) by lia.
          rewrite places_arith by lia. f_equal. lia. }
  destruct G as (m1 & m2 & Hm & Hv).
  split; unfold getDecimalPlaces; cbn [String_of_value String.append];
    rewrite ?decimalMatch_minus, Hm; exact Hv.
Qed.

End PlacesFacts.

(** *** Short decimals *)

Section DecimalPlaces.

(** The double of a short positive decimal. *)
Lemma of_ratio_size N P :
  0 <= P <= 22 -> 1 <= N <= 2 ^ 50 ->
  exists k, of_ratio N (10 ^ P) = Fin k /\ 0 < k
            /\ 2 ^ 53 * Z.abs (k * 10 ^ P - N * U) <= N * U.
Proof.
  intros HP HN.
  destruct (of_ratio_near N (10 ^ P) (pow10_range P HP) ltac:(lia))
    as (k & E & Hk & Hs).
  exists k. rewrite (Z.abs_eq N) in Hk by lia.
  repeat split; try assumption.
  rewrite (Z.sgn_pos N) in Hs by lia. lia.
Qed.

(** Two decimals on one denominator that round to the same double are
    the same. *)
Lemma same_double x N A :
  1 <= x -> 1 <= N <= 2 ^ 50 ->
  2 ^ 53 * Z.abs (A - x * U) <= x * U ->
  2 ^ 53 * Z.abs (A - N * U) <= N * U ->
  x = N.
Proof.
  intros Hx HN H1 H2. pose proof U_pos as HU.
  assert (HNU : N * U <= 2 ^ 50 * U) by (apply Z.mul_le_mono_nonneg_r; lia).
  destruct (Z.lt_trichotomy x N) as [Hlt|[->|Hgt]]; [exfalso| reflexivity |exfalso].
  - assert (x * U + U <= N * U).
    { replace (x * U + U) with ((x + 1) * U) by ring.
      apply Z.mul_le_mono_nonneg_r; lia. }
    lia.
  - assert (N * U + U <= x * U).
    { replace (N * U + U) with ((N + 1) * U) by ring.
      apply Z.mul_le_mono_nonneg_r; lia. }
    lia.
Qed.

(** The search starts at or above [-P] for the least double that a
    positive decimal with [P] fraction digits can round to. *)
Lemma first_exponent_low P :
  0 <= P <= 22 ->
  - P <= first_exponent ((2 ^ 53 - 1) * U / (2 ^ 53 * 10 ^ P)).
Proof.
  intros HP.
  assert (H : P = 0 \/ P = 1 \/ P = 2 \/ P = 3 \/ P = 4 \/ P = 5 \/ P = 6 \/ P = 7
              \/ P = 8 \/ P = 9 \/ P = 10 \/ P = 11 \/ P = 12 \/ P = 13 \/ P = 14
              \/ P = 15 \/ P = 16 \/ P = 17 \/ P = 18 \/ P = 19 \/ P = 20
              \/ P = 21 \/ P = 22) by lia.
  repeat (destruct H as [->|H]; [vm_compute; discriminate|]).
  subst P. vm_compute. discriminate.
Qed.

(** The exponent of a short decimal lies in the range that [shortest]
    looks at. *)
Lemma first_exponent_window N P k :
  0 <= P <= 22 -> 1 <= N <= 2 ^ 50 -> 0 < k ->
  2 ^ 53 * Z.abs (k * 10 ^ P - N * U) <= N * U ->
  - P <= first_exponent k <= 16.
Proof.
  intros HP HN Hk H. pose proof U_pos as HU.
  pose proof (pow10_range P HP) as [HT _]. set (T := 10 ^ P) in *.
  assert (HNU : N * U <= 2 ^ 50 * U) by (apply Z.mul_le_mono_nonneg_r; lia).
  assert (HNU1 : 1 * U <= N * U) by (apply Z.mul_le_mono_nonneg_r; lia).
  assert (HkT : k <= k * T) by nia.
  split.
  - etransitivity; [apply (first_exponent_low P HP)|].
    fold T. apply first_exponent_mono. split.
    + apply Z.div_str_pos. split; [nia|].
      assert (2 ^ 53 * T <= 2 ^ 53 * 2 ^ 1000).
      { apply Z.mul_le_mono_nonneg_l; [lia|]. apply (pow10_range P HP). }
      assert (2 ^ 53 * 2 ^ 1000 <= (2 ^ 53 - 1) * U) by (vm_compute; discriminate).
      lia.
    + apply Z.div_le_upper_bound; [nia|].
      replace (2 ^ 53 * T * k) with (2 ^ 53 * (k * T)) by ring.
      lia.
  - assert (Hle : k <= 2 ^ 51 * U) by lia.
    etransitivity; [apply (first_exponent_mono k (2 ^ 51 * U)); lia|].
    vm_compute. discriminate.
Qed.

(** The text of a positive double and of its opposite. *)
Lemma to_string_pos k :
  0 < k ->
  to_string (Fin k)
  = match shortest k with Some (s, e) => format_shortest s e | None => "" end.
Proof.
  intros Hk. unfold to_string.
  destruct (Z.eqb_spec k 0) as [?|_]; [lia|].
  destruct (Z.ltb_spec k 0) as [?|_]; [lia|].
  rewrite Z.abs_eq by lia. reflexivity.
Qed.

Lemma to_string_neg k :
  0 < k ->
  to_string (Fin (- k))
  = "-" ++ match shortest k with Some (s, e) => format_shortest s e | None => "" end.
Proof.
  intros Hk. unfold to_string.
  destruct (Z.eqb_spec (- k) 0) as [?|_]; [lia|].
  destruct (Z.ltb_spec (- k) 0) as [_|?]; [|lia].
  rewrite Z.abs_opp, Z.abs_eq by lia. reflexivity.
Qed.

(** The fraction digits that [getDecimalPlaces] counts in a short decimal
    are no more than it was written with, and the decimal can be written
    with that many. *)
Lemma decimal_places_pos N P :
  0 <= P <= 22 -> 1 <= N <= 2 ^ 50 ->
  exists p, 0 <= p <= P /\ (10 ^ (P - p) | N)
            /\ getDecimalPlaces (VNumber (of_ratio N (10 ^ P))) = Fin (p * U)
            /\ getDecimalPlaces (VNumber (neg (of_ratio N (10 ^ P)))) = Fin (p * U).
Proof.
  intros HP HN. pose proof U_pos as HU.
  destruct (of_ratio_size N P HP HN) as (k & Ek & Hk & Hnear).
  pose proof (first_exponent_window N P k HP HN Hk Hnear) as Hw.
  pose proof (pow10_range P HP) as HT.
  assert (HNU : N * U <= 2 ^ 50 * U) by (apply Z.mul_le_mono_nonneg_r; lia).
  assert (Hhit : shortest_at k (- P) <> None).
  { apply (shortest_at_hit k (- P) N Hk).
    - unfold reads_back. destruct (Z.ltb_spec (- P) 0) as [Hn|Hn].
      + rewrite Z.opp_involutive, Ek. apply Z.eqb_refl.
      + assert (P = 0) by lia. subst P.
        change (- 0) with 0. rewrite Z.pow_0_r, Z.mul_1_r.
        rewrite Z.pow_0_r in Ek. rewrite Ek. apply Z.eqb_refl.
    - cbv zeta. destruct (Z.ltb_spec (- P) 0) as [Hn|Hn].
      + rewrite Z.opp_involutive. lia.
      + assert (P = 0) by lia. subst P.
        change (- 0) with 0. rewrite Z.pow_0_r, Z.mul_1_r in *. lia. }
  destruct (shortest_from_hit 40 k (first_exponent k) (- P)) as (s & e & Es & He & Hat).
  { simpl Z.of_nat. lia. }
  { exact Hhit. }
  destruct (shortest_at_reads k e s Hk Hat) as [Hrb Hs].
  (* the decimal found is the one given *)
  assert (Hsame : exists c, 1 <= c /\ N = s * c
                            /\ c = 10 ^ (P - Z.max 0 (- e)) * 10 ^ Z.max 0 e).
  { unfold reads_back in Hrb.
    assert (H52 : 2 ^ 52 * 2 ^ 1000 <= U) by (unfold U; vm_compute; discriminate).
    destruct (Z.ltb_spec e 0) as [Hn|Hn].
    - destruct (of_ratio s (10 ^ (- e))) as [| |k'] eqn:Er; try discriminate.
      apply Z.eqb_eq in Hrb. subst k'.
      set (c := 10 ^ (P - - e)).
      assert (Hc : 0 < c) by (apply Z.pow_pos_nonneg; lia).
      assert (HcT : 10 ^ (- e) * c = 10 ^ P).
      { unfold c. rewrite <- Z.pow_add_r by lia. f_equal. lia. }
      rewrite <- (of_ratio_scale s (10 ^ (- e)) c) in Er;
        [|apply Z.pow_pos_nonneg; lia|exact Hc].
      rewrite HcT in Er. unfold of_ratio in Er.
      assert (Hsc : 1 <= s * c) by nia.
      assert (Hsc1 : 1 * U <= s * c * U) by (apply Z.mul_le_mono_nonneg_r; lia).
      destruct (round_units_fin_near (s * c * U) (10 ^ P) k) as [Hn1 _].
      + lia.
      + rewrite Z.abs_eq by lia. nia.
      + exact Er.
      + rewrite (Z.abs_eq (s * c * U)) in Hn1 by lia.
        exists c. split; [lia|]. split.
        * symmetry. apply (same_double (s * c) N (k * 10 ^ P)); assumption.
        * rewrite Z.max_r, Z.max_l by lia. rewrite Z.pow_0_r, Z.mul_1_r. reflexivity.
    - destruct (of_ratio (s * 10 ^ e) 1) as [| |k'] eqn:Er; try discriminate.
      apply Z.eqb_eq in Hrb. subst k'.
      set (c := 10 ^ P * 10 ^ e).
      assert (He0 : 0 < 10 ^ e) by (apply Z.pow_pos_nonneg; lia).
      assert (Hc : 1 <= c) by (unfold c; nia).
      rewrite <- (of_ratio_scale (s * 10 ^ e) 1 (10 ^ P)) in Er by lia.
      rewrite Z.mul_1_l in Er. unfold of_ratio in Er.
      replace (s * 10 ^ e * 10 ^ P) with (s * c) in Er by (unfold c; ring).
      assert (Hsc : 1 <= s * c) by nia.
      assert (Hsc1 : 1 * U <= s * c * U) by (apply Z.mul_le_mono_nonneg_r; lia).
      destruct (round_units_fin_near (s * c * U) (10 ^ P) k) as [Hn1 _].
      + lia.
      + rewrite Z.abs_eq by lia. nia.
      + exact Er.
      + rewrite (Z.abs_eq (s * c * U)) in Hn1 by lia.
        exists c. split; [lia|]. split.
        * symmetry. apply (same_double (s * c) N (k * 10 ^ P)); assumption.
        * rewrite Z.max_l, Z.max_r by lia. rewrite Z.sub_0_r. reflexivity. }
  destruct Hsame as (c & Hc & HNs & Hcd).
  assert (Hs4 : 1 <= s < 2 ^ 4000).
  { split; [exact Hs|].
    assert (s <= N).
    { rewrite HNs. rewrite <- (Z.mul_1_r s) at 1.
      apply Z.mul_le_mono_nonneg_l; lia. }
    assert (2 ^ 50 < 2 ^ 4000) by (apply Z.pow_lt_mono_r; lia). lia. }
  destruct (places_format s e Hs4 ltac:(lia)) as [Hp1 Hp2].
  exists (Z.max 0 (- e)).
  split; [lia|]. split.
  { exists (s * 10 ^ Z.max 0 e). rewrite HNs, Hcd. ring. }
  rewrite Ek. cbn [neg]. unfold getDecimalPlaces in *.
  cbn [String_of_value] in *.
  rewrite to_string_pos, to_string_neg by exact Hk.
  unfold shortest. rewrite Es. split; assumption.
Qed.

(** The same for every short decimal, whatever its sign. *)
Lemma decimal_places N P :
  0 <= P <= 22 -> Z.abs N <= 2 ^ 50 ->
  exists p, 0 <= p <= P /\ (10 ^ (P - p) | N)
            /\ getDecimalPlaces (VNumber (of_ratio N (10 ^ P))) = Fin (p * U).
Proof.
  intros HP HN. pose proof (pow10_range P HP) as HT.
  destruct (Z.lt_trichotomy N 0) as [Hneg|[->|Hpos]].
  - destruct (decimal_places_pos (- N) P HP ltac:(lia)) as (p & Hp & Hd & _ & Hg).
    exists p. split; [exact Hp|]. split; [apply Z.divide_opp_r; exact Hd|].
    rewrite <- of_ratio_neg in Hg by lia. rewrite Z.opp_involutive in Hg. exact Hg.
  - exists 0. split; [lia|]. split; [apply Z.divide_0_r|].
    rewrite of_ratio_zero by lia. reflexivity.
  - destruct (decimal_places_pos N P HP ltac:(lia)) as (p & Hp & Hd & Hg & _).
    exists p. auto.
Qed.

End DecimalPlaces.

(** *** The mode latch *)

Section ModeLatch.

Lemma lastSet_In (l : list effect) (v : InternalNumberInputValue) :
  lastSet l = Some v -> In (SetValue v) l.
Proof.
  induction l as [|e r IH]; simpl; [discriminate|].
  destruct (lastSet r) as [w|].
  - intros H. right. apply IH. exact H.
  - destruct e; try discriminate. intros H. inversion H. now left.
Qed.

Lemma storedAfter_notNumber (v : InternalNumberInputValue) (o : outcome) :
  notNumber v -> Forall setsNoNumber (fst o) -> notNumber (storedAfter v o).
Proof.
  intros Hv Ho. unfold storedAfter.
  destruct (lastSet (fst o)) as [w|] eqn:E; [|exact Hv].
  apply lastSet_In in E. rewrite Forall_forall in Ho.
  exact (Ho _ E).
Qed.


Lemma clampAndSanitizeBigIntInput_notNumber s lo hi cb :
  notNumber (clampAndSanitizeBigIntInput s lo hi cb).
Proof.
  unfold clampAndSanitizeBigIntInput.
  destruct (_ || _); [exact I|].
  destruct (parseBigIntFromString s); [destruct cb|]; exact I.
Qed.

Lemma storeBigInt_sets pre z src :
  Forall setsNoNumber pre -> Forall setsNoNumber (fst (storeBigInt pre z src)).
Proof.
  intros H. unfold storeBigInt, done. simpl.
  apply Forall_app. split; [exact H|].
  repeat constructor.
Qed.

Local Hint Resolve storeBigInt_sets : latch.
Local Hint Constructors Forall : latch.
Local Hint Extern 1 (setsNoNumber _) => exact I : latch.




Lemma blurValue_bigint p v : notNumber v -> notNumber (blurValue p ModeBigint v).
Proof.
  intros Hv. unfold blurValue.
  destruct v as [s|x|z]; [|destruct Hv|].
  - destruct (clampBehavior p); destruct (trimLeadingZeroesOnBlur p);
      try exact I; apply clampAndSanitizeBigIntInput_notNumber.
  - destruct (clampBehavior p); exact I.
Qed.












End ModeLatch.




(** *** The sanitizer and leading zeros *)

(** C4, as the spec has it, fails: with leading zeros disallowed, the text
    [007] (which matches the leading-zeros pattern) is resolved, to the
    number 7 in number mode and to the bigint 7 in bigint mode, and is not
    kept as text; with leading zeros allowed it is kept as text. *)
Lemma C4_counterexample :
  leadingZerosPattern "007" = true
  /\ storedAfter (VString "")
       (handleValueChange (leadingZerosProps false) ModeNumber
          (typed "007" (Some (of_Z 7))) SrcEvent) = VNumber (of_Z 7)
  /\ storedAfter (VString "")
       (handleValueChange (leadingZerosProps false) ModeBigint
          (typed "007" (Some (of_Z 7))) SrcEvent) = VBigint 7
  /\ storedAfter (VString "")
       (handleValueChange (leadingZerosProps true) ModeNumber
          (typed "007" (Some (of_Z 7))) SrcEvent) = VString "007"
  /\ storedAfter (VString "")
       (handleValueChange (leadingZerosProps true) ModeBigint
          (typed "007" (Some (of_Z 7))) SrcEvent) = VString "007".
Proof. vm_compute. repeat split. Qed.

(** C4, amended.  The rule is the other way round.  When leading zeros are
    allowed and the typed text matches the leading-zeros pattern, the text
    is kept as it is, in both modes, so that its zeros survive.  When
    leading zeros are disallowed the pattern is not consulted: number mode
    resolves the text exactly when the other rules pass, and bigint mode
    exactly when the text is a valid integer string. *)
Theorem C4_leading_zeros_rule :
  forall (p : NumberInputProps) (val : NumberFormatValues),
    (allowLeadingZeros p = true -> leadingZerosPattern (value val) = true ->
     forall mode,
       fst (handleValueChange p mode val SrcEvent)
       = [SetValue (VString (value val)); OnValueChange val SrcEvent])
    /\ (allowLeadingZeros p = false ->
        fst (handleValueChange p ModeNumber val SrcEvent)
        = [SetValue
             (match floatValue val with
              | Some x =>
                  if isValidNumber (floatValue val) (value val)
                     && negb (leadingDecimalZeroPattern (value val))
                     && negb (trailingZerosPattern (value val))
                     && negb (trailingDecimalSeparatorPattern (value val))
                  then VNumber x else VString (value val)
              | None => VString (value val)
              end);
           OnValueChange val SrcEvent]
        /\ fst (handleValueChange p ModeBigint val SrcEvent)
           = [SetValue
                (if isValidBigIntString (value val) (allowNegative p)
                 then match parseBigIntFromString (value val) with
                      | Some z => VBigint z
                      | None => VString (value val)
                      end
                 else VString (value val));
              OnValueChange val SrcEvent]).
Proof.
  intros p val. split.
  - intros Ha Hz mode. unfold handleValueChange, parseBigIntOrString.
    rewrite Ha, Hz. simpl. rewrite !andb_false_r, orb_true_r.
    destruct mode; simpl; reflexivity.
  - intros Ha. unfold handleValueChange, parseBigIntOrString.
    rewrite Ha. simpl. rewrite andb_true_r, orb_false_r. split.
    + remember (isValidNumber (floatValue val) (value val) && _ && _ && _)
        as c eqn:Hc.
      clear Hc. destruct (floatValue val), c; reflexivity.
    + destruct (isValidBigIntString _ _); reflexivity.
Qed.

Lemma C4_leading_zeros_rule_witness :
  allowLeadingZeros (leadingZerosProps true) = true
  /\ leadingZerosPattern (value (typed "007" (Some (of_Z 7)))) = true
  /\ forall mode,
       fst (handleValueChange (leadingZerosProps true) mode
              (typed "007" (Some (of_Z 7))) SrcEvent)
       = [SetValue (VString (value (typed "007" (Some (of_Z 7)))));
          OnValueChange (typed "007" (Some (of_Z 7))) SrcEvent].
Proof.
  split; [reflexivity|split; [reflexivity|]].
  exact (proj1 (C4_leading_zeros_rule (leadingZerosProps true)
                  (typed "007" (Some (of_Z 7)))) eq_refl eq_refl).
Defined.

(** *** Values that cannot be stepped *)

(** C5 (non-steppable no-op).  In number mode, on a number that is not
    below [Number.MAX_SAFE_INTEGER] and on a non-empty string that is not
    numeric, and in bigint mode on a non-empty string that is not a valid
    integer string, [increment] and [decrement] do nothing at all: no
    [setValue], no change notification, no boundary callback, no
    exception; the stored value is what it was. *)
Theorem C5_non_steppable_noop :
  forall (p : NumberInputProps),
    (forall x, ltb x MAX_SAFE_INTEGER = false ->
       increment p ModeNumber (VNumber x) = ([], None)
       /\ decrement p ModeNumber (VNumber x) = ([], None))
    /\ (forall s, s <> "" -> isNaN (Number_of_string s) = true ->
       increment p ModeNumber (VString s) = ([], None)
       /\ decrement p ModeNumber (VString s) = ([], None))
    /\ (forall s, s <> "" -> isValidBigIntString s (allowNegative p) = false ->
       increment p ModeBigint (VString s) = ([], None)
       /\ decrement p ModeBigint (VString s) = ([], None)).
Proof.
  intros p. repeat split.
  - unfold increment, canStep. now rewrite H.
  - unfold decrement, canStep. now rewrite H.
  - unfold increment, canStep, isNumberString. rewrite H0.
    destruct s; [congruence|]. reflexivity.
  - unfold decrement, canStep, isNumberString. rewrite H0.
    destruct s; [congruence|]. reflexivity.
  - unfold increment, canStepBigInt. rewrite H0.
    destruct s; [congruence|]. reflexivity.
  - unfold decrement, canStepBigInt. rewrite H0.
    destruct s; [congruence|]. reflexivity.
Qed.

Lemma C5_non_steppable_noop_witness :
  (ltb MAX_SAFE_INTEGER MAX_SAFE_INTEGER = false
   /\ increment defaultProps ModeNumber (VNumber MAX_SAFE_INTEGER) = ([], None)
   /\ decrement defaultProps ModeNumber (VNumber MAX_SAFE_INTEGER) = ([], None))
  /\ ("12px" <> "" /\ isNaN (Number_of_string "12px") = true
      /\ increment defaultProps ModeNumber (VString "12px") = ([], None)
      /\ decrement defaultProps ModeNumber (VString "12px") = ([], None))
  /\ ("1.5" <> ""
      /\ isValidBigIntString "1.5" (allowNegative bigIntDemo) = false
      /\ increment bigIntDemo ModeBigint (VString "1.5") = ([], None)
      /\ decrement bigIntDemo ModeBigint (VString "1.5") = ([], None)).
Proof.
  assert (H1 : ltb MAX_SAFE_INTEGER MAX_SAFE_INTEGER = false) by (vm_compute; reflexivity).
  assert (H2 : "12px" <> "") by discriminate.
  assert (H3 : isNaN (Number_of_string "12px") = true) by (vm_compute; reflexivity).
  assert (H4 : "1.5" <> "") by discriminate.
  assert (H5 : isValidBigIntString "1.5" (allowNegative bigIntDemo) = false)
    by (vm_compute; reflexivity).
  split; [|split].
  - split; [exact H1|].
    exact (proj1 (C5_non_steppable_noop defaultProps) MAX_SAFE_INTEGER H1).
  - split; [exact H2|split; [exact H3|]].
    exact (proj1 (proj2 (C5_non_steppable_noop defaultProps)) "12px" H2 H3).
  - split; [exact H4|split; [exact H5|]].
    exact (proj2 (proj2 (C5_non_steppable_noop bigIntDemo)) "1.5" H4 H5).
Defined.

(** *** Steps over integers *)

Section IntegerSteps.

Variable p : NumberInputProps.

Lemma MAX_SAFE_INTEGER_eq : MAX_SAFE_INTEGER = Fin ((2 ^ 53 - 1) * U).
Proof. apply of_Z_exact. lia. Qed.

Lemma MIN_SAFE_INTEGER_eq : MIN_SAFE_INTEGER = Fin (- (2 ^ 53 - 1) * U).
Proof. apply of_Z_exact. lia. Qed.

Lemma canStep_int n : canStep (VNumber (Fin (n * U))) = (n <? 2 ^ 53 - 1).
Proof. unfold canStep. rewrite MAX_SAFE_INTEGER_eq. apply ltb_int. Qed.

Lemma pow10_zero : pow10 (Fin 0) = Fin (1 * U).
Proof.
  unfold pow10. rewrite Zdiv_0_l. cbn [Z.leb Z.ltb Z.compare].
  change (of_ratio (10 ^ 0) 1) with (of_Z 1). apply (of_Z_exact 1). lia.
Qed.

Lemma storeFixed_int pre m src :
  Z.abs m <= 2 ^ 53 ->
  storeFixed pre (Fin (m * U)) (Fin 0) src
  = ((pre ++ [SetValue (VNumber (Fin (m * U)));
              OnValueChange (typed (Z_to_string m) (Some (Fin (m * U)))) src;
              AdjustCursor])%list, None).
Proof.
  intros Hm. unfold storeFixed.
  rewrite toFixed_int by exact Hm.
  rewrite parseFloat_Z_to_string, of_Z_exact by exact Hm. reflexivity.
Qed.

(** The value an integer step computes before it looks at the bounds. *)
Lemma scaled_step_int n s :
  Z.abs n <= 2 ^ 53 -> Z.abs s <= 2 ^ 53 -> Z.abs (n + s) <= 2 ^ 53 ->
  div (add (round (mul (Fin (n * U)) (Fin (1 * U))))
           (round (mul (Fin (s * U)) (Fin (1 * U))))) (Fin (1 * U))
  = Fin ((n + s) * U).
Proof.
  intros Hn Hs Hns.
  rewrite !mul_one_exact, !round_int, add_exact, div_one_exact by assumption.
  reflexivity.
Qed.

Lemma scaled_step_back_int n s :
  Z.abs n <= 2 ^ 53 -> Z.abs s <= 2 ^ 53 -> Z.abs (n - s) <= 2 ^ 53 ->
  div (sub (round (mul (Fin (n * U)) (Fin (1 * U))))
           (round (mul (Fin (s * U)) (Fin (1 * U))))) (Fin (1 * U))
  = Fin ((n - s) * U).
Proof.
  intros Hn Hs Hns.
  rewrite !mul_one_exact, !round_int, sub_exact, div_one_exact by assumption.
  reflexivity.
Qed.

Lemma max_zero : JSNumber.max (Fin 0) (Fin 0) = Fin 0.
Proof. reflexivity. Qed.

(** [increment] on an integer, by an integer step, as long as the sum is
    an integer a double holds. *)
Lemma increment_int n s :
  step p = PNumber (Fin (s * U)) ->
  Z.abs n <= 2 ^ 53 -> n < 2 ^ 53 - 1 -> Z.abs s <= 2 ^ 53 ->
  Z.abs (n + s) <= 2 ^ 53 ->
  increment p ModeNumber (VNumber (Fin (n * U)))
  = match maxNumber p with
    | Some mx =>
        storeFixed (if gtb (Fin ((n + s) * U)) mx then [OnMaxReached] else [])
          (if leb (Fin ((n + s) * U)) mx then Fin ((n + s) * U) else mx)
          (Fin 0) SrcIncrement
    | None => storeFixed [] (Fin ((n + s) * U)) (Fin 0) SrcIncrement
    end.
Proof.
  intros Hstep Hn Hlt Hs Hns. unfold increment.
  rewrite canStep_int. destruct (Z.ltb_spec n (2 ^ 53 - 1)) as [_|?]; [|lia].
  cbn [negb]. unfold stepNumber. rewrite Hstep.
  rewrite !getDecimalPlaces_int by assumption.
  rewrite max_zero, pow10_zero.
  cbn [isNumberString negb andb isNaN Number_of_value].
  rewrite scaled_step_int by assumption. reflexivity.
Qed.

Lemma decrement_int n s :
  step p = PNumber (Fin (s * U)) ->
  Z.abs n <= 2 ^ 53 -> n < 2 ^ 53 - 1 -> Z.abs s <= 2 ^ 53 ->
  Z.abs (n - s) <= 2 ^ 53 ->
  decrement p ModeNumber (VNumber (Fin (n * U)))
  = storeFixed
      (if ltb (Fin ((n - s) * U)) (minValueNumber p) then [OnMinReached] else [])
      (if ltb (Fin ((n - s) * U)) (minValueNumber p) then minValueNumber p
       else Fin ((n - s) * U))
      (Fin 0) SrcDecrement.
Proof.
  intros Hstep Hn Hlt Hs Hns. unfold decrement.
  rewrite canStep_int. destruct (Z.ltb_spec n (2 ^ 53 - 1)) as [_|?]; [|lia].
  cbn [negb]. unfold stepNumber. rewrite Hstep.
  rewrite !getDecimalPlaces_int by assumption.
  rewrite max_zero, pow10_zero.
  cbn [isNumberString negb andb orb isNaN Number_of_value].
  rewrite scaled_step_back_int by assumption. reflexivity.
Qed.

End IntegerSteps.

Lemma leb_int a b : leb (Fin (a * U)) (Fin (b * U)) = (a <=? b).
Proof.
  unfold leb. rewrite ltb_int, eqb_int.
  destruct (Z.ltb_spec a b), (Z.eqb_spec a b), (Z.leb_spec a b); try reflexivity; lia.
Qed.

Lemma gtb_int a b : gtb (Fin (a * U)) (Fin (b * U)) = (b <? a).
Proof. unfold gtb. apply ltb_int. Qed.

(** *** Steps on short decimals *)

Section DecimalSteps.

Variable p : NumberInputProps.

(** [Math.max] of two counts of digits. *)
Lemma max_places a b : JSNumber.max (Fin (a * U)) (Fin (b * U)) = Fin (Z.max a b * U).
Proof.
  unfold JSNumber.max. rewrite ltb_int.
  destruct (Z.ltb_spec a b); f_equal; f_equal; lia.
Qed.

Lemma pow10_divide P a b : 0 <= a <= b -> b <= P -> (10 ^ (P - b) | 10 ^ (P - a)).
Proof.
  intros Ha Hb. exists (10 ^ (b - a)).
  rewrite <- Z.pow_add_r by lia. f_equal. lia.
Qed.

(** A decimal with fewer fraction digits. *)
Lemma of_ratio_lower N P M :
  0 <= M <= P -> (10 ^ (P - M) | N) ->
  exists N', N = N' * 10 ^ (P - M) /\ Z.abs N' <= Z.abs N
             /\ of_ratio N (10 ^ P) = of_ratio N' (10 ^ M).
Proof.
  intros HM [N' E]. exists N'.
  assert (Hc : 0 < 10 ^ (P - M)) by (apply Z.pow_pos_nonneg; lia).
  split; [exact E|]. split.
  - rewrite E, Z.abs_mul, (Z.abs_eq (10 ^ (P - M))) by lia.
    rewrite <- (Z.mul_1_r (Z.abs N')) at 1.
    apply Z.mul_le_mono_nonneg_l; lia.
  - rewrite E. replace (10 ^ P) with (10 ^ M * 10 ^ (P - M)).
    + apply of_ratio_scale; [apply Z.pow_pos_nonneg; lia|exact Hc].
    + rewrite <- Z.pow_add_r by lia. f_equal. lia.
Qed.

(** The precision of a step: the larger of the two counts of fraction
    digits, with which both the value and the step can be written. *)
Lemma step_precision N S P :
  0 <= P <= 22 -> Z.abs N <= 2 ^ 50 -> Z.abs S <= 2 ^ 50 ->
  exists M, 0 <= M <= P /\ (10 ^ (P - M) | N) /\ (10 ^ (P - M) | S)
            /\ JSNumber.max (getDecimalPlaces (VNumber (of_ratio N (10 ^ P))))
                 (getDecimalPlaces (VNumber (of_ratio S (10 ^ P))))
               = Fin (M * U).
Proof.
  intros HP HN HS.
  destruct (decimal_places N P HP HN) as (p1 & Hp1 & Hd1 & ->).
  destruct (decimal_places S P HP HS) as (p2 & Hp2 & Hd2 & ->).
  exists (Z.max p1 p2). split; [lia|]. split; [|split].
  - eapply Z.divide_trans; [|exact Hd1]. apply pow10_divide; lia.
  - eapply Z.divide_trans; [|exact Hd2]. apply pow10_divide; lia.
  - apply max_places.
Qed.

(** The scaled-integer arithmetic of a step is exact on short
    decimals. *)
Lemma scaled_step N S P M :
  0 <= M <= P -> P <= 22 ->
  Z.abs N <= 2 ^ 50 -> Z.abs S <= 2 ^ 50 ->
  (10 ^ (P - M) | N) -> (10 ^ (P - M) | S) ->
  div (add (round (mul (of_ratio N (10 ^ P)) (pow10 (Fin (M * U)))))
           (round (mul (of_ratio S (10 ^ P)) (pow10 (Fin (M * U))))))
      (pow10 (Fin (M * U)))
  = of_ratio (N + S) (10 ^ P)
  /\ div (sub (round (mul (of_ratio N (10 ^ P)) (pow10 (Fin (M * U)))))
              (round (mul (of_ratio S (10 ^ P)) (pow10 (Fin (M * U))))))
         (pow10 (Fin (M * U)))
     = of_ratio (N - S) (10 ^ P).
Proof.
  intros HM HP HN HS HdN HdS.
  destruct (of_ratio_lower N P M HM HdN) as (N' & EN & HN' & ->).
  destruct (of_ratio_lower S P M HM HdS) as (S' & ES & HS' & ->).
  assert (Hc : 0 < 10 ^ (P - M)) by (apply Z.pow_pos_nonneg; lia).
  assert (HT : 0 < 10 ^ M) by (apply Z.pow_pos_nonneg; lia).
  assert (HPM : 10 ^ P = 10 ^ M * 10 ^ (P - M)).
  { rewrite <- Z.pow_add_r by lia. f_equal. lia. }
  rewrite pow10_exact by lia.
  rewrite !scale_round by lia.
  rewrite add_exact, sub_exact by lia.
  rewrite !div_scaled by exact HT.
  rewrite EN, ES, HPM. split.
  - rewrite <- Z.mul_add_distr_r. symmetry. now apply of_ratio_scale.
  - rewrite <- Z.mul_sub_distr_r. symmetry. now apply of_ratio_scale.
Qed.

(** Formatting a short decimal with the precision of the step and
    reading it back gives the decimal itself. *)
Lemma toFixed_decimal X P M :
  0 <= M <= P -> P <= 22 -> Z.abs X <= 2 ^ 51 -> (10 ^ (P - M) | X) ->
  exists str, toFixed (of_ratio X (10 ^ P)) (Fin (M * U)) = Some str
              /\ parseFloat str = of_ratio X (10 ^ P).
Proof.
  intros HM HP HX Hd. pose proof U_pos as HU.
  destruct (of_ratio_lower X P M HM Hd) as (X' & EX & HX' & ->).
  assert (HM22 : 0 <= M <= 22) by lia.
  pose proof (pow10_range M HM22) as HT.
  destruct (of_ratio_near X' (10 ^ M) HT ltac:(lia)) as (k & Ek & Hk & Hsg).
  set (T := 10 ^ M) in *.
  assert (HXU : Z.abs X' * U <= 2 ^ 51 * U) by (apply Z.mul_le_mono_nonneg_r; lia).
  assert (Habs : Z.abs (k * T - X' * U) = Z.abs (Z.abs k * T - Z.abs X' * U)).
  { destruct (Z.lt_trichotomy X' 0) as [H|[H|H]].
    - rewrite (Z.sgn_neg X') in Hsg by lia.
      assert (k < 0) by (destruct k; simpl in Hsg; lia).
      rewrite (Z.abs_neq k), (Z.abs_neq X') by lia.
      replace (- k * T - - X' * U) with (- (k * T - X' * U)) by ring.
      now rewrite Z.abs_opp.
    - subst X'. simpl in Hsg. assert (k = 0) by (destruct k; simpl in Hsg; lia).
      subst k. reflexivity.
    - rewrite (Z.sgn_pos X') in Hsg by lia.
      assert (0 < k) by (destruct k; simpl in Hsg; lia).
      rewrite (Z.abs_eq k), (Z.abs_eq X') by lia. reflexivity. }
  rewrite Habs in Hk.
  assert (HkT : Z.abs k <= Z.abs k * T).
  { rewrite <- (Z.mul_1_r (Z.abs k)) at 1. apply Z.mul_le_mono_nonneg_l; lia. }
  assert (H21 : 2 ^ 52 * U < 10 ^ 21 * U).
  { apply Z.mul_lt_mono_pos_r; [exact HU|reflexivity]. }
  rewrite Ek.
  destruct (toFixed_reads_back k M ltac:(lia) ltac:(lia)) as (str & Hf & Hp).
  exists str. split; [exact Hf|]. rewrite Hp. fold T.
  assert (Hn : (2 * Z.abs k * T + U) / (2 * U) = Z.abs X').
  { symmetry. apply (Z.div_unique _ _ _ (2 * Z.abs k * T + U - 2 * U * Z.abs X')).
    - left. lia.
    - ring. }
  rewrite Hn. rewrite <- Ek.
  destruct (Z.ltb_spec k 0) as [Hneg|Hpos].
  - rewrite <- of_ratio_neg by lia. f_equal.
    assert (X' < 0) by (destruct X'; simpl in Hsg; lia). lia.
  - f_equal. assert (0 <= X') by (destruct X'; simpl in Hsg; lia). lia.
Qed.

Lemma storeFixed_decimal pre X P M src :
  0 <= M <= P -> P <= 22 -> Z.abs X <= 2 ^ 51 -> (10 ^ (P - M) | X) ->
  exists str,
    storeFixed pre (of_ratio X (10 ^ P)) (Fin (M * U)) src
    = ((pre ++ [SetValue (VNumber (of_ratio X (10 ^ P)));
                OnValueChange (typed str (Some (of_ratio X (10 ^ P)))) src;
                AdjustCursor])%list, None).
Proof.
  intros HM HP HX Hd.
  destruct (toFixed_decimal X P M HM HP HX Hd) as (str & Hf & Hp).
  exists str. unfold storeFixed. rewrite Hf, Hp. reflexivity.
Qed.

(** Short decimals can be stepped. *)
Lemma canStep_decimal N P :
  0 <= P <= 22 -> Z.abs N <= 2 ^ 51 ->
  canStep (VNumber (of_ratio N (10 ^ P))) = true
  /\ isNaN (of_ratio N (10 ^ P)) = false.
Proof.
  intros HP HN. pose proof U_pos as HU.
  pose proof (pow10_range P HP) as HT.
  destruct (of_ratio_near N (10 ^ P) HT ltac:(lia)) as (k & Ek & Hk & _).
  rewrite Ek. split; [|reflexivity].
  unfold canStep. rewrite MAX_SAFE_INTEGER_eq. cbn [ltb]. apply Z.ltb_lt.
  set (T := 10 ^ P) in *.
  assert (HNU : Z.abs N * U <= 2 ^ 51 * U) by (apply Z.mul_le_mono_nonneg_r; lia).
  assert (HkT : Z.abs k <= Z.abs k * T).
  { rewrite <- (Z.mul_1_r (Z.abs k)) at 1. apply Z.mul_le_mono_nonneg_l; lia. }
  assert (Z.abs (k * T) = Z.abs k * T) by (rewrite Z.abs_mul; lia).
  assert (2 ^ 52 * U < (2 ^ 53 - 1) * U).
  { apply Z.mul_lt_mono_pos_r; [exact HU|reflexivity]. }
  lia.
Qed.

(** [increment] and [decrement] on a short decimal, by a step that is a
    short decimal. *)
Lemma increment_decimal N S P :
  step p = PNumber (of_ratio S (10 ^ P)) ->
  0 <= P <= 22 -> Z.abs N <= 2 ^ 50 -> Z.abs S <= 2 ^ 50 ->
  exists M, 0 <= M <= P /\ (10 ^ (P - M) | N) /\ (10 ^ (P - M) | S)
    /\ increment p ModeNumber (VNumber (of_ratio N (10 ^ P)))
       = match maxNumber p with
         | Some mx =>
             storeFixed
               (if gtb (of_ratio (N + S) (10 ^ P)) mx then [OnMaxReached] else [])
               (if leb (of_ratio (N + S) (10 ^ P)) mx
                then of_ratio (N + S) (10 ^ P) else mx)
               (Fin (M * U)) SrcIncrement
         | None => storeFixed [] (of_ratio (N + S) (10 ^ P)) (Fin (M * U)) SrcIncrement
         end.
Proof.
  intros Hstep HP HN HS.
  destruct (step_precision N S P HP HN HS) as (M & HM & HdN & HdS & Hmax).
  exists M. repeat (split; [assumption|]).
  unfold increment.
  destruct (canStep_decimal N P HP ltac:(lia)) as [-> Hnan].
  cbn [negb]. unfold stepNumber. rewrite Hstep, Hmax.
  cbn [isNumberString negb andb Number_of_value]. rewrite Hnan.
  destruct (scaled_step N S P M HM ltac:(lia) HN HS HdN HdS) as [-> _].
  reflexivity.
Qed.

(** [decrement] likewise. *)
Lemma decrement_decimal N S P :
  step p = PNumber (of_ratio S (10 ^ P)) ->
  0 <= P <= 22 -> Z.abs N <= 2 ^ 50 -> Z.abs S <= 2 ^ 50 ->
  exists M, 0 <= M <= P /\ (10 ^ (P - M) | N) /\ (10 ^ (P - M) | S)
    /\ decrement p ModeNumber (VNumber (of_ratio N (10 ^ P)))
       = storeFixed
           (if ltb (of_ratio (N - S) (10 ^ P)) (minValueNumber p)
            then [OnMinReached] else [])
           (if ltb (of_ratio (N - S) (10 ^ P)) (minValueNumber p)
            then minValueNumber p else of_ratio (N - S) (10 ^ P))
           (Fin (M * U)) SrcDecrement.
Proof.
  intros Hstep HP HN HS.
  destruct (step_precision N S P HP HN HS) as (M & HM & HdN & HdS & Hmax).
  exists M. repeat (split; [assumption|]).
  unfold decrement.
  destruct (canStep_decimal N P HP ltac:(lia)) as [-> Hnan].
  cbn [negb]. unfold stepNumber. rewrite Hstep, Hmax.
  cbn [isNumberString negb andb orb Number_of_value]. rewrite Hnan.
  destruct (scaled_step N S P M HM ltac:(lia) HN HS HdN HdS) as [_ ->].
  reflexivity.
Qed.

End DecimalSteps.


(** The round trip can also drift where nothing is near a bound: the
    double of [0.1 + 0.2] prints as [0.30000000000000004], with 17
    fraction digits; scaled by [10^17] and stepped by [1] it no longer
    fits a double, [increment] stores [1.3], and [decrement] then stores
    [0.3], which is another double. *)
Lemma round_trip_drift :
  let p := numberProps (Some (-10)) (Some 10) 1 Blur in
  let v := add (of_ratio 1 10) (of_ratio 2 10) in
  to_string v = "0.30000000000000004"
  /\ leb (add (of_Z (-10)) (of_Z 1)) v = true
  /\ leb v (sub (of_Z 10) (of_Z 1)) = true
  /\ storedAfter (VNumber v) (increment p ModeNumber (VNumber v))
     = VNumber (of_ratio 13 10)
  /\ storedAfter (VNumber (of_ratio 13 10))
       (decrement p ModeNumber (VNumber (of_ratio 13 10)))
     = VNumber (of_ratio 3 10)
  /\ eqb (of_ratio 3 10) v = false.
Proof. vm_compute. repeat split. Qed.






(** *** Steps at a bound *)

(** C3, as the spec has it, fails in number mode: a value at
    [max = Number.MAX_SAFE_INTEGER] is not below the ceiling that
    [canStep] asks for, so [increment] returns at once and [onMaxReached]
    is not invoked. *)
Lemma C3_counterexample :
  max (numberProps None (Some (2 ^ 53 - 1)) 1 Blur)
  = Some (PNumber MAX_SAFE_INTEGER)
  /\ increment (numberProps None (Some (2 ^ 53 - 1)) 1 Blur) ModeNumber
       (VNumber MAX_SAFE_INTEGER) = ([], None)
  /\ count_effect isOnMaxReached
       (increment (numberProps None (Some (2 ^ 53 - 1)) 1 Blur) ModeNumber
          (VNumber MAX_SAFE_INTEGER)) = 0%nat.
Proof. vm_compute. repeat split. Qed.

Lemma increment_bigint_at p cur :
  increment p ModeBigint (VBigint cur)
  = match maxBigInt p with
    | Some mx =>
        if mx <? cur + stepBigInt p
        then storeBigInt [OnMaxReached] mx SrcIncrement
        else storeBigInt [] (cur + stepBigInt p) SrcIncrement
    | None => storeBigInt [] (cur + stepBigInt p) SrcIncrement
    end.
Proof. reflexivity. Qed.

Lemma decrement_bigint_at p cur :
  decrement p ModeBigint (VBigint cur)
  = match minValueBigInt p with
    | Some mn =>
        if cur - stepBigInt p <? mn
        then storeBigInt [OnMinReached] mn SrcDecrement
        else storeBigInt [] (cur - stepBigInt p) SrcDecrement
    | None => storeBigInt [] (cur - stepBigInt p) SrcDecrement
    end.
Proof. reflexivity. Qed.

(** A step up from [max] and a step down from the minimum, on integers
    and on short decimals. *)
Lemma increment_at_max (p : NumberInputProps) (P n s : Z) :
  max p = Some (PNumber (of_ratio n (10 ^ P))) ->
  step p = PNumber (of_ratio s (10 ^ P)) ->
  (P = 0 /\ 1 <= s <= 2 ^ 53 /\ - 2 ^ 53 <= n /\ n < 2 ^ 53 - 1 /\ n + s <= 2 ^ 53)
  \/ (0 <= P <= 22 /\ 1 <= s <= 2 ^ 50 /\ Z.abs n <= 2 ^ 50) ->
  let o := increment p ModeNumber (VNumber (of_ratio n (10 ^ P))) in
  count_effect isOnMaxReached o = 1%nat
  /\ storedAfter (VNumber (of_ratio n (10 ^ P))) o = VNumber (of_ratio n (10 ^ P))
  /\ count_effect isSetValue o = 1%nat.
Proof.
  intros Hmax Hstep [(-> & Hs & Hn & Hlt & Hns)|(HP & Hs & Hn)] o; subst o.
  - change (10 ^ 0) with 1 in *. fold (of_Z n) in *. fold (of_Z s) in Hstep.
    rewrite (of_Z_exact n), (of_Z_exact s) in * by lia.
    rewrite (increment_int p n s Hstep) by lia.
    unfold maxNumber. rewrite Hmax. cbn [numberOrUndefined].
    rewrite gtb_int, leb_int.
    destruct (Z.ltb_spec n (n + s)) as [_|?]; [|lia].
    destruct (Z.leb_spec (n + s) n) as [?|_]; [lia|].
    rewrite storeFixed_int by lia. repeat split.
  - pose proof (pow10_range P HP) as HT.
    destruct (increment_decimal p n s P Hstep HP ltac:(lia) ltac:(lia))
      as (M & HM & HdN & HdS & ->).
    unfold maxNumber. rewrite Hmax. cbn [numberOrUndefined].
    unfold gtb. rewrite of_ratio_ltb, of_ratio_leb by (try exact HT; lia).
    destruct (Z.ltb_spec n (n + s)) as [_|?]; [|lia].
    destruct (Z.leb_spec (n + s) n) as [?|_]; [lia|].
    destruct (storeFixed_decimal [OnMaxReached] n P M SrcIncrement HM
                ltac:(lia) ltac:(lia) HdN) as (str & ->).
    repeat split.
Qed.

Lemma decrement_at_min (p : NumberInputProps) (P m s : Z) :
  minValueNumber p = of_ratio m (10 ^ P) ->
  step p = PNumber (of_ratio s (10 ^ P)) ->
  (P = 0 /\ 1 <= s <= 2 ^ 53 /\ m < 2 ^ 53 - 1 /\ - 2 ^ 53 <= m - s)
  \/ (0 <= P <= 22 /\ 1 <= s <= 2 ^ 50 /\ Z.abs m <= 2 ^ 50) ->
  let o := decrement p ModeNumber (VNumber (of_ratio m (10 ^ P))) in
  count_effect isOnMinReached o = 1%nat
  /\ storedAfter (VNumber (of_ratio m (10 ^ P))) o = VNumber (of_ratio m (10 ^ P))
  /\ count_effect isSetValue o = 1%nat.
Proof.
  intros Hmin Hstep [(-> & Hs & Hlt & Hms)|(HP & Hs & Hm)] o; subst o.
  - change (10 ^ 0) with 1 in *. fold (of_Z m) in *. fold (of_Z s) in Hstep.
    rewrite (of_Z_exact m), (of_Z_exact s) in * by lia.
    rewrite (decrement_int p m s Hstep) by lia.
    rewrite Hmin, ltb_int.
    destruct (Z.ltb_spec (m - s) m) as [_|?]; [|lia].
    rewrite storeFixed_int by lia. repeat split.
  - pose proof (pow10_range P HP) as HT.
    destruct (decrement_decimal p m s P Hstep HP ltac:(lia) ltac:(lia))
      as (M & HM & HdN & HdS & ->).
    rewrite Hmin.
    rewrite of_ratio_ltb by (try exact HT; lia).
    destruct (Z.ltb_spec (m - s) m) as [_|?]; [|lia].
    destruct (storeFixed_decimal [OnMinReached] m P M SrcDecrement HM
                ltac:(lia) ltac:(lia) HdN) as (str & ->).
    repeat split.
Qed.

(** C3, amended: boundary notification with clamping.  In bigint mode, a
    step up from a value equal to [max], by a positive step, invokes
    [onMaxReached] exactly once and stores [max]; a step down from the
    effective minimum ([min], or [0] when negatives are not allowed)
    invokes [onMinReached] exactly once and stores that minimum.  In
    number mode the same holds when the bound and the step are decimals
    with at most [P <= 22] fraction digits whose digits, read as
    integers, lie within [-2^50 .. 2^50], the step being positive; and
    when they are integers with [1 <= step <= 2^53], as long as the value
    at the bound is below [Number.MAX_SAFE_INTEGER] and the step beyond
    the bound stays within [-2^53 .. 2^53].  The effective minimum in
    number mode is [min], [0] when negatives are not allowed, or
    [Number.MIN_SAFE_INTEGER]. *)
Theorem C3_boundary_notification :
  forall (p : NumberInputProps),
    (forall P n s,
        max p = Some (PNumber (of_ratio n (10 ^ P))) ->
        step p = PNumber (of_ratio s (10 ^ P)) ->
        (P = 0 /\ 1 <= s <= 2 ^ 53 /\ - 2 ^ 53 <= n /\ n < 2 ^ 53 - 1
         /\ n + s <= 2 ^ 53)
        \/ (0 <= P <= 22 /\ 1 <= s <= 2 ^ 50 /\ Z.abs n <= 2 ^ 50) ->
        let o := increment p ModeNumber (VNumber (of_ratio n (10 ^ P))) in
        count_effect isOnMaxReached o = 1%nat
        /\ storedAfter (VNumber (of_ratio n (10 ^ P))) o
           = VNumber (of_ratio n (10 ^ P))
        /\ count_effect isSetValue o = 1%nat)
    /\ (forall P m s,
        minValueNumber p = of_ratio m (10 ^ P) ->
        step p = PNumber (of_ratio s (10 ^ P)) ->
        (P = 0 /\ 1 <= s <= 2 ^ 53 /\ m < 2 ^ 53 - 1 /\ - 2 ^ 53 <= m - s)
        \/ (0 <= P <= 22 /\ 1 <= s <= 2 ^ 50 /\ Z.abs m <= 2 ^ 50) ->
        let o := decrement p ModeNumber (VNumber (of_ratio m (10 ^ P))) in
        count_effect isOnMinReached o = 1%nat
        /\ storedAfter (VNumber (of_ratio m (10 ^ P))) o
           = VNumber (of_ratio m (10 ^ P))
        /\ count_effect isSetValue o = 1%nat)
    /\ (forall m,
        maxBigInt p = Some m -> 0 < stepBigInt p ->
        let o := increment p ModeBigint (VBigint m) in
        count_effect isOnMaxReached o = 1%nat
        /\ storedAfter (VBigint m) o = VBigint m
        /\ count_effect isSetValue o = 1%nat)
    /\ (forall m,
        minValueBigInt p = Some m -> 0 < stepBigInt p ->
        let o := decrement p ModeBigint (VBigint m) in
        count_effect isOnMinReached o = 1%nat
        /\ storedAfter (VBigint m) o = VBigint m
        /\ count_effect isSetValue o = 1%nat).
Proof.
  intros p. split; [|split; [|split]].
  - intros P n s Hmax Hstep Hsize.
    exact (increment_at_max p P n s Hmax Hstep Hsize).
  - intros P m s Hmin Hstep Hsize.
    exact (decrement_at_min p P m s Hmin Hstep Hsize).
  - intros m Hmax Hs o. subst o.
    rewrite increment_bigint_at, Hmax.
    destruct (Z.ltb_spec m (m + stepBigInt p)) as [_|?]; [|lia].
    repeat split.
  - intros m Hmin Hs o. subst o.
    rewrite decrement_bigint_at, Hmin.
    destruct (Z.ltb_spec (m - stepBigInt p) m) as [_|?]; [|lia].
    repeat split.
Qed.

Lemma C3_boundary_notification_witness :
  (count_effect isOnMaxReached
     (increment (decimalProps 2 (Some 0) (Some 1050) 25) ModeNumber
        (VNumber (of_ratio 1050 (10 ^ 2)))) = 1%nat
   /\ storedAfter (VNumber (of_ratio 1050 (10 ^ 2)))
        (increment (decimalProps 2 (Some 0) (Some 1050) 25) ModeNumber
           (VNumber (of_ratio 1050 (10 ^ 2)))) = VNumber (of_ratio 1050 (10 ^ 2)))
  /\ (count_effect isOnMinReached
        (decrement (numberProps None None 1 Blur) ModeNumber
           (VNumber (of_ratio (- (2 ^ 53 - 1)) (10 ^ 0)))) = 1%nat
      /\ storedAfter (VNumber (of_ratio (- (2 ^ 53 - 1)) (10 ^ 0)))
           (decrement (numberProps None None 1 Blur) ModeNumber
              (VNumber (of_ratio (- (2 ^ 53 - 1)) (10 ^ 0))))
         = VNumber (of_ratio (- (2 ^ 53 - 1)) (10 ^ 0)))
  /\ (count_effect isOnMaxReached
        (increment (bigintProps (Some 0) (Some 100) 10) ModeBigint
           (VBigint 100)) = 1%nat
      /\ storedAfter (VBigint 100)
           (increment (bigintProps (Some 0) (Some 100) 10) ModeBigint
              (VBigint 100)) = VBigint 100)
  /\ (count_effect isOnMinReached
        (decrement bigIntDemo ModeBigint (VBigint 0)) = 1%nat
      /\ storedAfter (VBigint 0)
           (decrement bigIntDemo ModeBigint (VBigint 0)) = VBigint 0).
Proof.
  assert (H1 : (2 = 0 /\ 1 <= 25 <= 2 ^ 53 /\ - 2 ^ 53 <= 1050 /\ 1050 < 2 ^ 53 - 1
                /\ 1050 + 25 <= 2 ^ 53)
               \/ (0 <= 2 <= 22 /\ 1 <= 25 <= 2 ^ 50 /\ Z.abs 1050 <= 2 ^ 50))
    by (right; lia).
  assert (H2 : (0 = 0 /\ 1 <= 1 <= 2 ^ 53 /\ - (2 ^ 53 - 1) < 2 ^ 53 - 1
                /\ - 2 ^ 53 <= - (2 ^ 53 - 1) - 1)
               \/ (0 <= 0 <= 22 /\ 1 <= 1 <= 2 ^ 50
                   /\ Z.abs (- (2 ^ 53 - 1)) <= 2 ^ 50))
    by (left; lia).
  assert (H6 : 0 < stepBigInt (bigintProps (Some 0) (Some 100) 10)) by reflexivity.
  assert (H7 : 0 < stepBigInt bigIntDemo) by reflexivity.
  split; [|split; [|split]].
  - pose proof (proj1 (C3_boundary_notification
                         (decimalProps 2 (Some 0) (Some 1050) 25))
                  2 1050 25 eq_refl eq_refl H1) as H.
    cbv zeta in H. split; [exact (proj1 H)|exact (proj1 (proj2 H))].
  - pose proof (proj1 (proj2 (C3_boundary_notification (numberProps None None 1 Blur)))
                  0 (- (2 ^ 53 - 1)) 1 eq_refl eq_refl H2) as H.
    cbv zeta in H. split; [exact (proj1 H)|exact (proj1 (proj2 H))].
  - pose proof (proj1 (proj2 (proj2 (C3_boundary_notification
                                       (bigintProps (Some 0) (Some 100) 10))))
                  100 eq_refl H6) as H.
    cbv zeta in H. split; [exact (proj1 H)|exact (proj1 (proj2 H))].
  - pose proof (proj2 (proj2 (proj2 (C3_boundary_notification bigIntDemo)))
                  0 eq_refl H7) as H.
    cbv zeta in H. split; [exact (proj1 H)|exact (proj1 (proj2 H))].
Defined.

(** *** The strict gate *)

(** C6 (strict gate).  With [clampBehavior = 'strict'], [min = 0],
    [max = 10] and no [isAllowed] of the user's, the candidate ["15"] (of
    value 15) is refused by the [isAllowed] handed to [NumericFormat]:
    the keystroke has no effect at all and the stored value is what it
    was. *)
Theorem C6_strict_gate_rejects :
  forall (p : NumberInputProps),
    clampBehavior p = Strict ->
    min p = Some (PNumber (of_Z 0)) ->
    max p = Some (PNumber (of_Z 10)) ->
    isAllowedProp p = None ->
    isAllowed p ModeNumber (typed "15" (Some (of_Z 15))) = false
    /\ keystroke p ModeNumber (typed "15" (Some (of_Z 15))) = ([], None)
    /\ forall v, storedAfter v (keystroke p ModeNumber (typed "15" (Some (of_Z 15)))) = v.
Proof.
  intros p Hcb Hmin Hmax Huser.
  assert (H : isAllowed p ModeNumber (typed "15" (Some (of_Z 15))) = false).
  { unfold isAllowed, minNumber, maxNumber. rewrite Hcb, Hmin, Hmax, Huser.
    vm_compute. reflexivity. }
  split; [exact H|]. unfold keystroke. rewrite H. split; [reflexivity|].
  intros v. reflexivity.
Qed.

Lemma C6_strict_gate_rejects_witness :
  clampBehavior (numberProps (Some 0) (Some 10) 1 Strict) = Strict
  /\ isAllowed (numberProps (Some 0) (Some 10) 1 Strict) ModeNumber
       (typed "15" (Some (of_Z 15))) = false
  /\ storedAfter (VNumber (of_Z 1))
       (keystroke (numberProps (Some 0) (Some 10) 1 Strict) ModeNumber
          (typed "15" (Some (of_Z 15)))) = VNumber (of_Z 1).
Proof.
  pose proof (C6_strict_gate_rejects (numberProps (Some 0) (Some 10) 1 Strict)
                eq_refl eq_refl eq_refl eq_refl) as (H1 & _ & H3).
  split; [reflexivity|]. split; [exact H1|]. exact (H3 (VNumber (of_Z 1))).
Defined.

(** *** Blur *)

Lemma clamp_between x lo hi :
  isNaN x = false -> leb lo hi = true ->
  leb lo (clamp x (Some lo) (Some hi)) = true
  /\ leb (clamp x (Some lo) (Some hi)) hi = true.
Proof.
  unfold clamp, JSNumber.min, JSNumber.max, leb.
  destruct x as [|[|]|a], lo as [|[|]|l], hi as [|[|]|h];
    cbn [isNaN ltb eqb andb orb negb Bool.eqb]; intros Hx Hb;
    try discriminate; try (split; reflexivity);
    repeat match goal with
           | H : context [?u <? ?v] |- _ => destruct (Z.ltb_spec u v)
           | H : context [?u =? ?v] |- _ => destruct (Z.eqb_spec u v)
           | |- context [?u <? ?v] => destruct (Z.ltb_spec u v)
           | |- context [?u =? ?v] => destruct (Z.eqb_spec u v)
           end;
    cbn [isNaN ltb eqb andb orb negb Bool.eqb] in *;
    try discriminate; try (split; reflexivity);
    repeat match goal with
           | |- context [?u <? ?v] => destruct (Z.ltb_spec u v)
           | |- context [?u =? ?v] => destruct (Z.eqb_spec u v)
           end;
    cbn [orb]; try (split; reflexivity); try lia.
Qed.

Lemma blur_stores_clamped p x :
  clampBehavior p = Blur ->
  storedAfter (VNumber x) (handleBlur p ModeNumber (VNumber x))
  = VNumber (clamp x (minNumber p) (maxNumber p)).
Proof.
  intros Hcb. unfold handleBlur, blurValue. rewrite Hcb.
  cbn [strictNe]. unfold storedAfter, done.
  destruct (eqb x (clamp x (minNumber p) (maxNumber p))) eqn:E; cbn.
  - apply number_eqb_eq in E. now rewrite <- E.
  - reflexivity.
Qed.

(** C7 (blur clamp).  With [clampBehavior = 'blur'], [min = 0] and
    [max = 100], typing ["150"] stores the number 150 and the blur that
    follows stores exactly 100.  In general, under ['blur'] the value
    stored after a blur over a number [x] is [clamp (x, min, max)], which
    lies between [min] and [max] whenever [x] is not NaN and
    [min <= max]. *)
Theorem C7_blur_clamp :
  (storedAfter (VString "")
     (keystroke (numberProps (Some 0) (Some 100) 1 Blur) ModeNumber
        (typed "150" (Some (of_Z 150)))) = VNumber (of_Z 150)
   /\ storedAfter (VNumber (of_Z 150))
        (handleBlur (numberProps (Some 0) (Some 100) 1 Blur) ModeNumber
           (VNumber (of_Z 150))) = VNumber (of_Z 100))
  /\ (forall (p : NumberInputProps) (x : number),
        clampBehavior p = Blur ->
        storedAfter (VNumber x) (handleBlur p ModeNumber (VNumber x))
        = VNumber (clamp x (minNumber p) (maxNumber p)))
  /\ (forall (p : NumberInputProps) (x lo hi : number),
        clampBehavior p = Blur ->
        min p = Some (PNumber lo) -> max p = Some (PNumber hi) ->
        isNaN x = false -> leb lo hi = true ->
        exists y,
          storedAfter (VNumber x) (handleBlur p ModeNumber (VNumber x)) = VNumber y
          /\ leb lo y = true /\ leb y hi = true).
Proof.
  split; [|split].
  - split; vm_compute; reflexivity.
  - exact blur_stores_clamped.
  - intros p x lo hi Hcb Hmin Hmax Hx Hb.
    exists (clamp x (Some lo) (Some hi)). split.
    + rewrite blur_stores_clamped by exact Hcb.
      unfold minNumber, maxNumber. now rewrite Hmin, Hmax.
    + now apply clamp_between.
Qed.

Lemma C7_blur_clamp_witness :
  clampBehavior (numberProps (Some 0) (Some 100) 1 Blur) = Blur
  /\ isNaN (of_Z 150) = false
  /\ leb (of_Z 0) (of_Z 100) = true
  /\ exists y,
       storedAfter (VNumber (of_Z 150))
         (handleBlur (numberProps (Some 0) (Some 100) 1 Blur) ModeNumber
            (VNumber (of_Z 150))) = VNumber y
       /\ leb (of_Z 0) y = true /\ leb y (of_Z 100) = true.
Proof.
  assert (H1 : isNaN (of_Z 150) = false) by (vm_compute; reflexivity).
  assert (H2 : leb (of_Z 0) (of_Z 100) = true) by (vm_compute; reflexivity).
  split; [reflexivity|]. split; [exact H1|]. split; [exact H2|].
  exact (proj2 (proj2 C7_blur_clamp) (numberProps (Some 0) (Some 100) 1 Blur)
           (of_Z 150) (of_Z 0) (of_Z 100) eq_refl eq_refl eq_refl H1 H2).
Defined.


(** *** Bigint steps *)

(** C9 (big-integer step exactness).  In bigint mode, with the bigint
    [12345678901234567890] stored and [step = 10n], one [increment], under
    no [max] or under a [max] of at least the result, stores exactly the
    bigint [12345678901234567900] and reports its text
    ["12345678901234567900"]; [onMaxReached] is not invoked.  The sum is
    the sum of integers: nothing is rounded. *)
Theorem C9_bigint_increment_exact :
  forall (p : NumberInputProps),
    step p = PBigint 10 ->
    (forall m, maxBigInt p = Some m -> 12345678901234567900 <= m) ->
    increment p ModeBigint (VBigint 12345678901234567890)
    = ([SetValue (VBigint 12345678901234567900);
        OnValueChange (typed "12345678901234567900" None) SrcIncrement;
        AdjustCursor], None)
    /\ storedAfter (VBigint 12345678901234567890)
         (increment p ModeBigint (VBigint 12345678901234567890))
       = VBigint (12345678901234567890 + 10).
Proof.
  intros p Hstep Hmax.
  assert (E : increment p ModeBigint (VBigint 12345678901234567890)
              = ([SetValue (VBigint 12345678901234567900);
                  OnValueChange (typed "12345678901234567900" None) SrcIncrement;
                  AdjustCursor], None)).
  { unfold increment. cbn [canStepBigInt].
    assert (Hs : stepBigInt p = 10) by (unfold stepBigInt; rewrite Hstep; reflexivity).
    rewrite Hs.
    destruct (maxBigInt p) as [m|] eqn:Em.
    - specialize (Hmax m eq_refl).
      destruct (Z.ltb_spec m (12345678901234567890 + 10)) as [?|_]; [lia|].
      vm_compute. reflexivity.
    - vm_compute. reflexivity. }
  split; [exact E|]. rewrite E. reflexivity.
Qed.

Lemma C9_bigint_increment_exact_witness :
  step bigIntDemo = PBigint 10
  /\ storedAfter (VBigint 12345678901234567890)
       (increment bigIntDemo ModeBigint (VBigint 12345678901234567890))
     = VBigint (12345678901234567890 + 10).
Proof.
  split; [reflexivity|].
  refine (proj2 (C9_bigint_increment_exact bigIntDemo eq_refl _)).
  intros m Hm. discriminate Hm.
Defined.

(** *** The floor of a step down *)

(** C10, at the failing input.  Under the default props but for
    [step = 1e-101], with [-1e16] stored: the value can be stepped, the
    effective minimum is [Number.MIN_SAFE_INTEGER], the result of the step
    falls below it and [onMinReached] is invoked; then [toFixed] is asked
    for 101 fraction digits and raises a RangeError, so that nothing is
    stored. *)
Theorem C10_tiny_step_raises :
  canStep (VNumber (of_Z (- 10 ^ 16))) = true
  /\ minValueNumber tinyStepProps = MIN_SAFE_INTEGER
  /\ getDecimalPlaces (VNumber (stepNumber tinyStepProps)) = of_Z 101
  /\ decrement tinyStepProps ModeNumber (VNumber (of_Z (- 10 ^ 16)))
     = ([OnMinReached], Some RangeError)
  /\ storedAfter (VNumber (of_Z (- 10 ^ 16)))
       (decrement tinyStepProps ModeNumber (VNumber (of_Z (- 10 ^ 16))))
     = VNumber (of_Z (- 10 ^ 16)).
Proof. vm_compute. repeat split. Qed.

(* ------------------------------------------------------------------ *)
(** ** Further properties *)
(* ------------------------------------------------------------------ *)

Import NumberInputEvents EventScenarios.

(** *** Bigints and their text *)

Section BigIntFacts.

Lemma clampBigInt_low v lo hi l :
  lo = Some l -> (forall h, hi = Some h -> l <= h) -> l <= clampBigInt v lo hi.
Proof.
  intros -> Hb. unfold clampBigInt.
  destruct (Z.ltb_spec v l); [lia|].
  destruct hi as [h|]; [|lia].
  specialize (Hb h eq_refl). destruct (Z.ltb_spec h v); lia.
Qed.

Lemma clampBigInt_high v lo hi h :
  hi = Some h -> (forall l, lo = Some l -> l <= h) -> clampBigInt v lo hi <= h.
Proof.
  intros -> Hb. unfold clampBigInt.
  destruct lo as [l|].
  - specialize (Hb l eq_refl).
    destruct (Z.ltb_spec v l); [lia|]. destruct (Z.ltb_spec h v); lia.
  - destruct (Z.ltb_spec h v); lia.
Qed.

Lemma clampBigInt_inside v lo hi :
  (forall l, lo = Some l -> l <= v) -> (forall h, hi = Some h -> v <= h) ->
  clampBigInt v lo hi = v.
Proof.
  intros Hl Hh. unfold clampBigInt.
  destruct lo as [l|], hi as [h|];
    try specialize (Hl _ eq_refl); try specialize (Hh _ eq_refl);
    repeat match goal with |- context [?a <? ?b] => destruct (Z.ltb_spec a b) end; lia.
Qed.

Lemma clampBigInt_idem v lo hi :
  (forall l h, lo = Some l -> hi = Some h -> l <= h) ->
  clampBigInt (clampBigInt v lo hi) lo hi = clampBigInt v lo hi.
Proof.
  intros Hb. apply clampBigInt_inside.
  - intros l E. apply (clampBigInt_low v lo hi l E). intros h E'. now apply Hb.
  - intros h E. apply (clampBigInt_high v lo hi h E). intros l E'. now apply Hb.
Qed.

(** The value of a run of digits is below the power of ten of its
    length. *)
Lemma digits_value_bound s :
  all_digits s = true -> 0 <= digits_value 0 s < 10 ^ slen s.
Proof.
  induction s as [|c r IH]; intros H.
  - cbn. lia.
  - cbn [all_digits] in H. apply andb_true_iff in H. destruct H as [Hc Hr].
    cbn [digits_value]. rewrite digits_value_spec.
    pose proof (is_digit_val c Hc) as Hd.
    specialize (IH Hr).
    replace (slen (String c r)) with (slen r + 1)
      by (unfold slen; cbn [String.length]; lia).
    assert (0 <= slen r) by (unfold slen; lia).
    rewrite Z.pow_add_r, Z.pow_1_r by lia.
    replace (10 * 0 + digit_val c) with (digit_val c) by lia.
    assert (0 < 10 ^ slen r) by (apply Z.pow_pos_nonneg; lia).
    nia.
Qed.

(** The digits of a positive integer do not start with a zero. *)
Lemma Z_to_digits_nonzero_head n :
  1 <= n -> exists c r, Z_to_digits n = String c r /\ is_digit c = true
                        /\ c <> "0"%char /\ all_digits r = true.
Proof.
  intros Hn.
  destruct (Z_to_digits_spec n ltac:(lia)) as (Ha & Hv & Hl & Hp).
  specialize (Hp Hn).
  destruct (Z_to_digits_head n ltac:(lia)) as (c & r & E & Hc).
  exists c, r. rewrite E in *. cbn [all_digits] in Ha.
  apply andb_true_iff in Ha. destruct Ha as [_ Hr].
  repeat split; try assumption.
  intros ->. cbn [digits_value] in Hv. change (10 * 0 + digit_val "0") with 0 in Hv.
  pose proof (digits_value_bound r Hr) as Hb.
  replace (slen (String "0" r) - 1) with (slen r) in Hp
    by (unfold slen; cbn [String.length]; lia).
  lia.
Qed.

Lemma digits_value_zeros_app k s : digits_value 0 (zeros k ++ s) = digits_value 0 s.
Proof. induction k as [|k IH]; [reflexivity|]. cbn. exact IH. Qed.

Lemma integerPattern_digits s :
  all_digits s = true -> s <> "" -> integerPattern s = true.
Proof.
  intros Ha Hne. unfold integerPattern.
  destruct s as [|c r]; [congruence|].
  destruct (Ascii.eqb_spec c "-") as [->|Hc].
  - cbn in Ha. discriminate.
  - replace (match String c r with String "-" r0 => r0 | _ => String c r end)
      with (String c r).
    + exact Ha.
    + destruct c as [[] [] [] [] [] [] [] []]; try reflexivity. congruence.
Qed.

Lemma parseBigInt_digits s :
  all_digits s = true -> s <> "" -> parseBigIntFromString s = Some (digits_value 0 s).
Proof.
  intros Ha Hne. unfold parseBigIntFromString.
  rewrite integerPattern_digits by assumption. cbn [negb].
  destruct s as [|c r]; [congruence|].
  destruct (Ascii.eqb_spec c "-") as [->|Hc].
  - cbn in Ha. discriminate.
  - destruct c as [[] [] [] [] [] [] [] []]; try reflexivity. congruence.
Qed.

Lemma parseBigInt_minus s :
  all_digits s = true -> s <> "" ->
  parseBigIntFromString (String "-" s) = Some (- digits_value 0 s).
Proof.
  intros Ha Hne. unfold parseBigIntFromString, integerPattern.
  destruct s as [|c r]; [congruence|]. rewrite Ha. reflexivity.
Qed.

Lemma Z_to_digits_nonempty n : 0 <= n -> Z_to_digits n <> "".
Proof.
  intros Hn. destruct (Z_to_digits_head n Hn) as (c & r & E & _).
  rewrite E. discriminate.
Qed.

Lemma parseBigInt_Z_to_string z : parseBigIntFromString (Z_to_string z) = Some z.
Proof.
  unfold Z_to_string. destruct (Z.ltb_spec z 0).
  - destruct (Z_to_digits_spec (- z) ltac:(lia)) as (Ha & Hv & _).
    rewrite parseBigInt_minus; [|exact Ha|apply Z_to_digits_nonempty; lia].
    rewrite Hv. f_equal. lia.
  - destruct (Z_to_digits_spec z ltac:(lia)) as (Ha & Hv & _).
    rewrite parseBigInt_digits; [|exact Ha|apply Z_to_digits_nonempty; lia].
    now rewrite Hv.
Qed.

(** A text that [isValidBigIntString] accepts is parsed. *)
Lemma valid_string_parses s a :
  isValidBigIntString s a = true -> exists z, parseBigIntFromString s = Some z.
Proof.
  unfold isValidBigIntString, parseBigIntFromString.
  destruct (String.eqb s ""); [discriminate|].
  destruct (String.eqb s "-"); [discriminate|].
  destruct (negb a && starts_with "-" s); [discriminate|].
  intros ->. cbn [negb]. destruct s as [|c r]; eauto.
  destruct c as [[] [] [] [] [] [] [] []]; eauto.
Qed.

Lemma leadingZerosPattern_Z_to_string z : leadingZerosPattern (Z_to_string z) = false.
Proof.
  assert (G : forall n, 0 <= n ->
            match Z_to_digits n with
            | String "0" r =>
                let (ds, t) := span_digits r in
                match ds with
                | "" => false
                | _ =>
                    match t with
                    | "" => true
                    | String "." "" => true
                    | String "." u =>
                        let (fs, v) := span_digits u in
                        match fs with
                        | "" => false
                        | _ => match v with "" | String "." "" => true | _ => false end
                        end
                    | _ => false
                    end
                end
            | _ => false
            end = false).
  { intros n Hn. destruct (Z.eq_dec n 0) as [->|Hne]; [reflexivity|].
    destruct (Z_to_digits_nonzero_head n ltac:(lia)) as (c & r & E & Hc & Hnz & _).
    rewrite E. digit_case c Hc; try reflexivity. congruence. }
  unfold leadingZerosPattern, Z_to_string. destruct (Z.ltb_spec z 0).
  - apply (G (- z)). lia.
  - destruct (Z_to_digits_head z ltac:(lia)) as (c & r & E & Hc).
    specialize (G z ltac:(lia)). rewrite E in *.
    digit_case c Hc; exact G.
Qed.

Lemma isValidBigIntString_Z_to_string z a :
  0 <= z \/ a = true -> isValidBigIntString (Z_to_string z) a = true.
Proof.
  intros Hz. unfold isValidBigIntString, Z_to_string.
  destruct (Z.ltb_spec z 0) as [Hneg|Hpos].
  - destruct Hz as [?| ->]; [lia|].
    destruct (Z_to_digits_head (- z) ltac:(lia)) as (c & r & E & Hc).
    destruct (Z_to_digits_spec (- z) ltac:(lia)) as (Ha & _).
    rewrite E in *. cbn [String.eqb negb andb].
    replace (String.eqb (String "-" (String c r)) "-") with false
      by reflexivity.
    unfold integerPattern. exact Ha.
  - destruct (Z_to_digits_head z ltac:(lia)) as (c & r & E & Hc).
    destruct (Z_to_digits_spec z ltac:(lia)) as (Ha & _).
    rewrite E in *.
    replace (String.eqb (String c r) "") with false by reflexivity.
    replace (String.eqb (String c r) "-") with false
      by (digit_case c Hc; reflexivity).
    replace (starts_with "-" (String c r)) with false
      by (digit_case c Hc; reflexivity).
    rewrite andb_false_r.
    apply integerPattern_digits; [exact Ha|discriminate].
Qed.

End BigIntFacts.

(** *** Bigint mode *)

(** X1 ([clampBigInt]).  When [min <= max] (or one of them is absent),
    the clamped bigint lies between the bounds that are given, clamping
    twice is clamping once, and a value already between the bounds is
    returned as it is. *)
Theorem clampBigInt_keeps_bounds :
  forall (v : Z) (lo hi : option Z),
    (forall l h, lo = Some l -> hi = Some h -> l <= h) ->
    (forall l, lo = Some l -> l <= clampBigInt v lo hi)
    /\ (forall h, hi = Some h -> clampBigInt v lo hi <= h)
    /\ clampBigInt (clampBigInt v lo hi) lo hi = clampBigInt v lo hi
    /\ ((forall l, lo = Some l -> l <= v) -> (forall h, hi = Some h -> v <= h) ->
        clampBigInt v lo hi = v).
Proof.
  intros v lo hi Hb. repeat split.
  - intros l E. apply (clampBigInt_low v lo hi l E). intros h E'. now apply Hb.
  - intros h E. apply (clampBigInt_high v lo hi h E). intros l E'. now apply Hb.
  - now apply clampBigInt_idem.
  - apply clampBigInt_inside.
Qed.

Lemma clampBigInt_keeps_bounds_witness :
  0 <= clampBigInt (-5) (Some 0) (Some 10) /\ clampBigInt 15 (Some 0) (Some 10) <= 10.
Proof.
  assert (Hb : forall l h : Z, Some 0 = Some l -> Some 10 = Some h -> l <= h).
  { intros l h El Eh. injection El as <-. injection Eh as <-. lia. }
  split.
  - exact (proj1 (clampBigInt_keeps_bounds (-5) (Some 0) (Some 10) Hb) 0 eq_refl).
  - exact (proj1 (proj2 (clampBigInt_keeps_bounds 15 (Some 0) (Some 10) Hb)) 10 eq_refl).
Defined.

(** X2 ([parseBigIntFromString]).  The text of a bigint, as [toString]
    writes it, is parsed back to that bigint; zeros written before the
    digits do not change the result, so that ["007"] gives [7] and
    ["-007"] gives [-7]. *)
Theorem bigint_text_round_trip :
  forall (z : Z) (k : nat) (n : Z),
    parseBigIntFromString (Z_to_string z) = Some z
    /\ (0 <= n ->
        parseBigIntFromString (zeros k ++ Z_to_digits n) = Some n
        /\ parseBigIntFromString ("-" ++ zeros k ++ Z_to_digits n) = Some (- n)).
Proof.
  intros z k n. split; [apply parseBigInt_Z_to_string|].
  intros Hn. destruct (Z_to_digits_spec n Hn) as (Ha & Hv & _).
  assert (Hd : all_digits (zeros k ++ Z_to_digits n) = true)
    by now rewrite all_digits_app, all_digits_zeros, Ha.
  assert (Hne : zeros k ++ Z_to_digits n <> "").
  { destruct (Z_to_digits_head n Hn) as (c & r & E & _). rewrite E.
    destruct (zeros k); discriminate. }
  split.
  - rewrite parseBigInt_digits by assumption.
    now rewrite digits_value_zeros_app, Hv.
  - change ("-" ++ zeros k ++ Z_to_digits n)
      with (String "-" (zeros k ++ Z_to_digits n)).
    rewrite parseBigInt_minus by assumption.
    now rewrite digits_value_zeros_app, Hv.
Qed.

Lemma bigint_text_round_trip_witness :
  parseBigIntFromString (zeros 2 ++ Z_to_digits 7) = Some 7.
Proof.
  assert (H : 0 <= 7) by lia.
  exact (proj1 (proj2 (bigint_text_round_trip 0 2 7) H)).
Defined.

(** X3 (typing a bigint).  In bigint mode, when the text that reaches
    [handleValueChange] from a keystroke is the text of a bigint [z], with
    [z >= 0] or negatives allowed, [setValue] receives the bigint [z]
    itself and not its text, whether leading zeros are allowed or not. *)
Theorem typed_bigint_text_is_stored :
  forall (p : NumberInputProps) (z : Z) (fv : option number) (old : InternalNumberInputValue),
    0 <= z \/ allowNegative p = true ->
    handleValueChange p ModeBigint (typed (Z_to_string z) fv) SrcEvent
    = ([SetValue (VBigint z); OnValueChange (typed (Z_to_string z) fv) SrcEvent], None)
    /\ storedAfter old (handleValueChange p ModeBigint (typed (Z_to_string z) fv) SrcEvent)
       = VBigint z.
Proof.
  intros p z fv old Hz.
  assert (E : handleValueChange p ModeBigint (typed (Z_to_string z) fv) SrcEvent
              = ([SetValue (VBigint z);
                  OnValueChange (typed (Z_to_string z) fv) SrcEvent], None)).
  { unfold handleValueChange, parseBigIntOrString. cbn [value typed].
    rewrite isValidBigIntString_Z_to_string by exact Hz.
    rewrite leadingZerosPattern_Z_to_string, andb_false_r. cbn [negb orb].
    rewrite parseBigInt_Z_to_string. reflexivity. }
  split; [exact E|]. rewrite E. reflexivity.
Qed.

Lemma typed_bigint_text_is_stored_witness :
  storedAfter (VString "")
    (handleValueChange bigIntDemo ModeBigint (typed (Z_to_string 42) None) SrcEvent)
  = VBigint 42.
Proof.
  assert (H : 0 <= 42 \/ allowNegative bigIntDemo = true) by (left; lia).
  exact (proj2 (typed_bigint_text_is_stored bigIntDemo 42 None (VString "") H)).
Defined.

(** X4 (stepping from a text in bigint mode).  A stored text that
    [isValidBigIntString] accepts is always parsed: [increment] and
    [decrement] on it do exactly what they do on the bigint it denotes,
    and the silent return for a text that cannot be parsed is never
    taken. *)
Theorem bigint_text_steps_as_bigint :
  forall (p : NumberInputProps) (s : string),
    isValidBigIntString s (allowNegative p) = true ->
    exists z, parseBigIntFromString s = Some z
              /\ increment p ModeBigint (VString s) = increment p ModeBigint (VBigint z)
              /\ decrement p ModeBigint (VString s) = decrement p ModeBigint (VBigint z).
Proof.
  intros p s Hv.
  destruct (valid_string_parses s _ Hv) as (z & Hz).
  exists z. split; [exact Hz|].
  assert (Hne : s <> "").
  { intros ->. discriminate Hv. }
  unfold increment, decrement, canStepBigInt.
  rewrite Hv, orb_true_r.
  destruct s as [|c r]; [congruence|]. rewrite Hz. split; reflexivity.
Qed.

Lemma bigint_text_steps_as_bigint_witness :
  exists z, parseBigIntFromString "007" = Some z
            /\ increment bigIntDemo ModeBigint (VString "007")
               = increment bigIntDemo ModeBigint (VBigint z)
            /\ decrement bigIntDemo ModeBigint (VString "007")
               = decrement bigIntDemo ModeBigint (VBigint z).
Proof. exact (bigint_text_steps_as_bigint bigIntDemo "007" eq_refl). Defined.

Lemma storeBigInt_In pre z src w :
  (forall u, ~ In (SetValue u) pre) ->
  In (SetValue w) (fst (storeBigInt pre z src)) -> w = VBigint z.
Proof.
  intros Hpre. unfold storeBigInt, done. cbn [fst]. intros H.
  apply in_app_or in H. destruct H as [H|H]; [now apply Hpre in H|].
  cbn in H. destruct H as [H|[H|[H|[]]]]; try discriminate.
  now injection H as <-.
Qed.

Lemma no_set_in_callback (e : effect) u :
  e = OnMaxReached \/ e = OnMinReached -> ~ In (SetValue u) [e].
Proof. intros [-> | ->] [H|[]]; discriminate. Qed.

(** X5 (steps stay within the bounds, bigint mode).  When the effective
    minimum ([min], or [0] when negatives are not allowed) is at most
    [max], whatever [increment] hands to [setValue] is a bigint that is at
    most [max], and whatever [decrement] hands to [setValue] is a bigint
    that is at least the effective minimum: from a bigint, from a text and
    from an empty field alike. *)
Theorem bigint_steps_within_bounds :
  forall (p : NumberInputProps) (v w : InternalNumberInputValue),
    (forall l h, minValueBigInt p = Some l -> maxBigInt p = Some h -> l <= h) ->
    (In (SetValue w) (fst (increment p ModeBigint v)) ->
     exists z, w = VBigint z /\ (forall h, maxBigInt p = Some h -> z <= h))
    /\ (In (SetValue w) (fst (decrement p ModeBigint v)) ->
        exists z, w = VBigint z /\ (forall l, minValueBigInt p = Some l -> l <= z)).
Proof.
  intros p v w Hb.
  assert (Hb' : forall l h, minBigInt p = Some l -> maxBigInt p = Some h -> l <= h).
  { intros l h El Eh. apply Hb; [|exact Eh]. unfold minValueBigInt. now rewrite El. }
  assert (Hup : forall cur,
             In (SetValue w)
               (fst (match maxBigInt p with
                     | Some mx =>
                         if mx <? cur + stepBigInt p
                         then storeBigInt [OnMaxReached] mx SrcIncrement
                         else storeBigInt [] (cur + stepBigInt p) SrcIncrement
                     | None => storeBigInt [] (cur + stepBigInt p) SrcIncrement
                     end)) ->
             exists z, w = VBigint z /\ (forall h, maxBigInt p = Some h -> z <= h)).
  { intros cur H. destruct (maxBigInt p) as [mx|].
    - destruct (Z.ltb_spec mx (cur + stepBigInt p)).
      + apply storeBigInt_In in H; [|intros u; apply no_set_in_callback; now left].
        exists mx. split; [exact H|]. intros h E. injection E as <-. lia.
      + apply storeBigInt_In in H; [|intros u []].
        eexists. split; [exact H|]. intros h E. injection E as <-. lia.
    - apply storeBigInt_In in H; [|intros u []].
      eexists. split; [exact H|]. intros h E. discriminate. }
  assert (Hdown : forall cur,
             In (SetValue w)
               (fst (match minValueBigInt p with
                     | Some mn =>
                         if cur - stepBigInt p <? mn
                         then storeBigInt [OnMinReached] mn SrcDecrement
                         else storeBigInt [] (cur - stepBigInt p) SrcDecrement
                     | None => storeBigInt [] (cur - stepBigInt p) SrcDecrement
                     end)) ->
             exists z, w = VBigint z /\ (forall l, minValueBigInt p = Some l -> l <= z)).
  { intros cur H. destruct (minValueBigInt p) as [mn|].
    - destruct (Z.ltb_spec (cur - stepBigInt p) mn).
      + apply storeBigInt_In in H; [|intros u; apply no_set_in_callback; now right].
        exists mn. split; [exact H|]. intros l E. injection E as <-. lia.
      + apply storeBigInt_In in H; [|intros u []].
        eexists. split; [exact H|]. intros l E. injection E as <-. lia.
    - apply storeBigInt_In in H; [|intros u []].
      eexists. split; [exact H|]. intros l E. discriminate. }
  assert (Hstart : In (SetValue w)
             (fst (storeBigInt []
                     (clampBigInt (startValueBigInt p) (minBigInt p) (maxBigInt p))
                     SrcIncrement)) ->
           exists z, w = VBigint z /\ (forall h, maxBigInt p = Some h -> z <= h)).
  { intros H. apply storeBigInt_In in H; [|intros u []].
    eexists. split; [exact H|]. intros h E.
    apply (clampBigInt_high _ _ _ h E). intros l El. now apply Hb'. }
  assert (Hstart' : In (SetValue w)
             (fst (storeBigInt []
                     (clampBigInt (startValueBigInt p) (minValueBigInt p) (maxBigInt p))
                     SrcDecrement)) ->
           exists z, w = VBigint z /\ (forall l, minValueBigInt p = Some l -> l <= z)).
  { intros H. apply storeBigInt_In in H; [|intros u []].
    eexists. split; [exact H|]. intros l E.
    apply (clampBigInt_low _ _ _ l E). intros h Eh. now apply Hb. }
  split.
  - unfold increment. destruct (canStepBigInt v (allowNegative p)) as [e|[|]];
      try (intros []).
    destruct v as [s|x|cur].
    + destruct s as [|c r]; [exact Hstart|].
      destruct (parseBigIntFromString (String c r)); [apply Hup|intros []].
    + exact Hstart.
    + apply Hup.
  - unfold decrement. destruct (canStepBigInt v (allowNegative p)) as [e|[|]];
      try (intros []).
    destruct v as [s|x|cur].
    + destruct s as [|c r]; [exact Hstart'|].
      destruct (parseBigIntFromString (String c r)); [apply Hdown|intros []].
    + exact Hstart'.
    + apply Hdown.
Qed.

Lemma bigint_steps_within_bounds_witness :
  exists z, VBigint 100 = VBigint z /\ z <= 100.
Proof.
  assert (Hb : forall l h,
             minValueBigInt (bigintProps (Some 0) (Some 100) 10) = Some l ->
             maxBigInt (bigintProps (Some 0) (Some 100) 10) = Some h -> l <= h).
  { intros l h El Eh. injection El as <-. injection Eh as <-. lia. }
  assert (Hin : In (SetValue (VBigint 100))
                  (fst (increment (bigintProps (Some 0) (Some 100) 10) ModeBigint
                          (VBigint 95)))).
  { vm_compute. right. left. reflexivity. }
  destruct (proj1 (bigint_steps_within_bounds (bigintProps (Some 0) (Some 100) 10)
                     (VBigint 95) (VBigint 100) Hb) Hin) as (z & E & Hz).
  exists z. split; [exact E|]. apply Hz. reflexivity.
Defined.

(** X7 (blur in bigint mode).  When [min <= max], what [handleBlur]
    makes of a stored value is left alone by a second blur: the
    normalised value is a fixed point and, for a value that is not a
    number, the second blur calls [onBlur] and nothing else. *)
Theorem blur_bigint_idempotent :
  forall (p : NumberInputProps) (v : InternalNumberInputValue),
    (forall l h, minBigInt p = Some l -> maxBigInt p = Some h -> l <= h) ->
    blurValue p ModeBigint (blurValue p ModeBigint v) = blurValue p ModeBigint v
    /\ (notNumber v ->
        handleBlur p ModeBigint (blurValue p ModeBigint v) = ([OnBlur], None)).
Proof.
  intros p v Hb.
  assert (Hi : blurValue p ModeBigint (blurValue p ModeBigint v)
               = blurValue p ModeBigint v).
  { unfold blurValue.
    destruct (clampBehavior p) eqn:Ec, (trimLeadingZeroesOnBlur p) eqn:Et,
      v as [s|x|z];
      try reflexivity; try (now rewrite clampBigInt_idem);
      unfold clampAndSanitizeBigIntInput;
      destruct (String.eqb s "" || String.eqb s "-") eqn:E1;
      cbv beta iota; rewrite ?E1; try reflexivity;
      destruct (parseBigIntFromString s) eqn:E2;
      cbv beta iota; rewrite ?E1, ?E2; try reflexivity;
      now rewrite clampBigInt_idem. }
  split; [exact Hi|].
  intros Hv. unfold handleBlur. rewrite Hi.
  pose proof (blurValue_bigint p v Hv) as Hn.
  destruct (blurValue p ModeBigint v) as [s|x|z]; cbn [strictNe].
  - now rewrite String.eqb_refl.
  - destruct Hn.
  - now rewrite Z.eqb_refl.
Qed.

Lemma blur_bigint_idempotent_witness :
  blurValue (bigintProps (Some 0) (Some 100) 10) ModeBigint
    (blurValue (bigintProps (Some 0) (Some 100) 10) ModeBigint (VBigint 150))
  = blurValue (bigintProps (Some 0) (Some 100) 10) ModeBigint (VBigint 150).
Proof.
  assert (Hb : forall l h,
             minBigInt (bigintProps (Some 0) (Some 100) 10) = Some l ->
             maxBigInt (bigintProps (Some 0) (Some 100) 10) = Some h -> l <= h).
  { intros l h El Eh. injection El as <-. injection Eh as <-. lia. }
  exact (proj1 (blur_bigint_idempotent (bigintProps (Some 0) (Some 100) 10)
                  (VBigint 150) Hb)).
Defined.

(** X8 (the strict gate).  With [clampBehavior = 'strict'], every bigint
    that a keystroke hands to [setValue] in bigint mode lies between [min]
    and [max], and every number that a keystroke hands to [setValue] in
    number mode satisfies [x >= min] and [x <= max], for the bounds that
    are given. *)
Theorem strict_gate_keeps_range :
  forall (p : NumberInputProps) (val : NumberFormatValues),
    clampBehavior p = Strict ->
    (forall z, In (SetValue (VBigint z)) (fst (keystroke p ModeBigint val)) ->
       (forall l, minBigInt p = Some l -> l <= z)
       /\ (forall h, maxBigInt p = Some h -> z <= h))
    /\ (forall x, In (SetValue (VNumber x)) (fst (keystroke p ModeNumber val)) ->
       (forall l, minNumber p = Some l -> geb x l = true)
       /\ (forall h, maxNumber p = Some h -> leb x h = true)).
Proof.
  intros p val Hs. split.
  - intros z. unfold keystroke, isAllowed. rewrite Hs.
    destruct (match isAllowedProp p with Some f => f val | None => true end);
      cbn [negb]; [|intros []].
    unfold handleValueChange, parseBigIntOrString. cbn [fst done app].
    destruct (String.eqb (value val) "" || String.eqb (value val) "-") eqn:E1.
    + assert (Hv : isValidBigIntString (value val) (allowNegative p) = false).
      { unfold isValidBigIntString. apply orb_true_iff in E1.
        destruct E1 as [-> | E1]; [reflexivity|].
        destruct (String.eqb (value val) ""); [reflexivity|]. now rewrite E1. }
      rewrite Hv. cbn. intros [H|[H|[]]]; discriminate.
    + destruct (parseBigIntFromString (value val)) as [parsed|] eqn:E2.
      * destruct (match minBigInt p with None => true | Some m => m <=? parsed end
                  && match maxBigInt p with None => true | Some m => parsed <=? m end)
          eqn:E3; [|intros []].
        apply andb_true_iff in E3. destruct E3 as [E3 E4].
        destruct (negb (isValidBigIntString (value val) (allowNegative p))
                  || allowLeadingZeros p && leadingZerosPattern (value val));
          cbn; intros [H|[H|[]]]; try discriminate.
        injection H as <-. split.
        -- intros l El. rewrite El in E3. lia.
        -- intros h Eh. rewrite Eh in E4. lia.
      * destruct (negb (isValidBigIntString (value val) (allowNegative p))
                  || allowLeadingZeros p && leadingZerosPattern (value val));
          cbn; intros [H|[H|[]]]; discriminate.
  - intros x. unfold keystroke, isAllowed. rewrite Hs.
    destruct (match isAllowedProp p with Some f => f val | None => true end);
      cbn [negb]; [|intros []].
    destruct (isInRange (floatValue val) (minNumber p) (maxNumber p)) eqn:E; [|intros []].
    unfold handleValueChange. cbn [fst done app].
    destruct (floatValue val) as [y|].
    + destruct (isValidNumber (Some y) (value val)
                && negb (leadingDecimalZeroPattern (value val))
                && negb (if allowLeadingZeros p
                         then leadingZerosPattern (value val) else false)
                && negb (trailingZerosPattern (value val))
                && negb (trailingDecimalSeparatorPattern (value val)));
        cbn; intros [H|[H|[]]]; try discriminate.
      injection H as <-. unfold isInRange in E.
      apply andb_true_iff in E. destruct E as [E1 E2]. split.
      * intros l El. now rewrite El in E1.
      * intros h Eh. now rewrite Eh in E2.
    + cbn [isValidNumber andb]. cbn. intros [H|[H|[]]]; discriminate.
Qed.

Lemma strict_gate_keeps_range_witness :
  geb (of_Z 5) (of_Z 0) = true /\ leb (of_Z 5) (of_Z 10) = true.
Proof.
  assert (Hin : In (SetValue (VNumber (of_Z 5)))
                  (fst (keystroke (numberProps (Some 0) (Some 10) 1 Strict) ModeNumber
                          (typed "5" (Some (of_Z 5)))))).
  { vm_compute. left. reflexivity. }
  destruct (proj2 (strict_gate_keeps_range (numberProps (Some 0) (Some 10) 1 Strict)
                     (typed "5" (Some (of_Z 5))) eq_refl) (of_Z 5) Hin) as [Hl Hh].
  split; [apply Hl|apply Hh]; reflexivity.
Defined.

(** *** Numbers beyond the safe range *)

Section LargeNumbers.

(** Rounding keeps the leading power of two. *)
Lemma round_pos_keeps_power n m :
  53 <= m -> 2 ^ m <= n -> 2 ^ m <= round_pos n 1.
Proof.
  intros Hm Hn.
  assert (H0 : 0 < 2 ^ m) by (apply Z.pow_pos_nonneg; lia).
  assert (Hl : m <= Z.log2 n) by (apply Z.log2_le_pow2; lia).
  unfold round_pos. rewrite Z.div_1_r.
  unfold ulp_shift. rewrite Z.max_r by lia.
  set (sh := Z.log2 n + 1 - 53).
  set (q := Z.shiftr n sh).
  assert (Hq : 2 ^ 52 <= q).
  { unfold q. rewrite Z.shiftr_div_pow2 by (unfold sh; lia).
    apply Z.div_le_lower_bound; [apply Z.pow_pos_nonneg; unfold sh; lia|].
    rewrite <- Z.pow_add_r by (unfold sh; lia).
    replace (sh + 52) with (Z.log2 n) by (unfold sh; lia).
    apply Z.log2_spec. lia. }
  set (q' := match midpoint_cmp sh (n - Z.shiftl q sh) (n mod 1) 1 with
             | Lt => q
             | Gt => q + 1
             | Eq => if Z.even q then q else q + 1
             end).
  assert (Hq' : q <= q').
  { unfold q'. destruct (midpoint_cmp _ _ _ _); [destruct (Z.even q)| |]; lia. }
  rewrite Z.shiftl_mul_pow2 by (unfold sh; lia).
  assert (Hs : 0 < 2 ^ sh) by (apply Z.pow_pos_nonneg; unfold sh; lia).
  assert (Hp : 2 ^ m <= 2 ^ 52 * 2 ^ sh).
  { rewrite <- Z.pow_add_r by (unfold sh; lia). apply Z.pow_le_mono_r; unfold sh; lia. }
  nia.
Qed.

(** [Number(z)] of an integer beyond the safe range lies beyond it. *)
Lemma of_Z_large z :
  2 ^ 53 <= Z.abs z ->
  match of_Z z with
  | Fin k => 2 ^ 53 * U <= Z.abs k /\ Z.sgn k = Z.sgn z
  | Inf s => s = (z <? 0)
  | NaN => False
  end.
Proof.
  intros Hz. unfold of_Z, of_ratio, round_units. pose proof U_pos as HU.
  assert (Ha : Z.abs (z * U) = Z.abs z * U) by (rewrite Z.abs_mul; lia).
  assert (Hn : 2 ^ 1127 <= Z.abs (z * U)).
  { rewrite Ha. change (2 ^ 1127) with (2 ^ 53 * U). nia. }
  pose proof (round_pos_keeps_power (Z.abs (z * U)) 1127 ltac:(lia) Hn) as Hr.
  destruct (OVF <=? round_pos (Z.abs (z * U)) 1).
  - destruct (Z.ltb_spec (z * U) 0), (Z.ltb_spec z 0); try reflexivity; nia.
  - change (2 ^ 53 * U) with (2 ^ 1127). split.
    + rewrite Z.abs_mul. assert (Z.abs (Z.sgn (z * U)) = 1) by nia.
      rewrite H. rewrite Z.abs_eq; lia.
    + rewrite Z.sgn_mul, Z.sgn_mul, (Z.sgn_pos U), (Z.sgn_pos (round_pos _ _)) by lia.
      lia.
Qed.

Lemma isSafeInteger_large z : 2 ^ 53 <= Z.abs z -> isSafeInteger (of_Z z) = false.
Proof.
  intros Hz. pose proof (of_Z_large z Hz) as H. pose proof U_pos as HU.
  destruct (of_Z z) as [|s|k]; try reflexivity.
  destruct H as [Hk _]. unfold isSafeInteger, isInteger, to_Z.
  destruct (Z.eqb_spec (k mod U) 0) as [Hm|]; [|reflexivity].
  cbn [andb]. apply Z.leb_gt.
  apply Z.mod_divide in Hm; [|lia]. destruct Hm as [c ->].
  rewrite Z.div_mul by lia. rewrite Z.abs_mul, (Z.abs_eq U) in Hk by lia.
  assert (2 ^ 53 <= Z.abs c) by nia. lia.
Qed.

Lemma isSafeInteger_small z :
  Z.abs z <= 2 ^ 53 - 1 -> isSafeInteger (of_Z z) = true.
Proof.
  intros Hz. rewrite of_Z_exact by lia. pose proof U_pos as HU.
  unfold isSafeInteger, isInteger, to_Z.
  rewrite Z.mod_mul, Z.div_mul by lia. cbn [Z.eqb andb].
  apply Z.leb_le. exact Hz.
Qed.

(** A short decimal is a whole number only if its digits say so. *)
Lemma isInteger_short_decimal N P :
  0 <= P <= 22 -> Z.abs N <= 2 ^ 50 -> ~ (10 ^ P | N) ->
  exists k, of_ratio N (10 ^ P) = Fin k /\ isInteger (Fin k) = false.
Proof.
  intros HP HN Hd. pose proof U_pos as HU.
  pose proof (pow10_range P HP) as HT.
  destruct (of_ratio_near N (10 ^ P) HT ltac:(lia)) as (k & Ek & Hk & _).
  exists k. split; [exact Ek|]. unfold isInteger.
  destruct (Z.eqb_spec (k mod U) 0) as [Hm|]; [exfalso|reflexivity].
  apply Z.mod_divide in Hm; [|lia]. destruct Hm as [c ->].
  apply Hd. exists c.
  set (T := 10 ^ P) in *.
  replace (c * U * T - N * U) with ((c * T - N) * U) in Hk by ring.
  rewrite Z.abs_mul, (Z.abs_eq U) in Hk by lia.
  assert (2 ^ 53 * Z.abs (c * T - N) <= Z.abs N) by nia.
  lia.
Qed.

End LargeNumbers.

(** X9 ([toBigIntOrUndefined]).  A bound or a step given as a number is
    used in bigint mode exactly when it is a whole number: an integer [n]
    with [|n| <= 2^53] becomes the bigint [n]; a decimal with at most 22
    fraction digits that is not whole, [NaN] and the infinities are
    dropped. *)
Theorem toBigIntOrUndefined_of_numbers :
  forall (n N P : Z),
    (Z.abs n <= 2 ^ 53 -> toBigIntOrUndefined (Some (PNumber (of_Z n))) = Some n)
    /\ (0 <= P <= 22 -> Z.abs N <= 2 ^ 50 -> ~ (10 ^ P | N) ->
        toBigIntOrUndefined (Some (PNumber (of_ratio N (10 ^ P)))) = None)
    /\ toBigIntOrUndefined (Some (PNumber NaN)) = None
    /\ (forall s, toBigIntOrUndefined (Some (PNumber (Inf s))) = None).
Proof.
  intros n N P. pose proof U_pos as HU. repeat split.
  - intros Hn. rewrite of_Z_exact by exact Hn.
    unfold toBigIntOrUndefined, isFinite, isInteger, to_Z.
    rewrite Z.mod_mul, Z.div_mul by lia. reflexivity.
  - intros HP HN Hd.
    destruct (isInteger_short_decimal N P HP HN Hd) as (k & -> & Hi).
    unfold toBigIntOrUndefined. now rewrite Hi, andb_false_r.
Qed.

Lemma toBigIntOrUndefined_of_numbers_witness :
  toBigIntOrUndefined (Some (PNumber (of_Z 10))) = Some 10
  /\ toBigIntOrUndefined (Some (PNumber (of_ratio 5 (10 ^ 1)))) = None.
Proof.
  assert (H1 : Z.abs 10 <= 2 ^ 53) by lia.
  assert (H2 : 0 <= 1 <= 22) by lia.
  assert (H3 : Z.abs 5 <= 2 ^ 50) by lia.
  assert (H4 : ~ (10 ^ 1 | 5)).
  { intros [c Hc]. lia. }
  split.
  - exact (proj1 (toBigIntOrUndefined_of_numbers 10 5 1) H1).
  - exact (proj1 (proj2 (toBigIntOrUndefined_of_numbers 10 5 1)) H2 H3 H4).
Defined.

(** X10 ([getBigIntFloatValue]).  The [floatValue] reported with a
    bigint is that integer, exactly, when it is a safe integer
    ([|z| <= 2^53 - 1]), and is absent otherwise: a rounded value is never
    reported. *)
Theorem getBigIntFloatValue_safe_only :
  forall z : Z,
    getBigIntFloatValue z
    = if Z.abs z <=? 2 ^ 53 - 1 then Some (Fin (z * U)) else None.
Proof.
  intros z. unfold getBigIntFloatValue.
  destruct (Z.leb_spec (Z.abs z) (2 ^ 53 - 1)) as [H|H].
  - rewrite isSafeInteger_small by exact H. now rewrite of_Z_exact by lia.
  - now rewrite isSafeInteger_large by lia.
Qed.

(** *** Steps on short decimals, with and without bounds *)

Section DecimalFacts.

Lemma ten_divides_pow a : 1 <= a -> (10 | 10 ^ a).
Proof.
  intros Ha. exists (10 ^ (a - 1)).
  rewrite <- (Z.pow_1_r 10) at 3. rewrite <- Z.pow_add_r by lia. f_equal. lia.
Qed.

(** Digits that use every place: the last one is not a zero, or there is
    no fraction at all. *)
Lemma full_precision N P M :
  0 <= M <= P -> (10 ^ (P - M) | N) -> P = 0 \/ ~ (10 | N) -> M = P.
Proof.
  intros HM Hd [->|Hn]; [lia|].
  destruct (Z.eq_dec M P) as [|Hne]; [assumption|exfalso].
  apply Hn. eapply Z.divide_trans; [|exact Hd]. apply ten_divides_pow. lia.
Qed.

Lemma places_full N P :
  0 <= P <= 22 -> Z.abs N <= 2 ^ 50 -> P = 0 \/ ~ (10 | N) ->
  getDecimalPlaces (VNumber (of_ratio N (10 ^ P))) = Fin (P * U).
Proof.
  intros HP HN Hf.
  destruct (decimal_places N P HP HN) as (q & Hq & Hd & ->).
  now rewrite (full_precision N P q Hq Hd Hf).
Qed.

(** Short decimals lie above [Number.MIN_SAFE_INTEGER]. *)
Lemma above_MIN_SAFE X P :
  0 <= P <= 22 -> Z.abs X <= 2 ^ 51 ->
  ltb (of_ratio X (10 ^ P)) MIN_SAFE_INTEGER = false.
Proof.
  intros HP HX. pose proof U_pos as HU.
  pose proof (pow10_range P HP) as HT.
  destruct (of_ratio_near X (10 ^ P) HT ltac:(lia)) as (k & -> & Hk & _).
  rewrite MIN_SAFE_INTEGER_eq. cbn [ltb]. apply Z.ltb_ge.
  set (T := 10 ^ P) in *.
  assert (HXU : Z.abs X * U <= 2 ^ 51 * U) by (apply Z.mul_le_mono_nonneg_r; lia).
  assert (HkT : Z.abs k <= Z.abs k * T).
  { rewrite <- (Z.mul_1_r (Z.abs k)) at 1. apply Z.mul_le_mono_nonneg_l; lia. }
  assert (Z.abs (k * T) = Z.abs k * T) by (rewrite Z.abs_mul; lia).
  assert (2 ^ 52 * U < (2 ^ 53 - 1) * U).
  { apply Z.mul_lt_mono_pos_r; [exact HU|reflexivity]. }
  lia.
Qed.

(** A half-integer is a double. *)
Lemma of_ratio_half m :
  Z.abs (2 * m + 1) < 2 ^ 53 -> of_ratio (2 * m + 1) 2 = Fin ((2 * m + 1) * 2 ^ 1073).
Proof.
  intros Hm. unfold of_ratio.
  replace ((2 * m + 1) * U) with ((2 * m + 1) * 2 ^ 1073 * 2)
    by (unfold U; change (2 ^ 1074) with (2 ^ 1073 * 2); ring).
  apply round_units_repr; try lia.
  assert (Z.abs (2 * m + 1) * 2 ^ 1073 < 2 ^ 53 * 2 ^ 1073).
  { apply Z.mul_lt_mono_pos_r; [reflexivity|exact Hm]. }
  assert (2 ^ 53 * 2 ^ 1073 < OVF) by reflexivity.
  lia.
Qed.

End DecimalFacts.

(** X11 ([getDecimalPlaces]).  For a number written with [P <= 22]
    fraction digits, the last of which is not a zero (digits [N] with
    [|N| <= 2^50]), [getDecimalPlaces] is [P], also when the number prints
    in exponent notation ([1e-7] has 7 places); an integer has none. *)
Theorem getDecimalPlaces_counts_fraction_digits :
  forall (N P : Z),
    0 <= P <= 22 -> Z.abs N <= 2 ^ 50 -> P = 0 \/ ~ (10 | N) ->
    getDecimalPlaces (VNumber (of_ratio N (10 ^ P))) = of_Z P.
Proof.
  intros N P HP HN Hf. rewrite places_full by assumption.
  symmetry. apply of_Z_exact. lia.
Qed.

Lemma getDecimalPlaces_counts_fraction_digits_witness :
  getDecimalPlaces (VNumber (of_ratio 1 (10 ^ 7))) = of_Z 7.
Proof.
  assert (H1 : 0 <= 7 <= 22) by lia.
  assert (H2 : Z.abs 1 <= 2 ^ 50) by lia.
  assert (H3 : 7 = 0 \/ ~ (10 | 1)).
  { right. intros [c Hc]. lia. }
  exact (getDecimalPlaces_counts_fraction_digits 1 7 H1 H2 H3).
Defined.

(** X12 ([increment], number mode, below [max]).  For a value and a step
    that are decimals with at most [P <= 22] fraction digits (digits
    within [-2^50 .. 2^50]), with no [max] or with the sum at most [max],
    [increment] stores exactly the double of the decimal sum: [0.1] and
    [0.2] give [0.3].  [setValue] is called once, [onMaxReached] is not,
    and nothing is raised. *)
Theorem increment_short_decimal_exact :
  forall (p : NumberInputProps) (P N S : Z) (hi : option Z),
    step p = PNumber (of_ratio S (10 ^ P)) ->
    max p = option_map (fun h => PNumber (of_ratio h (10 ^ P))) hi ->
    0 <= P <= 22 -> Z.abs N <= 2 ^ 50 -> Z.abs S <= 2 ^ 50 ->
    (forall h, hi = Some h -> N + S <= h <= 2 ^ 50) ->
    let v := VNumber (of_ratio N (10 ^ P)) in
    let o := increment p ModeNumber v in
    storedAfter v o = VNumber (of_ratio (N + S) (10 ^ P))
    /\ count_effect isSetValue o = 1%nat
    /\ count_effect isOnMaxReached o = 0%nat
    /\ snd o = None.
Proof.
  intros p P N S hi Hstep Hmax HP HN HS Hhi v o. subst v o.
  pose proof (pow10_range P HP) as HT.
  destruct (increment_decimal p N S P Hstep HP HN HS) as (M & HM & HdN & HdS & ->).
  assert (Hd : (10 ^ (P - M) | N + S)) by now apply Z.divide_add_r.
  unfold maxNumber. rewrite Hmax.
  destruct hi as [h|]; cbn [option_map numberOrUndefined].
  - specialize (Hhi h eq_refl).
    unfold gtb. rewrite of_ratio_ltb, of_ratio_leb by (try exact HT; lia).
    destruct (Z.ltb_spec h (N + S)) as [?|_]; [lia|].
    destruct (Z.leb_spec (N + S) h) as [_|?]; [|lia].
    destruct (storeFixed_decimal [] (N + S) P M SrcIncrement HM ltac:(lia) ltac:(lia) Hd)
      as (str & ->).
    repeat split.
  - destruct (storeFixed_decimal [] (N + S) P M SrcIncrement HM ltac:(lia) ltac:(lia) Hd)
      as (str & ->).
    repeat split.
Qed.

Lemma increment_short_decimal_exact_witness :
  storedAfter (VNumber (of_ratio 1 (10 ^ 1)))
    (increment (decimalProps 1 None None 2) ModeNumber (VNumber (of_ratio 1 (10 ^ 1))))
  = VNumber (of_ratio (1 + 2) (10 ^ 1)).
Proof.
  assert (H1 : 0 <= 1 <= 22) by lia.
  assert (H2 : Z.abs 1 <= 2 ^ 50) by lia.
  assert (H3 : Z.abs 2 <= 2 ^ 50) by lia.
  assert (H4 : forall h : Z, @None Z = Some h -> 1 + 2 <= h <= 2 ^ 50)
    by (intros h E; discriminate E).
  exact (proj1 (increment_short_decimal_exact (decimalProps 1 None None 2) 1 1 2 None
                  eq_refl eq_refl H1 H2 H3 H4)).
Defined.

(** X13 ([decrement], number mode, without [min]).  For such a value and
    step and no [min]: when negatives are allowed, [decrement] stores
    exactly the double of the decimal difference and [onMinReached] is not
    called; when they are not, it stores the difference or [0], whichever
    is larger, and calls [onMinReached] exactly when the difference is
    negative. *)
Theorem decrement_short_decimal_floor :
  forall (p : NumberInputProps) (P N S : Z),
    step p = PNumber (of_ratio S (10 ^ P)) ->
    min p = None ->
    0 <= P <= 22 -> Z.abs N <= 2 ^ 50 -> Z.abs S <= 2 ^ 50 ->
    let v := VNumber (of_ratio N (10 ^ P)) in
    let o := decrement p ModeNumber v in
    (allowNegative p = true ->
     storedAfter v o = VNumber (of_ratio (N - S) (10 ^ P))
     /\ count_effect isOnMinReached o = 0%nat)
    /\ (allowNegative p = false ->
        storedAfter v o = VNumber (of_ratio (Z.max (N - S) 0) (10 ^ P))
        /\ count_effect isOnMinReached o = (if N - S <? 0 then 1%nat else 0%nat))
    /\ count_effect isSetValue o = 1%nat
    /\ snd o = None.
Proof.
  intros p P N S Hstep Hmin HP HN HS v o. subst v o.
  pose proof (pow10_range P HP) as HT.
  destruct (decrement_decimal p N S P Hstep HP HN HS) as (M & HM & HdN & HdS & ->).
  assert (Hd : (10 ^ (P - M) | N - S)) by now apply Z.divide_sub_r.
  unfold minValueNumber, minNumber. rewrite Hmin. cbn [numberOrUndefined].
  destruct (allowNegative p); cbn [negb].
  - rewrite above_MIN_SAFE by lia.
    destruct (storeFixed_decimal [] (N - S) P M SrcDecrement HM ltac:(lia) ltac:(lia) Hd)
      as (str & ->).
    repeat split; intros; discriminate.
  - change (of_Z 0) with (of_ratio 0 1).
    rewrite (of_ratio_zero 1) by lia. rewrite <- (of_ratio_zero (10 ^ P)) by lia.
    rewrite of_ratio_ltb by (try exact HT; lia).
    destruct (Z.ltb_spec (N - S) 0) as [Hlt|Hge].
    + destruct (storeFixed_decimal [OnMinReached] 0 P M SrcDecrement HM
                  ltac:(lia) ltac:(lia) (Z.divide_0_r _)) as (str & ->).
      rewrite Z.max_r by lia. repeat split; intros; try discriminate; reflexivity.
    + destruct (storeFixed_decimal [] (N - S) P M SrcDecrement HM
                  ltac:(lia) ltac:(lia) Hd) as (str & ->).
      rewrite Z.max_l by lia. repeat split; intros; try discriminate; reflexivity.
Qed.

Lemma decrement_short_decimal_floor_witness :
  storedAfter (VNumber (of_ratio 3 (10 ^ 1)))
    (decrement (decimalProps 1 None None 1) ModeNumber (VNumber (of_ratio 3 (10 ^ 1))))
  = VNumber (of_ratio (3 - 1) (10 ^ 1)).
Proof.
  assert (H1 : 0 <= 1 <= 22) by lia.
  assert (H2 : Z.abs 3 <= 2 ^ 50) by lia.
  assert (H3 : Z.abs 1 <= 2 ^ 50) by lia.
  exact (proj1 (proj1 (decrement_short_decimal_floor (decimalProps 1 None None 1) 1 3 1
                         eq_refl eq_refl H1 H2 H3) eq_refl)).
Defined.

(** X14 (steps past a bound, number mode).  Let the value, the step and
    the bound be decimals with at most [P <= 22] fraction digits, the
    value or the step using all of them (or [P = 0]).  When the sum
    exceeds [max], [increment] stores [max] and calls [onMaxReached] once;
    when the difference falls below [min], [decrement] stores [min] and
    calls [onMinReached] once. *)
Theorem steps_clamp_short_decimals :
  forall (p : NumberInputProps) (P N S b : Z),
    step p = PNumber (of_ratio S (10 ^ P)) ->
    0 <= P <= 22 -> Z.abs N <= 2 ^ 50 -> Z.abs S <= 2 ^ 50 -> Z.abs b <= 2 ^ 50 ->
    P = 0 \/ ~ (10 | N) \/ ~ (10 | S) ->
    let v := VNumber (of_ratio N (10 ^ P)) in
    (max p = Some (PNumber (of_ratio b (10 ^ P))) -> b < N + S ->
     let o := increment p ModeNumber v in
     storedAfter v o = VNumber (of_ratio b (10 ^ P))
     /\ count_effect isOnMaxReached o = 1%nat
     /\ count_effect isSetValue o = 1%nat)
    /\ (min p = Some (PNumber (of_ratio b (10 ^ P))) -> N - S < b ->
        let o := decrement p ModeNumber v in
        storedAfter v o = VNumber (of_ratio b (10 ^ P))
        /\ count_effect isOnMinReached o = 1%nat
        /\ count_effect isSetValue o = 1%nat).
Proof.
  intros p P N S b Hstep HP HN HS Hb Hf v. subst v.
  pose proof (pow10_range P HP) as HT.
  assert (HM : forall M, 0 <= M <= P -> (10 ^ (P - M) | N) -> (10 ^ (P - M) | S) ->
                         (10 ^ (P - M) | b)).
  { intros M HM HdN HdS.
    assert (M = P).
    { destruct Hf as [Hf|[Hf|Hf]].
      - apply (full_precision N P M HM HdN). now left.
      - apply (full_precision N P M HM HdN). now right.
      - apply (full_precision S P M HM HdS). now right. }
    subst M. rewrite Z.sub_diag. apply Z.divide_1_l. }
  split.
  - intros Hmax Hlt o. subst o.
    destruct (increment_decimal p N S P Hstep HP HN HS) as (M & HM' & HdN & HdS & ->).
    unfold maxNumber. rewrite Hmax. cbn [numberOrUndefined].
    unfold gtb. rewrite of_ratio_ltb, of_ratio_leb by (try exact HT; lia).
    destruct (Z.ltb_spec b (N + S)) as [_|?]; [|lia].
    destruct (Z.leb_spec (N + S) b) as [?|_]; [lia|].
    destruct (storeFixed_decimal [OnMaxReached] b P M SrcIncrement HM'
                ltac:(lia) ltac:(lia) (HM M HM' HdN HdS)) as (str & ->).
    repeat split.
  - intros Hmin Hlt o. subst o.
    destruct (decrement_decimal p N S P Hstep HP HN HS) as (M & HM' & HdN & HdS & ->).
    unfold minValueNumber, minNumber. rewrite Hmin. cbn [numberOrUndefined].
    rewrite of_ratio_ltb by (try exact HT; lia).
    destruct (Z.ltb_spec (N - S) b) as [_|?]; [|lia].
    destruct (storeFixed_decimal [OnMinReached] b P M SrcDecrement HM'
                ltac:(lia) ltac:(lia) (HM M HM' HdN HdS)) as (str & ->).
    repeat split.
Qed.

Lemma steps_clamp_short_decimals_witness :
  storedAfter (VNumber (of_ratio 95 (10 ^ 1)))
    (increment (decimalProps 1 (Some 0) (Some 100) 10) ModeNumber
       (VNumber (of_ratio 95 (10 ^ 1))))
  = VNumber (of_ratio 100 (10 ^ 1)).
Proof.
  assert (H1 : 0 <= 1 <= 22) by lia.
  assert (H2 : Z.abs 95 <= 2 ^ 50) by lia.
  assert (H3 : Z.abs 10 <= 2 ^ 50) by lia.
  assert (H4 : Z.abs 100 <= 2 ^ 50) by lia.
  assert (H5 : 1 = 0 \/ ~ (10 | 95) \/ ~ (10 | 10)).
  { right. left. intros [c Hc]. lia. }
  assert (H6 : 100 < 95 + 10) by lia.
  exact (proj1 (proj1 (steps_clamp_short_decimals
                         (decimalProps 1 (Some 0) (Some 100) 10) 1 95 10 100
                         eq_refl H1 H2 H3 H4 H5) eq_refl H6)).
Defined.

(** X15 ([max] with more digits than the step).  The value stored by a
    step is formatted with the fraction digits of the value and of the
    step only: with an integer value, an integer step and [max = m + 0.5],
    a step past [max] calls [onMaxReached] and stores [m + 1], which is
    above [max]. *)
Theorem increment_rounds_max_to_step_precision :
  forall (p : NumberInputProps) (n s m : Z),
    step p = PNumber (of_Z s) ->
    max p = Some (PNumber (of_ratio (2 * m + 1) 2)) ->
    0 <= m < 2 ^ 51 -> Z.abs n <= 2 ^ 52 -> Z.abs s <= 2 ^ 52 ->
    m < n + s ->
    let v := VNumber (of_Z n) in
    let o := increment p ModeNumber v in
    storedAfter v o = VNumber (of_Z (m + 1))
    /\ count_effect isOnMaxReached o = 1%nat
    /\ gtb (of_Z (m + 1)) (of_ratio (2 * m + 1) 2) = true.
Proof.
  intros p n s m Hstep Hmax Hm Hn Hs Hlt v o. subst v o.
  pose proof U_pos as HU.
  rewrite (of_Z_exact s) in Hstep by lia.
  rewrite (of_Z_exact n), (of_Z_exact (m + 1)) by lia.
  rewrite (increment_int p n s Hstep) by lia.
  unfold maxNumber. rewrite Hmax. cbn [numberOrUndefined].
  rewrite of_ratio_half by lia.
  assert (HU2 : U = 2 * 2 ^ 1073) by reflexivity.
  assert (Hgt : (2 * m + 1) * 2 ^ 1073 < (n + s) * U).
  { rewrite HU2. assert (0 < 2 ^ 1073) by reflexivity. nia. }
  unfold gtb, leb. cbn [ltb eqb].
  destruct (Z.ltb_spec ((2 * m + 1) * 2 ^ 1073) ((n + s) * U)) as [_|?]; [|lia].
  destruct (Z.ltb_spec ((n + s) * U) ((2 * m + 1) * 2 ^ 1073)) as [?|_]; [lia|].
  destruct (Z.eqb_spec ((n + s) * U) ((2 * m + 1) * 2 ^ 1073)) as [?|_]; [lia|].
  cbn [orb].
  assert (Hk : Z.abs ((2 * m + 1) * 2 ^ 1073) < 10 ^ 21 * U).
  { rewrite Z.abs_eq by nia. rewrite HU2.
    assert (0 < 2 ^ 1073) by reflexivity.
    assert (2 ^ 53 < 10 ^ 21) by reflexivity. nia. }
  destruct (toFixed_reads_back ((2 * m + 1) * 2 ^ 1073) 0 ltac:(lia) Hk)
    as (str & Hf & Hp).
  unfold storeFixed. change (Fin 0) with (Fin (0 * U)). rewrite Hf, Hp.
  assert (Hq : (2 * Z.abs ((2 * m + 1) * 2 ^ 1073) * 10 ^ 0 + U) / (2 * U) = m + 1).
  { rewrite Z.abs_eq by nia. rewrite Z.pow_0_r, Z.mul_1_r.
    replace (2 * ((2 * m + 1) * 2 ^ 1073) + U) with ((m + 1) * (2 * U))
      by (rewrite HU2; ring).
    apply Z.div_mul. lia. }
  rewrite Hq.
  destruct (Z.ltb_spec ((2 * m + 1) * 2 ^ 1073) 0) as [?|_]; [nia|].
  change (of_ratio (m + 1) (10 ^ 0)) with (of_Z (m + 1)).
  rewrite (of_Z_exact (m + 1)) by lia.
  repeat split.
  apply Z.ltb_lt. rewrite HU2. assert (0 < 2 ^ 1073) by reflexivity. nia.
Qed.

Lemma increment_rounds_max_to_step_precision_witness :
  storedAfter (VNumber (of_Z 1))
    (increment (halfMaxProps 1 1) ModeNumber (VNumber (of_Z 1)))
  = VNumber (of_Z (1 + 1))
  /\ gtb (of_Z (1 + 1)) (of_ratio (2 * 1 + 1) 2) = true.
Proof.
  assert (H1 : 0 <= 1 < 2 ^ 51) by lia.
  assert (H2 : Z.abs 1 <= 2 ^ 52) by lia.
  assert (H3 : 1 < 1 + 1) by lia.
  pose proof (increment_rounds_max_to_step_precision (halfMaxProps 1 1) 1 1 1
                eq_refl eq_refl H1 H2 H2 H3) as H.
  cbv zeta in H. split; [exact (proj1 H)|exact (proj2 (proj2 H))].
Defined.

(** *** Texts of digits *)

Section TextFacts.

Lemma count_zeros_app k s :
  (forall r, s <> String "0" r) -> count_zeros (zeros k ++ s) = (k, s).
Proof.
  intros Hs. induction k as [|k IH].
  - cbn [zeros String.append]. destruct s as [|c r]; [reflexivity|].
    cbn [count_zeros].
    destruct c as [[] [] [] [] [] [] [] []]; try reflexivity.
    exfalso. now apply (Hs r).
  - cbn [zeros String.append count_zeros]. now rewrite IH.
Qed.

Lemma stripLeadingZeros_padded k n :
  0 <= n -> stripLeadingZeros (zeros k ++ Z_to_digits n) = Z_to_digits n.
Proof.
  intros Hn. destruct (Z.eq_dec n 0) as [->|Hne].
  - change (Z_to_digits 0) with "0".
    replace (zeros k ++ "0") with (zeros (S k) ++ "").
    + unfold stripLeadingZeros. rewrite count_zeros_app by (intros r; discriminate).
      destruct k; reflexivity.
    + induction k as [|k IH]; [reflexivity|].
      cbn [zeros String.append] in *. now rewrite IH.
  - destruct (Z_to_digits_nonzero_head n ltac:(lia)) as (c & r & E & Hc & Hnz & _).
    unfold stripLeadingZeros. rewrite count_zeros_app.
    + rewrite E, Hc. reflexivity.
    + intros r' Er. rewrite E in Er. injection Er as -> _. congruence.
Qed.

Lemma count_zeros_rest s :
  forall r, snd (count_zeros s) <> String "0" r.
Proof.
  induction s as [|c t IH]; intros r; [discriminate|].
  cbn [count_zeros].
  destruct c as [[] [] [] [] [] [] [] []]; cbn [snd]; try discriminate.
  destruct (count_zeros t) as [n u] eqn:E. cbn [snd] in *. apply IH.
Qed.

Lemma count_zeros_shape s :
  s = zeros (fst (count_zeros s)) ++ snd (count_zeros s).
Proof.
  induction s as [|c t IH]; [reflexivity|].
  cbn [count_zeros].
  destruct c as [[] [] [] [] [] [] [] []]; try reflexivity.
  destruct (count_zeros t) as [n u] eqn:E. cbn [fst snd zeros String.append] in *.
  now rewrite <- IH.
Qed.

Lemma stripLeadingZeros_idem s :
  stripLeadingZeros (stripLeadingZeros s) = stripLeadingZeros s.
Proof.
  pose proof (count_zeros_rest s) as Hr. pose proof (count_zeros_shape s) as Hs.
  unfold stripLeadingZeros at 2 3.
  destruct (count_zeros s) as [z rest] eqn:E. cbn [fst snd] in *.
  assert (Hrest : count_zeros rest = (O, rest)) by (apply (count_zeros_app 0); exact Hr).
  destruct rest as [|c r].
  - destruct z as [|[|z]].
    + unfold stripLeadingZeros. now rewrite E.
    + unfold stripLeadingZeros. now rewrite E.
    + reflexivity.
  - destruct (is_digit c) eqn:Hc.
    + unfold stripLeadingZeros. now rewrite Hrest, Hc.
    + destruct z as [|[|z]].
      * unfold stripLeadingZeros. now rewrite E, Hc.
      * unfold stripLeadingZeros. now rewrite E, Hc.
      * unfold stripLeadingZeros.
        change (String "0" (String c r)) with (zeros 1 ++ String c r).
        rewrite count_zeros_app by exact Hr. now rewrite Hc.
Qed.

(** A run of digits has no white space to trim. *)
Lemma trim_digits ds : all_digits ds = true -> ds <> "" -> trim ds = ds.
Proof.
  intros Ha Hne. unfold trim.
  destruct (all_digits_last ds Ha Hne) as (init & c & E & Hc).
  assert (Hs : skip_spaces ds = ds).
  { destruct ds as [|d r]; [congruence|].
    cbn [all_digits] in Ha. apply andb_true_iff in Ha.
    apply skip_spaces_digit. tauto. }
  rewrite Hs. rewrite E at 1. rewrite srev_app.
  change (rev (String c "")) with (String c "").
  cbn [String.append]. rewrite skip_spaces_digit by exact Hc.
  change (String c (rev init)) with (rev (String c "") ++ rev init).
  rewrite <- srev_app, srev_involutive, <- E. reflexivity.
Qed.

Lemma parse_radix_digits s : all_digits s = true -> parse_radix_literal s = None.
Proof.
  intros Ha. unfold parse_radix_literal.
  destruct s as [|a [|c [|d r]]]; try reflexivity;
    try (destruct a as [[] [] [] [] [] [] [] []]; reflexivity).
  cbn [all_digits] in Ha. apply andb_true_iff in Ha. destruct Ha as [_ Ha].
  apply andb_true_iff in Ha. destruct Ha as [Hc _].
  destruct a as [[] [] [] [] [] [] [] []]; try reflexivity.
  digit_case c Hc; reflexivity.
Qed.

(** [Number] of a run of digits. *)
Lemma Number_of_digits s :
  all_digits s = true -> s <> "" -> Number_of_string s = of_Z (digits_value 0 s).
Proof.
  intros Ha Hne. unfold Number_of_string.
  rewrite trim_digits by assumption.
  rewrite parse_radix_digits by assumption.
  assert (Hp : parse_decimal s = parse_unsigned_decimal s).
  { destruct s as [|c r]; [congruence|].
    cbn [all_digits] in Ha. apply andb_true_iff in Ha. destruct Ha as [Hc _].
    digit_case c Hc; reflexivity. }
  rewrite Hp, parse_unsigned_digits by assumption.
  destruct s; [congruence|reflexivity].
Qed.

Lemma padded_digits k n :
  0 <= n ->
  all_digits (zeros k ++ Z_to_digits n) = true
  /\ zeros k ++ Z_to_digits n <> ""
  /\ digits_value 0 (zeros k ++ Z_to_digits n) = n.
Proof.
  intros Hn. destruct (Z_to_digits_spec n Hn) as (Ha & Hv & _).
  repeat split.
  - now rewrite all_digits_app, all_digits_zeros, Ha.
  - destruct (Z_to_digits_head n Hn) as (c & r & E & _). rewrite E.
    destruct (zeros k); discriminate.
  - now rewrite digits_value_zeros_app.
Qed.

End TextFacts.

(** X16 (the zeros dropped by [clampAndSanitizeInput]).  Dropping the
    leading zeros twice is dropping them once; from zeros followed by the
    digits of [n] the digits of [n] are left (a single ["0"] for zero);
    and a text that starts with a minus sign keeps its zeros. *)
Theorem stripLeadingZeros_digits :
  forall (s : string) (k : nat) (n : Z),
    stripLeadingZeros (stripLeadingZeros s) = stripLeadingZeros s
    /\ (0 <= n -> stripLeadingZeros (zeros k ++ Z_to_digits n) = Z_to_digits n)
    /\ stripLeadingZeros (String "-" s) = String "-" s.
Proof.
  intros s k n. split; [apply stripLeadingZeros_idem|]. split.
  - apply stripLeadingZeros_padded.
  - reflexivity.
Qed.

Lemma stripLeadingZeros_digits_witness :
  stripLeadingZeros (zeros 2 ++ Z_to_digits 100) = Z_to_digits 100.
Proof.
  assert (H : 0 <= 100) by lia.
  exact (proj1 (proj2 (stripLeadingZeros_digits "" 2 100)) H).
Defined.

(** X17 (stepping from a text in number mode).  A stored text made of
    zeros and the digits of [n <= 2^53], such as ["007"], is stepped as
    the number [n]: [increment] and [decrement] do on it exactly what they
    do on [n]. *)
Theorem zero_padded_text_steps_as_number :
  forall (p : NumberInputProps) (k : nat) (n : Z),
    0 <= n <= 2 ^ 53 ->
    increment p ModeNumber (VString (zeros k ++ Z_to_digits n))
    = increment p ModeNumber (VNumber (of_Z n))
    /\ decrement p ModeNumber (VString (zeros k ++ Z_to_digits n))
       = decrement p ModeNumber (VNumber (of_Z n)).
Proof.
  intros p k n Hn.
  destruct (padded_digits k n (proj1 Hn)) as (Ha & Hne & Hv).
  set (s := zeros k ++ Z_to_digits n) in *.
  assert (HN : Number_of_string s = of_Z n) by (rewrite Number_of_digits, Hv; auto).
  assert (Hnan : isNaN (of_Z n) = false) by (rewrite of_Z_exact by lia; reflexivity).
  assert (Hs : isNumberString (VString s) = true).
  { unfold isNumberString. rewrite HN, Hnan.
    destruct s; [congruence|reflexivity]. }
  assert (Hc : canStep (VString s) = canStep (VNumber (of_Z n))).
  { unfold canStep. rewrite Hs. cbn [Number_of_value andb]. rewrite HN.
    destruct s; [congruence|reflexivity]. }
  assert (Hp : getDecimalPlaces (VString s) = getDecimalPlaces (VNumber (of_Z n))).
  { rewrite (of_Z_exact n), getDecimalPlaces_int by lia.
    apply getDecimalPlaces_plain. cbn [String_of_value].
    now apply decimalMatch_digits. }
  unfold increment, decrement. rewrite Hc, Hp, Hs.
  cbn [Number_of_value negb andb orb]. rewrite HN, Hnan. split; reflexivity.
Qed.

Lemma zero_padded_text_steps_as_number_witness :
  increment defaultProps ModeNumber (VString (zeros 2 ++ Z_to_digits 7))
  = increment defaultProps ModeNumber (VNumber (of_Z 7)).
Proof.
  assert (H : 0 <= 7 <= 2 ^ 53) by lia.
  exact (proj1 (zero_padded_text_steps_as_number defaultProps 2 7 H)).
Defined.

(** X18 (blur on a text above the safe range).  With
    [trimLeadingZeroesOnBlur], a stored text of digits that reads as
    [2^53] or more becomes [max] on blur when [max] is a number, and the
    text without its leading zeros otherwise, whatever [clampBehavior]
    is. *)
Theorem blur_replaces_text_above_safe_range :
  forall (p : NumberInputProps) (k : nat) (n : Z),
    trimLeadingZeroesOnBlur p = true ->
    2 ^ 53 <= n ->
    blurValue p ModeNumber (VString (zeros k ++ Z_to_digits n))
    = match maxNumber p with
      | Some h => VNumber h
      | None => VString (Z_to_digits n)
      end.
Proof.
  intros p k n Ht Hn.
  assert (Hn0 : 0 <= n) by lia.
  destruct (padded_digits k n Hn0) as (Ha & Hne & Hv).
  unfold blurValue.
  replace (match clampBehavior p with
           | Blur => VString (zeros k ++ Z_to_digits n)
           | _ => VString (zeros k ++ Z_to_digits n)
           end) with (VString (zeros k ++ Z_to_digits n))
    by (destruct (clampBehavior p); reflexivity).
  rewrite Ht.
  rewrite (getDecimalPlaces_plain (VString (zeros k ++ Z_to_digits n)))
    by (cbn [String_of_value]; now apply decimalMatch_digits).
  replace (ltb (Fin 0) (of_Z 15)) with true by (vm_compute; reflexivity).
  cbn [andb]. unfold clampAndSanitizeInput. cbn [String_of_value].
  rewrite stripLeadingZeros_padded, parseFloat_digits by exact Hn0.
  pose proof (of_Z_large n ltac:(lia)) as Hl. pose proof U_pos as HU.
  unfold gtb. rewrite MAX_SAFE_INTEGER_eq.
  destruct (of_Z n) as [|sg|kk].
  - destruct Hl.
  - subst sg. destruct (Z.ltb_spec n 0); [lia|]. reflexivity.
  - destruct Hl as [Hk Hsg]. rewrite (Z.sgn_pos n) in Hsg by lia.
    assert (0 < kk) by (destruct kk; simpl in Hsg; lia).
    cbn [isNaN ltb].
    destruct (Z.ltb_spec ((2 ^ 53 - 1) * U) kk) as [_|?]; [reflexivity|].
    rewrite Z.abs_eq in Hk by lia. nia.
Qed.

Lemma blur_replaces_text_above_safe_range_witness :
  blurValue (numberProps (Some 0) (Some 100) 1 Blur) ModeNumber
    (VString (zeros 0 ++ Z_to_digits (2 ^ 53)))
  = match maxNumber (numberProps (Some 0) (Some 100) 1 Blur) with
    | Some h => VNumber h
    | None => VString (Z_to_digits (2 ^ 53))
    end.
Proof.
  assert (H : 2 ^ 53 <= 2 ^ 53) by lia.
  exact (blur_replaces_text_above_safe_range (numberProps (Some 0) (Some 100) 1 Blur)
           0 (2 ^ 53) eq_refl H).
Defined.

(** *** Keys and controls *)

Section StepFacts.

Variable p : NumberInputProps.

Lemma increment_bigint_free z :
  (forall h, maxBigInt p = Some h -> z + stepBigInt p <= h) ->
  increment p ModeBigint (VBigint z) = storeBigInt [] (z + stepBigInt p) SrcIncrement.
Proof.
  intros H. rewrite increment_bigint_at.
  destruct (maxBigInt p) as [h|]; [|reflexivity].
  specialize (H h eq_refl). destruct (Z.ltb_spec h (z + stepBigInt p)); [lia|reflexivity].
Qed.

Lemma decrement_bigint_free z :
  (forall l, minValueBigInt p = Some l -> l <= z - stepBigInt p) ->
  decrement p ModeBigint (VBigint z) = storeBigInt [] (z - stepBigInt p) SrcDecrement.
Proof.
  intros H. rewrite decrement_bigint_at.
  destruct (minValueBigInt p) as [l|]; [|reflexivity].
  specialize (H l eq_refl). destruct (Z.ltb_spec (z - stepBigInt p) l); [lia|reflexivity].
Qed.

End StepFacts.

(** X6 (arrow keys, bigint mode).  With keyboard events on and the field
    not read-only, ArrowUp on a bigint [z] with [z + step <= max] stores
    [z + step], and ArrowDown then stores [z] again when [z] is at least
    the effective minimum; each key calls the user's handler first and
    prevents the default, and no boundary callback is invoked. *)
Theorem arrow_keys_round_trip_bigint :
  forall (c : HandlerProps) (p : NumberInputProps) (z : Z),
    readOnly c = false -> withKeyboardEvents c = true ->
    (forall h, maxBigInt p = Some h -> z + stepBigInt p <= h) ->
    (forall l, minValueBigInt p = Some l -> l <= z) ->
    let up := handleKeyDown c p ModeBigint (VBigint z) ArrowUp in
    let w := valueAfter (VBigint z) up in
    let down := handleKeyDown c p ModeBigint w ArrowDown in
    up = [CallUser; PreventDefault;
          Stepped (storeBigInt [] (z + stepBigInt p) SrcIncrement)]
    /\ w = VBigint (z + stepBigInt p)
    /\ down = [CallUser; PreventDefault; Stepped (storeBigInt [] z SrcDecrement)]
    /\ valueAfter w down = VBigint z.
Proof.
  intros c p z Hr Hk Hmax Hmin up w down.
  assert (Hup : up = [CallUser; PreventDefault;
                      Stepped (storeBigInt [] (z + stepBigInt p) SrcIncrement)]).
  { subst up. unfold handleKeyDown. rewrite Hr, Hk. cbn [negb orb].
    now rewrite increment_bigint_free. }
  assert (Hw : w = VBigint (z + stepBigInt p)).
  { subst w. rewrite Hup. reflexivity. }
  assert (Hdown : down = [CallUser; PreventDefault;
                          Stepped (storeBigInt [] z SrcDecrement)]).
  { subst down. rewrite Hw. unfold handleKeyDown. rewrite Hr, Hk. cbn [negb orb].
    rewrite decrement_bigint_free.
    - now replace (z + stepBigInt p - stepBigInt p) with z by lia.
    - intros l E. specialize (Hmin l E). lia. }
  repeat split; try assumption.
  rewrite Hdown, Hw. reflexivity.
Qed.

Lemma arrow_keys_round_trip_bigint_witness :
  valueAfter (VBigint 50)
    (handleKeyDown plainProps bigIntDemo ModeBigint (VBigint 50) ArrowUp)
  = VBigint (50 + stepBigInt bigIntDemo).
Proof.
  assert (H1 : forall h, maxBigInt bigIntDemo = Some h -> 50 + stepBigInt bigIntDemo <= h)
    by (intros h E; discriminate E).
  assert (H2 : forall l, minValueBigInt bigIntDemo = Some l -> l <= 50).
  { intros l E. injection E as <-. lia. }
  exact (proj1 (proj2 (arrow_keys_round_trip_bigint plainProps bigIntDemo 50
                         eq_refl eq_refl H1 H2))).
Defined.

(** X19 (the controls and the bounds, bigint mode).  With a positive
    step and the field not disabled: the control that steps up is
    disabled exactly when the bigint has reached [max]; as long as it is
    enabled a step up stores a larger bigint, never above [max].  The same
    holds for the control that steps down and [min].  The floor [0] that
    [decrement] applies when negatives are not allowed and [min] is absent
    does not disable the control: at [0] it stays enabled, and a step down
    stores [0] again and calls [onMinReached]. *)
Theorem controls_follow_bigint_bounds :
  forall (c : HandlerProps) (p : NumberInputProps) (z : Z),
    disabled c = false -> 0 < stepBigInt p ->
    (forall mx, maxBigInt p = Some mx ->
       upDisabled c p (VBigint z) = (mx <=? z)
       /\ exists z', storedAfter (VBigint z) (increment p ModeBigint (VBigint z))
                     = VBigint z'
                     /\ z' <= mx
                     /\ (if mx <=? z then z' = mx else z < z'))
    /\ (forall mn, minBigInt p = Some mn ->
       downDisabled c p (VBigint z) = (z <=? mn)
       /\ exists z', storedAfter (VBigint z) (decrement p ModeBigint (VBigint z))
                     = VBigint z'
                     /\ mn <= z'
                     /\ (if z <=? mn then z' = mn else z' < z))
    /\ (minBigInt p = None -> allowNegative p = false ->
        downDisabled c p (VBigint 0) = false
        /\ storedAfter (VBigint 0) (decrement p ModeBigint (VBigint 0)) = VBigint 0
        /\ count_effect isOnMinReached (decrement p ModeBigint (VBigint 0)) = 1%nat).
Proof.
  intros c p z Hd Hs. repeat split.
  - unfold upDisabled. rewrite Hd, H. cbn [orb].
    destruct (maxNumber p); reflexivity.
  - rewrite increment_bigint_at, H.
    destruct (Z.ltb_spec mx (z + stepBigInt p)).
    + exists mx. repeat split; [lia|]. destruct (Z.leb_spec mx z); lia.
    + exists (z + stepBigInt p). repeat split; [lia|].
      destruct (Z.leb_spec mx z); lia.
  - unfold downDisabled. rewrite Hd, H. cbn [orb].
    destruct (minNumber p); reflexivity.
  - rewrite decrement_bigint_at. unfold minValueBigInt. rewrite H.
    destruct (Z.ltb_spec (z - stepBigInt p) mn).
    + exists mn. repeat split; [lia|]. destruct (Z.leb_spec z mn); lia.
    + exists (z - stepBigInt p). repeat split; [lia|].
      destruct (Z.leb_spec z mn); lia.
  - unfold downDisabled. rewrite Hd, H. cbn [orb].
    destruct (minNumber p); reflexivity.
  - rewrite decrement_bigint_at. unfold minValueBigInt. rewrite H, H0. cbn [negb].
    destruct (Z.ltb_spec (0 - stepBigInt p) 0); [reflexivity|lia].
  - rewrite decrement_bigint_at. unfold minValueBigInt. rewrite H, H0. cbn [negb].
    destruct (Z.ltb_spec (0 - stepBigInt p) 0); [reflexivity|lia].
Qed.

Lemma controls_follow_bigint_bounds_witness :
  upDisabled plainProps (bigintProps (Some 0) (Some 100) 10) (VBigint 100)
  = (100 <=? 100).
Proof.
  assert (H : 0 < stepBigInt (bigintProps (Some 0) (Some 100) 10)) by reflexivity.
  exact (proj1 (proj1 (controls_follow_bigint_bounds plainProps
                         (bigintProps (Some 0) (Some 100) 10) 100 eq_refl H)
                  100 eq_refl)).
Defined.

Section HoldFacts.

Variable p : NumberInputProps.

(** The refs and the window while a control is held, after [k] timeouts
    came due. *)
Lemma held_after delay interval z first k :
  maxBigInt p = None ->
  Nat.iter k (tick (holdProps delay interval) p ModeBigint)
    (fst (onStep (holdProps delay interval) p ModeBigint true
            (pressed (VBigint z) first)))
  = {| held := VBigint (z + (Z.of_nat k + 1) * stepBigInt p);
       stepCount := Z.of_nat k + 1;
       onStepTimeout := Some (first + Z.of_nat k);
       timers := [(first + Z.of_nat k, true, pendingDelay delay interval k)];
       nextTimer := first + Z.of_nat k + 1 |}.
Proof.
  intros Hmax.
  assert (Hinc : forall cur, increment p ModeBigint (VBigint cur)
                             = storeBigInt [] (cur + stepBigInt p) SrcIncrement).
  { intros cur. apply increment_bigint_free. intros h E. congruence. }
  induction k as [|k IH].
  - cbn [Nat.iter]. unfold onStep, onStepHandleChange, pressed.
    cbn [held stepCount onStepTimeout timers nextTimer].
    rewrite Hinc. cbn [snd storeBigInt done fst stepHoldDelay stepHoldInterval holdProps].
    unfold setStepTimeout. cbn [held stepCount onStepTimeout timers nextTimer].
    cbn [Z.of_nat pendingDelay]. unfold Nat.iter. cbn [nat_rect].
    change (0 + 1) with 1. rewrite !Z.add_0_r, Z.mul_1_l. reflexivity.
  - change (Nat.iter (S k) ?f ?x) with (f (Nat.iter k f x)). rewrite IH. unfold tick. cbn [timers].
    unfold timeout. cbn [timers List.find fst]. rewrite Z.eqb_refl.
    unfold clearTimeout. cbn [List.filter fst]. rewrite Z.eqb_refl. cbn [negb].
    unfold onStepLoop, onStepHandleChange.
    cbn [held stepCount onStepTimeout timers nextTimer].
    rewrite Hinc. cbn [snd storeBigInt done fst stepHoldDelay stepHoldInterval holdProps].
    unfold setStepTimeout.
    assert (Hst : forall a b,
               storedAfter (VBigint a) (storeBigInt [] b SrcIncrement) = VBigint b)
      by reflexivity.
    rewrite Hst.
    assert (Hd : pendingDelay delay interval (S k)
                 = match interval with
                   | inl i => i
                   | inr f => f (Z.of_nat k + 1 + 1)
                   end).
    { unfold pendingDelay. rewrite Nat2Z.inj_succ. unfold Z.succ. reflexivity. }
    rewrite Hd, Nat2Z.inj_succ. unfold Z.succ.
    replace (first + (Z.of_nat k + 1)) with (first + Z.of_nat k + 1) by lia.
    destruct interval as [i|f];
      cbn [fst held stepCount onStepTimeout timers nextTimer];
      f_equal; f_equal; ring.
Qed.

End HoldFacts.

(** X20 (holding a control).  With [stepHoldDelay] and
    [stepHoldInterval] given and no [max], a press on the control that
    steps up followed by [k] timeouts has made [k + 1] steps; one timeout
    is pending, set with [stepHoldDelay] at first and then with
    [stepHoldInterval], which as a function is asked with the count of the
    steps made.  Releasing the control clears the timeout and the
    count, and no step follows. *)
Theorem holding_a_control_steps_until_release :
  forall (p : NumberInputProps) (delay : Z) (interval : Z + (Z -> Z))
         (z first : Z) (k : nat),
    maxBigInt p = None -> 0 < first ->
    let c := holdProps delay interval in
    let s := Nat.iter k (tick c p ModeBigint)
               (fst (onStep c p ModeBigint true (pressed (VBigint z) first))) in
    held s = VBigint (z + (Z.of_nat k + 1) * stepBigInt p)
    /\ stepCount s = Z.of_nat k + 1
    /\ timers s = [(first + Z.of_nat k, true, pendingDelay delay interval k)]
    /\ timers (onStepDone s) = []
    /\ stepCount (onStepDone s) = 0
    /\ tick c p ModeBigint (onStepDone s) = onStepDone s.
Proof.
  intros p delay interval z first k Hmax Hfirst c s. subst s c.
  rewrite held_after by exact Hmax.
  cbn [held stepCount timers]. repeat split.
  - unfold onStepDone. cbn [onStepTimeout timers].
    destruct (Z.eqb_spec (first + Z.of_nat k) 0) as [?|_]; [lia|].
    unfold clearTimeout. cbn [List.filter fst]. now rewrite Z.eqb_refl.
  - unfold tick, onStepDone. cbn [onStepTimeout timers].
    destruct (Z.eqb_spec (first + Z.of_nat k) 0) as [?|_]; [lia|].
    unfold clearTimeout. cbn [List.filter fst]. now rewrite Z.eqb_refl.
Qed.

Lemma holding_a_control_steps_until_release_witness :
  held (Nat.iter 2 (tick (holdProps 500 (inl 100)) bigIntDemo ModeBigint)
          (fst (onStep (holdProps 500 (inl 100)) bigIntDemo ModeBigint true
                  (pressed (VBigint 0) 1))))
  = VBigint (0 + (Z.of_nat 2 + 1) * stepBigInt bigIntDemo).
Proof.
  assert (H : 0 < 1) by lia.
  exact (proj1 (holding_a_control_steps_until_release bigIntDemo 500 (inl 100) 0 1 2
                  eq_refl H)).
Defined.

(** X21 (a press without hold props).  When [stepHoldDelay] or
    [stepHoldInterval] is missing, a press on a control prevents the
    default, focuses the input and makes one step; no timeout is set. *)
Theorem a_press_without_hold_steps_once :
  forall (c : HandlerProps) (p : NumberInputProps) (mode : NumberInputMode)
         (isIncrement : bool) (v : InternalNumberInputValue) (first : Z),
    stepHoldDelay c = None \/ stepHoldInterval c = None ->
    let o := if isIncrement then increment p mode v else decrement p mode v in
    onStep c p mode isIncrement (pressed v first)
    = ({| held := storedAfter v o;
          stepCount := match snd o with None => 1 | Some _ => 0 end;
          onStepTimeout := None;
          timers := [];
          nextTimer := first |},
       [PreventDefault; FocusInput; Stepped o]).
Proof.
  intros c p mode isIncrement v first H o.
  unfold onStep, onStepHandleChange, pressed.
  cbn [held stepCount onStepTimeout timers nextTimer]. fold o.
  change (0 + 1) with 1.
  destruct (snd o); [reflexivity|].
  destruct H as [-> | ->]; [reflexivity|].
  destruct (stepHoldDelay c); reflexivity.
Qed.

Lemma a_press_without_hold_steps_once_witness :
  snd (onStep plainProps bigIntDemo ModeBigint true (pressed (VBigint 0) 1))
  = [PreventDefault; FocusInput;
     Stepped (increment bigIntDemo ModeBigint (VBigint 0))].
Proof.
  assert (H : stepHoldDelay plainProps = None \/ stepHoldInterval plainProps = None)
    by (left; reflexivity).
  pose proof (a_press_without_hold_steps_once plainProps bigIntDemo ModeBigint true
                (VBigint 0) 1 H) as E.
  cbv zeta in E. rewrite E. reflexivity.
Defined.

(** X24 (two presses, one release).  [onStepDone] clears the timeout set
    last and no other: when a control is pressed a second time before it
    is released, the timeout of the first press stays; after the release
    it comes due, makes a further step and sets the next timeout, asking
    [stepHoldInterval] with a count of one. *)
Theorem release_clears_the_last_timeout_only :
  forall (p : NumberInputProps) (delay : Z) (interval : Z + (Z -> Z)) (z first : Z),
    maxBigInt p = None -> 0 < first ->
    let c := holdProps delay interval in
    let twice := fst (onStep c p ModeBigint true
                        (fst (onStep c p ModeBigint true (pressed (VBigint z) first)))) in
    let s := onStepDone twice in
    timers twice = [(first + 1, true, delay); (first, true, delay)]
    /\ held s = VBigint (z + 2 * stepBigInt p)
    /\ timers s = [(first, true, delay)]
    /\ held (tick c p ModeBigint s) = VBigint (z + 3 * stepBigInt p)
    /\ timers (tick c p ModeBigint s)
       = [(first + 2, true, match interval with inl i => i | inr f => f 1 end)].
Proof.
  intros p delay interval z first Hmax Hfirst c twice s.
  assert (Hinc : forall cur, increment p ModeBigint (VBigint cur)
                             = storeBigInt [] (cur + stepBigInt p) SrcIncrement).
  { intros cur. apply increment_bigint_free. intros h E. congruence. }
  assert (Hst : forall a b,
             storedAfter (VBigint a) (storeBigInt [] b SrcIncrement) = VBigint b)
    by reflexivity.
  assert (Ht : twice = {| held := VBigint (z + stepBigInt p + stepBigInt p);
                          stepCount := 2;
                          onStepTimeout := Some (first + 1);
                          timers := [(first + 1, true, delay); (first, true, delay)];
                          nextTimer := first + 1 + 1 |}).
  { subst twice c. unfold onStep, onStepHandleChange, pressed.
    cbn [held stepCount onStepTimeout timers nextTimer].
    rewrite Hinc, Hst.
    cbn [snd storeBigInt done fst stepHoldDelay stepHoldInterval holdProps].
    unfold setStepTimeout. cbn [held stepCount onStepTimeout timers nextTimer fst snd].
    rewrite Hinc, Hst.
    cbn [snd storeBigInt done fst stepHoldDelay stepHoldInterval holdProps].
    cbn [held stepCount onStepTimeout timers nextTimer fst snd].
    reflexivity. }
  assert (Hs : s = {| held := VBigint (z + stepBigInt p + stepBigInt p);
                      stepCount := 0;
                      onStepTimeout := None;
                      timers := [(first, true, delay)];
                      nextTimer := first + 1 + 1 |}).
  { subst s. rewrite Ht. unfold onStepDone.
    cbn [held stepCount onStepTimeout timers nextTimer].
    destruct (Z.eqb_spec (first + 1) 0) as [?|_]; [lia|].
    unfold clearTimeout. cbn [List.filter fst].
    rewrite Z.eqb_refl. cbn [negb].
    destruct (Z.eqb_spec first (first + 1)) as [?|_]; [lia|]. reflexivity. }
  assert (Hk : tick c p ModeBigint s
               = {| held := VBigint (z + stepBigInt p + stepBigInt p + stepBigInt p);
                    stepCount := 1;
                    onStepTimeout := Some (first + 1 + 1);
                    timers := [(first + 1 + 1, true,
                                match interval with inl i => i | inr f => f 1 end)];
                    nextTimer := first + 1 + 1 + 1 |}).
  { rewrite Hs. subst c. unfold tick. cbn [timers].
    unfold timeout. cbn [timers List.find fst]. rewrite Z.eqb_refl.
    unfold clearTimeout. cbn [List.filter fst]. rewrite Z.eqb_refl. cbn [negb].
    unfold onStepLoop, onStepHandleChange.
    cbn [held stepCount onStepTimeout timers nextTimer].
    rewrite Hinc, Hst.
    cbn [snd storeBigInt done fst stepHoldDelay stepHoldInterval holdProps].
    unfold setStepTimeout.
    destruct interval as [i|f];
      cbn [held stepCount onStepTimeout timers nextTimer fst]; reflexivity. }
  rewrite Hk, Hs, Ht. cbn [held timers].
  repeat split; try (f_equal; ring).
  f_equal. f_equal. f_equal. ring.
Qed.

Lemma release_clears_the_last_timeout_only_witness :
  timers (onStepDone
            (fst (onStep (holdProps 500 (inl 100)) bigIntDemo ModeBigint true
                    (fst (onStep (holdProps 500 (inl 100)) bigIntDemo ModeBigint true
                            (pressed (VBigint 0) 1))))))
  = [(1, true, 500)].
Proof.
  assert (H : 0 < 1) by lia.
  exact (proj1 (proj2 (proj2 (release_clears_the_last_timeout_only bigIntDemo 500
                                (inl 100) 0 1 eq_refl H)))).
Defined.

(** *** Typed numbers and long fractions *)

Section TypedFacts.

Lemma after_last_dot_digits s : all_digits s = true -> after_last_dot s = None.
Proof.
  induction s as [|c r IH]; intros H; [reflexivity|].
  cbn [all_digits] in H. apply andb_true_iff in H. destruct H as [Hc Hr].
  cbn [after_last_dot]. rewrite (IH Hr). digit_case c Hc; reflexivity.
Qed.


Lemma patterns_digits s :
  all_digits s = true -> s <> "" ->
  leadingDecimalZeroPattern s = false
  /\ trailingZerosPattern s = false
  /\ trailingDecimalSeparatorPattern s = false.
Proof.
  intros Ha Hne. repeat split.
  - destruct s as [|a [|b r]]; try reflexivity.
    + cbn [all_digits] in Ha. apply andb_true_iff in Ha. destruct Ha as [Hc _].
      digit_case a Hc; reflexivity.
    + cbn [all_digits] in Ha. apply andb_true_iff in Ha. destruct Ha as [Hc Ha].
      apply andb_true_iff in Ha. destruct Ha as [Hb _].
      digit_case a Hc; try reflexivity. digit_case b Hb; reflexivity.
  - unfold trailingZerosPattern. now rewrite after_last_dot_digits.
  - unfold trailingDecimalSeparatorPattern.
    assert (Hb : match s with String "-" r => r | _ => s end = s).
    { destruct s as [|c r]; [reflexivity|].
      cbn [all_digits] in Ha. apply andb_true_iff in Ha. destruct Ha as [Hc _].
      digit_case c Hc; reflexivity. }
    rewrite Hb, span_digits_all by exact Ha. destruct s; reflexivity.
Qed.


End TypedFacts.

Section SignedTypedFacts.


End SignedTypedFacts.


(** X23 (blur on a long fraction).  In number mode a stored text with 15
    or more fraction digits is not touched by [handleBlur]: the text
    stays, [setValue] is not called. *)
Theorem blur_keeps_long_fractions :
  forall (p : NumberInputProps) (A B : string),
    all_digits A = true -> all_digits B = true ->
    15 <= slen B <= 2 ^ 52 ->
    blurValue p ModeNumber (VString (A ++ String "." B)) = VString (A ++ String "." B)
    /\ handleBlur p ModeNumber (VString (A ++ String "." B)) = ([OnBlur], None).
Proof.
  intros p A B HA HB Hl.
  assert (Hne : B <> "").
  { intros ->. unfold slen in Hl. simpl in Hl. lia. }
  assert (Hp : getDecimalPlaces (VString (A ++ String "." B)) = Fin (slen B * U)).
  { unfold getDecimalPlaces. cbn [String_of_value].
    rewrite decimalMatch_fraction by assumption.
    fold (slen B). rewrite (of_Z_exact (slen B)), (of_Z_exact 0) by lia.
    rewrite places_arith by lia. f_equal. lia. }
  assert (Hb : blurValue p ModeNumber (VString (A ++ String "." B))
               = VString (A ++ String "." B)).
  { unfold blurValue.
    replace (match clampBehavior p with
             | Blur => VString (A ++ String "." B)
             | _ => VString (A ++ String "." B)
             end) with (VString (A ++ String "." B))
      by (destruct (clampBehavior p); reflexivity).
    rewrite Hp, (of_Z_exact 15), ltb_int by lia.
    destruct (Z.ltb_spec (slen B) 15) as [?|_]; [lia|].
    now rewrite andb_false_r. }
  split; [exact Hb|].
  unfold handleBlur. rewrite Hb. cbn [strictNe]. now rewrite String.eqb_refl.
Qed.

Lemma blur_keeps_long_fractions_witness :
  blurValue defaultProps ModeNumber (VString ("0" ++ String "." "100000000000000"))
  = VString ("0" ++ String "." "100000000000000").
Proof.
  assert (H : 15 <= slen "100000000000000" <= 2 ^ 52) by (vm_compute; split; discriminate).
  exact (proj1 (blur_keeps_long_fractions defaultProps "0" "100000000000000"
                  eq_refl eq_refl H)).
Defined.

(** *** The leading zeros on blur *)

(** The blur of a text of zeros and digits, without bounds: the zeros are
    dropped, the digits are read, and the number is what is stored. *)
Lemma blur_padded_digits p k n :
  trimLeadingZeroesOnBlur p = true -> min p = None -> max p = None ->
  0 <= n <= 2 ^ 53 - 1 ->
  clampAndSanitizeInput (VString (zeros k ++ Z_to_digits n)) (maxNumber p) (minNumber p)
  = VNumber (parseFloat (stripLeadingZeros (zeros k ++ Z_to_digits n)))
  /\ blurValue p ModeNumber (VString (zeros k ++ Z_to_digits n)) = VNumber (of_Z n).
Proof.
  intros Ht Hmin Hmax Hn.
  destruct (padded_digits k n (proj1 Hn)) as (Ha & Hne & Hv).
  assert (Hc : clampAndSanitizeInput (VString (zeros k ++ Z_to_digits n))
                 (maxNumber p) (minNumber p)
               = VNumber (parseFloat (stripLeadingZeros (zeros k ++ Z_to_digits n)))).
  { unfold clampAndSanitizeInput, minNumber, maxNumber. rewrite Hmin, Hmax.
    cbn [numberOrUndefined String_of_value clamp].
    destruct (patterns_digits _ Ha Hne) as (_ & _ & ->).
    rewrite stripLeadingZeros_padded, parseFloat_digits by lia.
    rewrite (of_Z_exact n) by lia. unfold gtb.
    rewrite MAX_SAFE_INTEGER_eq, ltb_int. cbn [isNaN].
    destruct (Z.ltb_spec (2 ^ 53 - 1) n) as [?|_]; [lia|reflexivity]. }
  split; [exact Hc|].
  unfold blurValue.
  replace (match clampBehavior p with
           | Blur => VString (zeros k ++ Z_to_digits n)
           | _ => VString (zeros k ++ Z_to_digits n)
           end) with (VString (zeros k ++ Z_to_digits n))
    by (destruct (clampBehavior p); reflexivity).
  rewrite Ht.
  rewrite (getDecimalPlaces_plain (VString (zeros k ++ Z_to_digits n)))
    by (cbn [String_of_value]; now apply decimalMatch_digits).
  replace (ltb (Fin 0) (of_Z 15)) with true by (vm_compute; reflexivity).
  cbn [andb]. rewrite Hc.
  now rewrite stripLeadingZeros_padded, parseFloat_digits by lia.
Qed.

(** C8 (leading-zero trim on blur).  Under the default props, typing
    ["00100"] stores the text as it is; with [trimLeadingZeroesOnBlur] set
    and no bounds, the blur that finds the text ["00100"] stored strips
    its leading zeros, which leaves ["100"], reads that back and stores
    the number 100.  The same holds for every text of zeros followed by
    the digits of a safe integer [n]: the zeros are dropped, the digits
    are read as [n], and [n] is handed to [setValue].  Where the result
    is a text the zeros are gone from it: ["00100."] is stored as
    ["100."]. *)
Theorem C8_trim_leading_zeros_on_blur :
  (storedAfter (VString "")
     (keystroke defaultProps ModeNumber (typed "00100" (Some (of_Z 100))))
   = VString "00100"
   /\ stripLeadingZeros "00100" = "100"
   /\ parseFloat "100" = of_Z 100
   /\ handleBlur defaultProps ModeNumber (VString "00100")
      = ([SetValue (VNumber (of_Z 100)); OnBlur], None)
   /\ handleBlur defaultProps ModeNumber (VString "00100.")
      = ([SetValue (VString "100."); OnBlur], None))
  /\ (forall (p : NumberInputProps),
        trimLeadingZeroesOnBlur p = true -> min p = None -> max p = None ->
        storedAfter (VString "00100") (handleBlur p ModeNumber (VString "00100"))
        = VNumber (of_Z 100))
  /\ (forall (p : NumberInputProps) (k : nat) (n : Z),
        trimLeadingZeroesOnBlur p = true -> min p = None -> max p = None ->
        0 <= n <= 2 ^ 53 - 1 ->
        stripLeadingZeros (zeros k ++ Z_to_digits n) = Z_to_digits n
        /\ parseFloat (Z_to_digits n) = of_Z n
        /\ clampAndSanitizeInput (VString (zeros k ++ Z_to_digits n))
             (maxNumber p) (minNumber p)
           = VNumber (parseFloat (stripLeadingZeros (zeros k ++ Z_to_digits n)))
        /\ handleBlur p ModeNumber (VString (zeros k ++ Z_to_digits n))
           = ([SetValue (VNumber (of_Z n)); OnBlur], None)).
Proof.
  split; [|split].
  - repeat split; vm_compute; reflexivity.
  - intros p Htrim Hmin Hmax.
    unfold handleBlur.
    change "00100" with (zeros 2 ++ Z_to_digits 100).
    rewrite (proj2 (blur_padded_digits p 2 100 Htrim Hmin Hmax ltac:(lia))).
    reflexivity.
  - intros p k n Htrim Hmin Hmax Hn.
    destruct (blur_padded_digits p k n Htrim Hmin Hmax Hn) as [Hc Hb].
    split; [apply stripLeadingZeros_padded; lia|].
    split; [apply parseFloat_digits; lia|].
    split; [exact Hc|].
    unfold handleBlur. rewrite Hb. reflexivity.
Qed.

Lemma C8_trim_leading_zeros_on_blur_witness :
  trimLeadingZeroesOnBlur defaultProps = true
  /\ storedAfter (VString "00100")
       (handleBlur defaultProps ModeNumber (VString "00100"))
     = VNumber (of_Z 100)
  /\ stripLeadingZeros (zeros 2 ++ Z_to_digits 100) = Z_to_digits 100
  /\ handleBlur defaultProps ModeNumber (VString (zeros 2 ++ Z_to_digits 100))
     = ([SetValue (VNumber (of_Z 100)); OnBlur], None).
Proof.
  assert (Hn : 0 <= 100 <= 2 ^ 53 - 1) by lia.
  pose proof (proj2 (proj2 C8_trim_leading_zeros_on_blur) defaultProps 2%nat 100
                eq_refl eq_refl eq_refl Hn) as (H1 & _ & _ & H4).
  split; [reflexivity|]. split.
  - exact (proj1 (proj2 C8_trim_leading_zeros_on_blur) defaultProps
             eq_refl eq_refl eq_refl).
  - split; [exact H1|exact H4].
Defined.
